(** * Retrospxt Holdings website: UI orchestration layer and mail server

  A shallow embedding of the client-side controllers (navigation
  scroll-spy, modal manager, mobile menu, form pipeline) and of the
  request handlers of the mail server, with the properties the
  specification states about them.

  Conventions.
  - A DOM element is a record of its attributes, inline style and class
    list; attributes and style properties are finite maps from names to
    strings, so [getAttribute] is a lookup that may fail.
  - An [async] method is split at each [await] that really suspends:
    the part that runs synchronously when the method is called, and the
    continuation that the timer or frame callback resumes.  Continuations
    of one macrotask (a callback and the microtasks it releases) run as
    one step, since no other handler can run between them.
  - Strings are sequences of code units in the range U+0000..U+00FF. *)

From Stdlib Require Import ZArith Bool Ascii String List Lia.
From stdpp Require Import base option list gmap strings pretty.

Local Open Scope string_scope.
Local Open Scope list_scope.

(** ** JavaScript strings *)

Module JS.

(** Code units matched by [\s], which are also the ones [trim] strips:
    TAB, LF, VT, FF, CR, SPACE and NO-BREAK SPACE. *)
Definition is_whitespace (c : ascii) : bool :=
  let n := nat_of_ascii c in
  ((9 <=? n)%nat && (n <=? 13)%nat) || (n =? 32)%nat || (n =? 160)%nat.

Definition is_digit (c : ascii) : bool :=
  let n := nat_of_ascii c in (48 <=? n)%nat && (n <=? 57)%nat.

Fixpoint trimStart (s : string) : string :=
  match s with
  | EmptyString => EmptyString
  | String c s' => if is_whitespace c then trimStart s' else s
  end.

Fixpoint rev_append (s acc : string) : string :=
  match s with
  | EmptyString => acc
  | String c s' => rev_append s' (String c acc)
  end.

Definition reverse (s : string) : string := rev_append s EmptyString.

Definition trimEnd (s : string) : string := reverse (trimStart (reverse s)).

(** [String.prototype.trim] *)
Definition trim (s : string) : string := trimEnd (trimStart s).

(** [s.split(sep)] for a one-character separator: never empty, and
    [''.split(',')] is [['']]. *)
Fixpoint split (sep : ascii) (s : string) : list string :=
  match s with
  | EmptyString => [EmptyString]
  | String c s' =>
      let rest := split sep s' in
      if Ascii.eqb c sep then EmptyString :: rest
      else match rest with
           | [] => [String c EmptyString]
           | piece :: pieces => String c piece :: pieces
           end
  end.

(** ASCII lower-casing, as selectors compare the values of [type] and
    other enumerated attributes of HTML elements: only [A] to [Z]
    change. *)
Fixpoint asciiLower (s : string) : string :=
  match s with
  | EmptyString => EmptyString
  | String c s' =>
      let n := nat_of_ascii c in
      String (if (65 <=? n)%nat && (n <=? 90)%nat then ascii_of_nat (n + 32) else c)
        (asciiLower s')
  end.

(** Truthiness of a string: only the empty string is falsy. *)
Definition truthy (s : string) : bool :=
  match s with EmptyString => false | _ => true end.

(** [a || b] on strings where [a] may be missing ([null]/[undefined]). *)
Definition or_else (a : option string) (b : string) : string :=
  match a with
  | Some s => if truthy s then s else b
  | None => b
  end.

(** The result of [ToNumber]: [NaN], an infinity, or a finite value
    given as a fraction [num / den]. *)
Inductive Number :=
| NaN
| Infinity (negative : bool)
| Finite (num : Z) (den : positive).

(** [n >= x] and [n <= x] for a length [n]; every comparison with [NaN]
    is false. *)
Definition length_ge (n : nat) (x : Number) : bool :=
  match x with
  | NaN => false
  | Infinity negative => negative
  | Finite num den => (num <=? Z.of_nat n * Z.pos den)%Z
  end.

Definition length_le (n : nat) (x : Number) : bool :=
  match x with
  | NaN => false
  | Infinity negative => negb negative
  | Finite num den => (Z.of_nat n * Z.pos den <=? num)%Z
  end.

(** String conversion inside a template literal of a value that is a
    string or [undefined]. *)
Definition template (x : option string) : string :=
  match x with Some s => s | None => "undefined" end.

(** A stand-in for [ToNumber] to run examples with: it agrees with it on
    the non-empty strings of decimal digits and gives [NaN] elsewhere. *)
Fixpoint digitsValue (acc : option Z) (s : string) : option Z :=
  match s with
  | EmptyString => acc
  | String c s' =>
      if is_digit c then
        digitsValue
          (Some (10 * default 0%Z acc + Z.of_nat (nat_of_ascii c - 48))%Z) s'
      else None
  end.

Definition digitsToNumber (s : string) : Number :=
  match digitsValue None s with
  | Some n => Finite n 1
  | None => NaN
  end.

(** A string made of whitespace only, the empty string included. *)
Fixpoint blank (s : string) : bool :=
  match s with
  | EmptyString => true
  | String c s' => is_whitespace c && blank s'
  end.

End JS.

(** ** Regular expressions

  Every pattern of the sources is anchored at both ends and carries no
  flag, so [RegExp.prototype.test] decides whether the whole string is
  in the language of the pattern.  Matching is by derivatives. *)

Module RegExp.

Inductive regex :=
| Void
| Eps
| Class (p : ascii → bool)
| Cat (r1 r2 : regex)
| Alt (r1 r2 : regex)
| Star (r : regex).

Fixpoint nullable (r : regex) : bool :=
  match r with
  | Void => false
  | Eps => true
  | Class _ => false
  | Cat r1 r2 => nullable r1 && nullable r2
  | Alt r1 r2 => nullable r1 || nullable r2
  | Star _ => true
  end.

Fixpoint deriv (c : ascii) (r : regex) : regex :=
  match r with
  | Void => Void
  | Eps => Void
  | Class p => if p c then Eps else Void
  | Cat r1 r2 =>
      if nullable r1
      then Alt (Cat (deriv c r1) r2) (deriv c r2)
      else Cat (deriv c r1) r2
  | Alt r1 r2 => Alt (deriv c r1) (deriv c r2)
  | Star r1 => Cat (deriv c r1) (Star r1)
  end.

(** [/^r$/.test(s)] *)
Fixpoint test (r : regex) (s : string) : bool :=
  match s with
  | EmptyString => nullable r
  | String c s' => test (deriv c r) s'
  end.

(** Derived forms: [r+], [r?], [r{n}], [r{n,}], [r{0,n}]. *)
Definition Plus (r : regex) : regex := Cat r (Star r).
Definition Opt (r : regex) : regex := Alt Eps r.

Fixpoint Exactly (n : nat) (r : regex) : regex :=
  match n with O => Eps | S n' => Cat r (Exactly n' r) end.

Definition AtLeast (n : nat) (r : regex) : regex := Cat (Exactly n r) (Star r).

Fixpoint UpTo (n : nat) (r : regex) : regex :=
  match n with O => Eps | S n' => Opt (Cat r (UpTo n' r)) end.

Definition Char (c : ascii) : regex := Class (Ascii.eqb c).

Definition one_of (cs : list ascii) (c : ascii) : bool :=
  existsb (Ascii.eqb c) cs.

(** [[^\s@]] *)
Definition not_space_at (c : ascii) : bool :=
  negb (JS.is_whitespace c || Ascii.eqb c "@").

(** [/^[^\s@]+@[^\s@]+\.[^\s@]+$/], the pattern of the [email] rule and
    of both server endpoints. *)
Definition emailRegex : regex :=
  Cat (Plus (Class not_space_at))
    (Cat (Char "@")
       (Cat (Plus (Class not_space_at))
          (Cat (Char ".") (Plus (Class not_space_at))))).

(** [/^[\+]?[1-9][\d]{0,2}[\s\-\(\)]*[\d\s\-\(\)]{7,}$/] *)
Definition phoneRegex : regex :=
  let nonzero c := JS.is_digit c && negb (Ascii.eqb c "0") in
  let punct c := JS.is_whitespace c || one_of ["-"; "("; ")"]%char c in
  Cat (Opt (Char "+"))
    (Cat (Class nonzero)
       (Cat (UpTo 2 (Class JS.is_digit))
          (Cat (Star (Class punct))
             (AtLeast 7 (Class (λ c, JS.is_digit c || punct c)))))).

(** The language of a pattern: [matches r s] when the whole of [s] is
    a match of [r]. *)
Inductive matches : regex → string → Prop :=
| matches_eps : matches Eps ""
| matches_class p c : p c = true → matches (Class p) (String c "")
| matches_cat r1 r2 s1 s2 :
    matches r1 s1 → matches r2 s2 → matches (Cat r1 r2) (s1 +:+ s2)
| matches_alt_l r1 r2 s : matches r1 s → matches (Alt r1 r2) s
| matches_alt_r r1 r2 s : matches r2 s → matches (Alt r1 r2) s
| matches_star_nil r : matches (Star r) ""
| matches_star_cons r s1 s2 :
    matches r s1 → matches (Star r) s2 → matches (Star r) (s1 +:+ s2).

(** A non-empty string without whitespace and without [@]. *)
Fixpoint allNotSpaceAt (s : string) : bool :=
  match s with
  | EmptyString => true
  | String c s' => not_space_at c && allNotSpaceAt s'
  end.

Definition word (s : string) : Prop :=
  s ≠ "" ∧ allNotSpaceAt s = true.

(** [local@domain.tail], each part a word; dots may occur in any part. *)
Definition emailShape (s : string) : Prop :=
  ∃ local domain tail,
    s = local +:+ "@" +:+ domain +:+ "." +:+ tail ∧
    word local ∧ word domain ∧ word tail.

End RegExp.


(** ** DOM elements *)

Module Dom.

Record Element := {
  attrs : gmap string string;
  style : gmap string string;
  classList : list string;
  textContent : string
}.

(** An element as [document.createElement] returns it. *)
Definition createElement : Element :=
  {| attrs := ∅; style := ∅; classList := []; textContent := "" |}.

Definition getAttribute (name : string) (e : Element) : option string :=
  attrs e !! name.

Definition hasAttribute (name : string) (e : Element) : bool :=
  bool_decide (is_Some (attrs e !! name)).

Definition setAttribute (name value : string) (e : Element) : Element :=
  {| attrs := <[name := value]> (attrs e); style := style e;
     classList := classList e; textContent := textContent e |}.

Definition removeAttribute (name : string) (e : Element) : Element :=
  {| attrs := delete name (attrs e); style := style e;
     classList := classList e; textContent := textContent e |}.

(** [e.style.prop = value] *)
Definition setStyle (prop value : string) (e : Element) : Element :=
  {| attrs := attrs e; style := <[prop := value]> (style e);
     classList := classList e; textContent := textContent e |}.

Definition getStyle (prop : string) (e : Element) : option string :=
  style e !! prop.

Definition setTextContent (text : string) (e : Element) : Element :=
  {| attrs := attrs e; style := style e;
     classList := classList e; textContent := text |}.

(** [e.className = 'a b'], given as the list of its tokens. *)
Definition setClassName (tokens : list string) (e : Element) : Element :=
  {| attrs := attrs e; style := style e;
     classList := tokens; textContent := textContent e |}.

Definition contains (token : string) (e : Element) : bool :=
  bool_decide (token ∈ classList e).

Definition add (token : string) (e : Element) : Element :=
  if contains token e then e else setClassName (classList e ++ [token]) e.

Definition remove (token : string) (e : Element) : Element :=
  setClassName (filter (λ t, t ≠ token) (classList e)) e.

(** [e.classList.toggle(token, force)] *)
Definition toggle (token : string) (force : bool) (e : Element) : Element :=
  if force then add token e else remove token e.

End Dom.

(** ** Form pipeline (FormsModule)

  A form is named by its position in [app.elements.forms]: two forms
  may carry the same [id], and the guard against double submission is
  keyed by the [id]. *)

Module Forms.
Import Dom.

Record Config := {
  validateOnInput : bool;
  validateOnBlur : bool;
  showSuccessMessages : bool;
  autoHideMessages : bool;
  messageTimeout : nat
}.

Definition defaultConfig : Config :=
  {| validateOnInput := true; validateOnBlur := true;
     showSuccessMessages := true; autoHideMessages := true;
     messageTimeout := 5000 |}.

(** A rule's message is a string or a function of the rule parameter. *)
Inductive Message :=
| Fixed (text : string)
| ByParam (f : option string → string).

(** The two shapes of registry entries: [{pattern, message}] and
    [{validate, message}].  [validate] gives the truthiness of what the
    JavaScript arrow function returns. *)
Inductive ValidationRule :=
| PatternRule (pattern : RegExp.regex) (message : string)
| ValidateRule (validate : string → option string → bool) (message : Message).

Inductive Tag := INPUT | TEXTAREA | SELECT | BUTTON.

(** A form control.  [parentNode] names the control's parent; the
    [.field-error] element that [parentNode.querySelector] finds is kept
    per parent in the form, so that sibling controls share it. *)
Record Control := {
  tag : Tag;
  el : Element;
  value : string;
  defaultValue : string;
  disabled : bool;
  parentNode : nat
}.

Definition withEl (f : Element → Element) (c : Control) : Control :=
  {| tag := tag c; el := f (el c); value := value c;
     defaultValue := defaultValue c; disabled := disabled c;
     parentNode := parentNode c |}.

Definition setDisabled (b : bool) (c : Control) : Control :=
  {| tag := tag c; el := el c; value := value c;
     defaultValue := defaultValue c; disabled := b;
     parentNode := parentNode c |}.

Definition setValue (v : string) (c : Control) : Control :=
  {| tag := tag c; el := el c; value := v;
     defaultValue := defaultValue c; disabled := disabled c;
     parentNode := parentNode c |}.

(** A [<form>]: its [id], its controls (the descendants matching
    [input, textarea, select, button], in document order), the
    [.field-error] element of each parent node, its [.form-message]
    element, and whether it has a [.modal] ancestor. *)
Record Form := {
  id : string;
  controls : list Control;
  fieldErrors : gmap nat Element;
  formMessage : option Element;
  inModal : bool
}.

Definition withControls (cs : list Control) (f : Form) : Form :=
  {| id := id f; controls := cs; fieldErrors := fieldErrors f;
     formMessage := formMessage f; inModal := inModal f |}.

Definition withFieldErrors (errs : gmap nat Element) (f : Form) : Form :=
  {| id := id f; controls := controls f; fieldErrors := errs;
     formMessage := formMessage f; inModal := inModal f |}.

Definition withFormMessage (m : option Element) (f : Form) : Form :=
  {| id := id f; controls := controls f; fieldErrors := fieldErrors f;
     formMessage := m; inModal := inModal f |}.

(** A stand-in for the entries of [new FormData(form)] to run examples
    with: the named controls that are neither buttons nor disabled. *)
Definition namedValues (form : Form) : list (string * string) :=
  omap (λ c,
    match tag c, disabled c, getAttribute "name" (el c) with
    | BUTTON, _, _ => None
    | _, true, _ => None
    | _, false, Some name => Some (name, value c)
    | _, false, None => None
    end) (controls form).

Section Pipeline.

(** [ToNumber] on a string, which the comparisons of [minLength] and
    [maxLength] apply to the rule parameter, and the entries that
    [new FormData(form)] yields: both belong to the host. *)
Variable StringToNumber : string → JS.Number.
Variable FormData : Form → list (string * string).

Definition ToNumber (x : option string) : JS.Number :=
  match x with Some s => StringToNumber s | None => JS.NaN end.

(** [setupValidationRules] *)
Definition setupValidationRules : gmap string ValidationRule :=
  <["maxLength" := ValidateRule
      (λ value maxLength,
         negb (JS.truthy value) || JS.length_le (String.length value) (ToNumber maxLength))
      (ByParam (λ maxLength, "Maximum " +:+ JS.template maxLength +:+ " characters allowed"))]>
  (<["minLength" := ValidateRule
      (λ value minLength,
         JS.truthy value && JS.length_ge (String.length value) (ToNumber minLength))
      (ByParam (λ minLength, "Minimum " +:+ JS.template minLength +:+ " characters required"))]>
  (<["required" := ValidateRule
      (λ value _, JS.truthy value && (0 <? String.length (JS.trim value))%nat)
      (Fixed "This field is required")]>
  (<["phone" := PatternRule RegExp.phoneRegex "Please enter a valid phone number"]>
  (<["email" := PatternRule RegExp.emailRegex "Please enter a valid email address"]>
   ∅)))).

(** [const [ruleName, ruleParam] = rule.split(':')] *)
Definition ruleName (rule : string) : string :=
  match JS.split ":" rule with name :: _ => name | [] => "" end.

Definition ruleParam (rule : string) : option string :=
  match JS.split ":" rule with _ :: param :: _ => Some param | _ => None end.

(** One iteration of the loop of [validateField]: [None] when the rule
    is unknown or passes, [Some errorMessage] when it fails. *)
Definition checkRule (rules : gmap string ValidationRule) (value rule : string)
  : option string :=
  match rules !! JS.trim (ruleName rule) with
  | None => None
  | Some (PatternRule pattern message) =>
      if RegExp.test pattern value then None else Some message
  | Some (ValidateRule validate message) =>
      if validate value (ruleParam rule) then None
      else Some match message with
                | ByParam f => f (ruleParam rule)
                | Fixed text => text
                end
  end.

(** The loop itself: the message of the first failing rule. *)
Fixpoint firstFailure (rules : gmap string ValidationRule) (value : string)
  (declared : list string) : option string :=
  match declared with
  | [] => None
  | rule :: rest =>
      match checkRule rules value rule with
      | Some errorMessage => Some errorMessage
      | None => firstFailure rules value rest
      end
  end.

(** [showFieldError(input, message)] on the input and the error elements
    of the form. *)
Definition showFieldError (message : string) (d : Control * gmap nat Element)
  : Control * gmap nat Element :=
  let '(input, errs) := d in
  let found :=
    match errs !! parentNode input with
    | Some e => e
    | None => setClassName ["field-error"] createElement
    end in
  let errorElement := setStyle "display" "block" (setTextContent message found) in
  (withEl (λ e,
     setAttribute "aria-describedby"
       (JS.or_else (getAttribute "id" errorElement) "field-error")
       (setAttribute "aria-invalid" "true" (add "error" e))) input,
   <[parentNode input := errorElement]> errs).

(** [clearFieldError(input)] *)
Definition clearFieldError (d : Control * gmap nat Element)
  : Control * gmap nat Element :=
  let '(input, errs) := d in
  (withEl (λ e,
     removeAttribute "aria-describedby"
       (setAttribute "aria-invalid" "false" (remove "error" e))) input,
   match errs !! parentNode input with
   | Some errorElement =>
       <[parentNode input := setStyle "display" "none" errorElement]> errs
   | None => errs
   end).

(** [validateField(input)] *)
Definition validateField (rules : gmap string ValidationRule)
  (d : Control * gmap nat Element) : bool * (Control * gmap nat Element) :=
  match getAttribute "data-validate" (el d.1) with
  | None => (true, d)
  | Some validateAttr =>
      if negb (JS.truthy validateAttr) then (true, d)
      else match firstFailure rules (value d.1) (JS.split "," validateAttr) with
           | Some errorMessage => (false, showFieldError errorMessage d)
           | None => (true, clearFieldError d)
           end
  end.

Definition isButton (c : Control) : bool :=
  match tag c with BUTTON => true | _ => false end.

(** The [forEach] of [validateForm] over [input, textarea, select]. *)
Fixpoint validateInputs (rules : gmap string ValidationRule)
  (inputs : list Control) (errs : gmap nat Element)
  : bool * (list Control * gmap nat Element) :=
  match inputs with
  | [] => (true, ([], errs))
  | input :: rest =>
      let '(fieldValid, (input', errs')) :=
        if isButton input then (true, (input, errs))
        else validateField rules (input, errs) in
      let '(isValid, (rest', errs'')) := validateInputs rules rest errs' in
      (fieldValid && isValid, (input' :: rest', errs''))
  end.

(** [validateForm(form)] *)
Definition validateForm (rules : gmap string ValidationRule) (form : Form)
  : bool * Form :=
  let '(isValid, (cs, errs)) :=
    validateInputs rules (controls form) (fieldErrors form) in
  (isValid, withFieldErrors errs (withControls cs form)).

(** [button[type="submit"]]: in an HTML document the selector compares
    the value of [type] without regard to ASCII case, and does not match
    a button that has no [type] attribute. *)
Definition isSubmitButton (c : Control) : bool :=
  isButton c &&
  bool_decide (JS.asciiLower <$> getAttribute "type" (el c) = Some "submit").

Fixpoint findIndex {A} (p : A → bool) (l : list A) : option nat :=
  match l with
  | [] => None
  | x :: l' => if p x then Some 0%nat else S <$> findIndex p l'
  end.

(** [setFormSubmitting(form, isSubmitting)] *)
Definition setFormSubmitting (isSubmitting : bool) (form : Form) : Form :=
  let submitButton := findIndex isSubmitButton (controls form) in
  withControls
    (imap (λ i c,
       if bool_decide (submitButton = Some i) then
         let c' := setDisabled isSubmitting c in
         if isSubmitting then
           withEl (λ e, add "submitting" (setTextContent "Submitting..." e)) c'
         else
           withEl (λ e,
             remove "submitting"
               (setTextContent
                  (JS.or_else (getAttribute "data-original-text" e) "Submit") e)) c'
       else setDisabled isSubmitting c)
     (controls form))
    form.

(** [showFormMessage(form, message, type)], without its timer. *)
Definition showFormMessage (message type : string) (form : Form) : Form :=
  let found :=
    match formMessage form with
    | Some e => e
    | None => setClassName ["form-message"] createElement
    end in
  withFormMessage
    (Some (setStyle "display" "block"
             (setClassName ["form-message"; type] (setTextContent message found))))
    form.

(** [form.reset()] followed by the clearing of errors in
    [handleFormSuccess]: every [.field-error] is hidden and every element
    of the form loses the class [error]. *)
Definition resetForm (form : Form) : Form :=
  withFormMessage (remove "error" <$> formMessage form)
    (withFieldErrors
       ((λ e, remove "error" (setStyle "display" "none" e)) <$> fieldErrors form)
       (withControls
          (map (λ c,
             withEl (remove "error")
               (if isButton c then c else setValue (defaultValue c) c))
             (controls form))
          form)).

Inductive Strategy := Newsletter | Consultation | Community | Generic.

(** The [switch (formId)] of [handleFormSubmit]. *)
Definition strategyOf (formId : string) : Strategy :=
  if String.eqb formId "newsletter-form" then Newsletter
  else if String.eqb formId "consultation-form" then Consultation
  else if String.eqb formId "community-form" then Community
  else Generic.

Record Result := { success : bool; message : string }.

(** What each submit function resolves with, once its delay elapsed. *)
Definition submitResult (s : Strategy) : Result :=
  match s with
  | Newsletter =>
      {| success := true; message := "Thank you for subscribing to our newsletter!" |}
  | Consultation =>
      {| success := true;
         message := "Your consultation request has been submitted. We'll contact you soon!" |}
  | Community =>
      {| success := true;
         message := "Welcome to our community! Check your email for next steps." |}
  | Generic => {| success := true; message := "Form submitted successfully!" |}
  end.

(** A rejection reason: an object whose [message] may be missing. *)
Record Error := { errorMessage : option string }.

Inductive Outcome := Resolved (result : Result) | Rejected (error : Error).

Inductive Timer :=
| HideMessage (form : nat)
| CloseModal.

Record Call := {
  callStrategy : Strategy;
  callFormId : string;
  callData : list (string * string)
}.

(** The module with the page's forms ([app.elements.forms], a form being
    named by its position), the calls made to the submit functions, the
    forms whose submission is awaited, the pending timers and the custom
    events dispatched on the document. *)
Record World := {
  config : Config;
  validationRules : gmap string ValidationRule;
  submittingForms : gset string;
  forms : list Form;
  calls : list Call;
  awaiting : list nat;
  timers : list Timer;
  dispatched : list (string * nat)
}.

(** How many calls to a submit function were made for a form identifier. *)
Definition callsFor (formId : string) (w : World) : nat :=
  length (filter (λ c, callFormId c = formId) (calls w)).

Definition withForm (i : nat) (form : Form) (timer : list Timer) (w : World) : World :=
  {| config := config w; validationRules := validationRules w;
     submittingForms := submittingForms w;
     forms := <[i := form]> (forms w);
     calls := calls w; awaiting := awaiting w;
     timers := timers w ++ timer; dispatched := dispatched w |}.

Definition autoHide (i : nat) (w : World) : list Timer :=
  if autoHideMessages (config w) then [HideMessage i] else [].

(** [handleFormSubmit(event)] up to its [await], for the form at
    position [i]. *)
Definition handleFormSubmit (i : nat) (w : World) : World :=
  match forms w !! i with
  | None => w
  | Some form =>
      let formId := id form in
      if bool_decide (formId ∈ submittingForms w) then w
      else
        let '(isValid, form1) := validateForm (validationRules w) form in
        if negb isValid then
          withForm i (showFormMessage "Please correct the errors below" "error" form1)
            (autoHide i w) w
        else
          let form2 := setFormSubmitting true form1 in
          {| config := config w; validationRules := validationRules w;
             submittingForms := {[formId]} ∪ submittingForms w;
             forms := <[i := form2]> (forms w);
             calls := calls w ++
               [{| callStrategy := strategyOf formId; callFormId := formId;
                   callData := FormData form2 |}];
             awaiting := awaiting w ++ [i];
             timers := timers w; dispatched := dispatched w |}
  end.

(** [handleFormSuccess(form, result)] *)
Definition handleFormSuccess (i : nat) (result : Result) (form : Form) (w : World)
  : World :=
  let shown :=
    if showSuccessMessages (config w)
    then showFormMessage (message result) "success" form else form in
  let w1 :=
    withForm i (resetForm shown)
      ((if showSuccessMessages (config w) then autoHide i w else []) ++
       (if inModal form then [CloseModal] else [])) w in
  {| config := config w1; validationRules := validationRules w1;
     submittingForms := submittingForms w1; forms := forms w1;
     calls := calls w1; awaiting := awaiting w1; timers := timers w1;
     dispatched := dispatched w1 ++ [("formSuccess", i)] |}.

(** [handleFormError(form, error)] *)
Definition handleFormError (i : nat) (error : Error) (form : Form) (w : World)
  : World :=
  let message := JS.or_else (errorMessage error) "An error occurred. Please try again." in
  let w1 := withForm i (showFormMessage message "error" form) (autoHide i w) w in
  {| config := config w1; validationRules := validationRules w1;
     submittingForms := submittingForms w1; forms := forms w1;
     calls := calls w1; awaiting := awaiting w1; timers := timers w1;
     dispatched := dispatched w1 ++ [("formError", i)] |}.

(** The rest of [handleFormSubmit] for the form at position [i], once
    the awaited promise settled: the [try] continues or the [catch]
    runs, then the [finally]. *)
Definition settle (i : nat) (o : Outcome) (w : World) : World :=
  if negb (bool_decide (i ∈ awaiting w)) then w
  else
    match forms w !! i with
    | None => w
    | Some form =>
        let w1 :=
          match o with
          | Resolved result => handleFormSuccess i result form w
          | Rejected error => handleFormError i error form w
          end in
        {| config := config w1; validationRules := validationRules w1;
           submittingForms := submittingForms w1 ∖ {[id form]};
           forms := alter (setFormSubmitting false) i (forms w1);
           calls := calls w1;
           awaiting := filter (λ j, j ≠ i) (awaiting w1);
           timers := timers w1; dispatched := dispatched w1 |}
    end.

(** The submit functions of the module resolve after their delay. *)
Definition delayElapsed (i : nat) (w : World) : World :=
  match forms w !! i with
  | None => w
  | Some form => settle i (Resolved (submitResult (strategyOf (id form)))) w
  end.

(** A [HideMessage] timer fires. *)
Definition hideMessage (i : nat) (w : World) : World :=
  match forms w !! i with
  | None => w
  | Some form =>
      withForm i (withFormMessage (setStyle "display" "none" <$> formMessage form) form)
        [] w
  end.

(** The module right after its constructor. *)
Definition init (page : list Form) : World :=
  {| config := defaultConfig; validationRules := setupValidationRules;
     submittingForms := ∅; forms := page; calls := []; awaiting := [];
     timers := []; dispatched := [] |}.

(** The verdict of [validateField] on a control. *)
Definition fieldValid (rules : gmap string ValidationRule) (c : Control) : bool :=
  (validateField rules (c, ∅)).1.

(** [handleBlurValidation(event)] when control [k] of form [i] loses the
    focus. *)
Definition handleBlurValidation (i k : nat) (w : World) : World :=
  if negb (validateOnBlur (config w)) then w
  else
    match forms w !! i with
    | None => w
    | Some form =>
        match controls form !! k with
        | None => w
        | Some input =>
            if hasAttribute "data-validate" (el input) then
              let '(_, (input', errs')) :=
                validateField (validationRules w) (input, fieldErrors form) in
              withForm i
                (withFieldErrors errs'
                   (withControls (<[k := input']> (controls form)) form))
                [] w
            else w
        end
    end.

(** The user types [text] into control [k] of form [i]. *)
Definition typed (i k : nat) (text : string) (w : World) : World :=
  match forms w !! i with
  | None => w
  | Some form =>
      withForm i (withControls (alter (setValue text) k (controls form)) form) [] w
  end.

(** What can happen to the module. *)
Inductive Event :=
| Submit (i : nat)
| Settled (i : nat) (o : Outcome)
| DelayElapsed (i : nat)
| MessageTimer (i : nat)
| Blur (i k : nat)
| Typed (i k : nat) (text : string).

Definition step (ev : Event) (w : World) : World :=
  match ev with
  | Submit i => handleFormSubmit i w
  | Settled i o => settle i o w
  | DelayElapsed i => delayElapsed i w
  | MessageTimer i => hideMessage i w
  | Blur i k => handleBlurValidation i k w
  | Typed i k text => typed i k text w
  end.

Definition run (evs : list Event) (w : World) : World :=
  foldl (λ w ev, step ev w) w evs.

Inductive reachable : World → Prop :=
| reachable_init page : reachable (init page)
| reachable_step ev w : reachable w → reachable (step ev w).

(** The [id] of each form of the page. *)
Definition formIds (w : World) : list string := id <$> forms w.

(** The bookkeeping of submissions: the awaited forms are distinct and
    carry distinct identifiers, the set holds exactly their identifiers,
    and each call made is still awaited or was answered by one
    [formSuccess] or [formError] event. *)
Definition accounted (w : World) : Prop :=
  NoDup (awaiting w) ∧
  (∀ i, i ∈ awaiting w → ∃ F, formIds w !! i = Some F ∧ F ∈ submittingForms w) ∧
  (∀ F, F ∈ submittingForms w → ∃ i, i ∈ awaiting w ∧ formIds w !! i = Some F) ∧
  (∀ i j F, i ∈ awaiting w → j ∈ awaiting w →
     formIds w !! i = Some F → formIds w !! j = Some F → i = j) ∧
  length (calls w) = (length (dispatched w) + length (awaiting w))%nat.

(** What one event does to the bookkeeping: nothing; or it starts a
    submission; or it ends one. *)
Definition quiet (w w' : World) : Prop :=
  awaiting w' = awaiting w ∧ submittingForms w' = submittingForms w ∧
  calls w' = calls w ∧ dispatched w' = dispatched w ∧ formIds w' = formIds w.

Definition starts (w w' : World) : Prop :=
  ∃ i form sent,
    forms w !! i = Some form ∧ (id form ∉ submittingForms w) ∧
    (∀ c, c ∈ controls sent → disabled c = true) ∧
    awaiting w' = awaiting w ++ [i] ∧
    submittingForms w' = {[id form]} ∪ submittingForms w ∧
    calls w' = calls w ++
      [{| callStrategy := strategyOf (id form); callFormId := id form;
          callData := FormData sent |}] ∧
    dispatched w' = dispatched w ∧ formIds w' = formIds w.

Definition ends (w w' : World) : Prop :=
  ∃ i form event,
    forms w !! i = Some form ∧ i ∈ awaiting w ∧
    awaiting w' = filter (λ j, j ≠ i) (awaiting w) ∧
    submittingForms w' = submittingForms w ∖ {[id form]} ∧
    calls w' = calls w ∧
    dispatched w' = dispatched w ++ [event] ∧ formIds w' = formIds w.

End Pipeline.

End Forms.

(** ** Modal manager (ModalsModule)

  The page is the set of its dialog elements, found by their [id].
  [node.focus()] makes the node the active element: the nodes the
  module focuses are the modal, which [setupAccessibility] gave a
  [tabindex], one of its focusable elements, and a node that held the
  focus before.  Nothing listens to the [modalOpened] and [modalClosed]
  events, so dispatching them calls back into no method. *)

Module Modals.
Import Dom.

Record Config := {
  animationDuration : nat;
  escapeKeyEnabled : bool;
  focusTrap : bool
}.

Definition defaultConfig : Config :=
  {| animationDuration := 300; escapeKeyEnabled := true; focusTrap := true |}.

(** The nodes that can hold the focus: a modal itself, the [k]-th
    focusable descendant of a modal, or a node of the rest of the page. *)
Inductive Node :=
| ModalNode (id : string)
| Inside (id : string) (k : nat)
| Outside (k : nat).

#[global] Instance Node_eq_dec : EqDecision Node.
Proof. solve_decision. Defined.

(** A dialog element: whether it has a [.modal-backdrop] child, how many
    focusable descendants it has, and whether a focus-trap handler
    listens on it. *)
Record Modal := {
  el : Element;
  hasBackdrop : bool;
  focusable : nat;
  focusTrapHandler : bool
}.

Definition withEl (f : Element → Element) (m : Modal) : Modal :=
  {| el := f (el m); hasBackdrop := hasBackdrop m; focusable := focusable m;
     focusTrapHandler := focusTrapHandler m |}.

(** The [async] call that waits for an animation: [close] inside
    [animateOut] (with the [open] that awaits it, if any), or [open]
    inside [animateIn], before and after the animation frame. *)
Inductive Suspended :=
| Closing (modal : string) (thenOpen : option string)
| OpeningFrame (modalId : string)
| Opening (modalId : string).

(** The state of the module and what it touches on the document.
    [bodyOverflow] is [document.body.style.overflow]: a property of the
    page, which the mobile menu writes as well; the field tells what the
    property is as far as this module's steps go, and [Page] below runs
    both modules on the one property. *)
Record World := {
  config : Config;
  modals : gmap string Modal;
  activeModal : option string;
  previousFocus : option Node;
  isAnimating : bool;
  activeElement : option Node;
  bodyOverflow : string;
  suspended : option Suspended;
  focusTimers : list Node;
  dispatched : list (string * string)
}.

Definition withModal (id : string) (f : Element → Element) (w : World) : World :=
  {| config := config w; modals := alter (withEl f) id (modals w);
     activeModal := activeModal w; previousFocus := previousFocus w;
     isAnimating := isAnimating w; activeElement := activeElement w;
     bodyOverflow := bodyOverflow w; suspended := suspended w;
     focusTimers := focusTimers w; dispatched := dispatched w |}.

(** [node.focus()]: the node becomes [document.activeElement]. *)
Definition focus (n : Node) (w : World) : World :=
  {| config := config w; modals := modals w;
     activeModal := activeModal w; previousFocus := previousFocus w;
     isAnimating := isAnimating w; activeElement := Some n;
     bodyOverflow := bodyOverflow w; suspended := suspended w;
     focusTimers := focusTimers w; dispatched := dispatched w |}.

(** [setupAccessibility] on one modal. *)
Definition setupAccessibility (e : Element) : Element :=
  setAttribute "tabindex" "-1"
    (setAttribute "aria-hidden" "true"
       (setAttribute "aria-modal" "true" (setAttribute "role" "dialog" e))).

(** The module right after its constructor, on a page whose modals are
    [page] and where [focused] holds the focus. *)
Definition init (page : gmap string Modal) (focused : option Node) : World :=
  {| config := defaultConfig; modals := withEl setupAccessibility <$> page;
     activeModal := None; previousFocus := None; isAnimating := false;
     activeElement := focused; bodyOverflow := ""; suspended := None;
     focusTimers := []; dispatched := [] |}.

(** [open(modalId)] from [this.state.isAnimating = true] on, up to the
    [requestAnimationFrame] of [animateIn]: the state is taken, then
    [prepareModal] runs. *)
Definition openModal (modalId : string) (w : World) : World :=
  {| config := config w;
     modals :=
       alter (λ m,
         {| el := setStyle "transform" "scale(0.9)"
                    (setStyle "opacity" "0" (setStyle "display" "flex" (el m)));
            hasBackdrop := true; focusable := focusable m;
            focusTrapHandler := focusTrapHandler m |}) modalId (modals w);
     activeModal := Some modalId;
     previousFocus := activeElement w;
     isAnimating := true;
     activeElement := activeElement w;
     bodyOverflow := "hidden";
     suspended := Some (OpeningFrame modalId);
     focusTimers := focusTimers w; dispatched := dispatched w |}.

(** What follows an [await this.close()]: nothing for a plain [close],
    the rest of [open] otherwise. *)
Definition continue (thenOpen : option string) (w : World) : World :=
  match thenOpen with
  | None => w
  | Some modalId => openModal modalId w
  end.

(** The [transition] style both animations set. *)
Definition transition (w : World) : string :=
  let ms := pretty (animationDuration (config w)) +:+ "ms ease" in
  "opacity " +:+ ms +:+ ", transform " +:+ ms.

(** [close()] up to the timer of [animateOut]; [thenOpen] is the [open]
    that awaits this call. *)
Definition closeThen (thenOpen : option string) (w : World) : World :=
  match activeModal w with
  | None => continue thenOpen w
  | Some modal =>
      if isAnimating w then continue thenOpen w
      else
        {| config := config w;
           modals :=
             alter (withEl (λ e,
               setStyle "transform" "scale(0.9)"
                 (setStyle "opacity" "0" (setStyle "transition" (transition w) e))))
               modal (modals w);
           activeModal := activeModal w; previousFocus := previousFocus w;
           isAnimating := true; activeElement := activeElement w;
           bodyOverflow := bodyOverflow w;
           suspended := Some (Closing modal thenOpen);
           focusTimers := focusTimers w; dispatched := dispatched w |}
  end.

(** [close()] *)
Definition close (w : World) : World := closeThen None w.

(** [open(modalId)] *)
Definition open (modalId : string) (w : World) : World :=
  if isAnimating w then w
  else
    match modals w !! modalId with
    | None => w
    | Some _ =>
        match activeModal w with
        | Some _ => closeThen (Some modalId) w
        | None => openModal modalId w
        end
    end.

(** The timer of [animateOut] fires and [close] runs to its end:
    [display] is reset, then [cleanupModal], the focus is given back and
    the state cleared. *)
Definition finishClose (modal : string) (w : World) : World :=
  {| config := config w;
     modals :=
       alter (withEl (λ e,
         setAttribute "aria-hidden" "true"
           (setStyle "transform" ""
              (setStyle "transition" "" (setStyle "display" "none" e)))))
         modal (modals w);
     activeModal := None;
     previousFocus := None;
     isAnimating := false;
     activeElement :=
       match previousFocus w with
       | Some node => Some node
       | None => activeElement w
       end;
     bodyOverflow := "";
     suspended := None;
     focusTimers := focusTimers w;
     dispatched := dispatched w ++ [("modalClosed", modal)] |}.

(** The animation frame of [animateIn]. *)
Definition animationFrame (modalId : string) (w : World) : World :=
  {| config := config w;
     modals :=
       alter (withEl (λ e,
         setStyle "transform" "scale(1)"
           (setStyle "opacity" "1" (setStyle "transition" (transition w) e))))
         modalId (modals w);
     activeModal := activeModal w; previousFocus := previousFocus w;
     isAnimating := isAnimating w; activeElement := activeElement w;
     bodyOverflow := bodyOverflow w;
     suspended := Some (Opening modalId);
     focusTimers := focusTimers w; dispatched := dispatched w |}.

(** [setupFocusTrap(modal)]: the timer that will focus the first
    focusable element, and the Tab handler. *)
Definition setupFocusTrap (modalId : string) (w : World) : World :=
  if negb (focusTrap (config w)) then w
  else
    match modals w !! modalId with
    | None => w
    | Some m =>
        if (focusable m =? 0)%nat then w
        else
          {| config := config w;
             modals :=
               <[modalId :=
                   {| el := el m; hasBackdrop := hasBackdrop m;
                      focusable := focusable m; focusTrapHandler := true |}]>
                 (modals w);
             activeModal := activeModal w; previousFocus := previousFocus w;
             isAnimating := isAnimating w; activeElement := activeElement w;
             bodyOverflow := bodyOverflow w; suspended := suspended w;
             focusTimers := focusTimers w ++ [Inside modalId 0];
             dispatched := dispatched w |}
    end.

(** The timer of [animateIn] fires and [open] runs to its end. *)
Definition finishOpen (modalId : string) (w : World) : World :=
  let w1 := setupFocusTrap modalId w in
  let w2 := focus (ModalNode modalId) (withModal modalId (setAttribute "aria-hidden" "false") w1) in
  {| config := config w2; modals := modals w2;
     activeModal := activeModal w2; previousFocus := previousFocus w2;
     isAnimating := false; activeElement := activeElement w2;
     bodyOverflow := bodyOverflow w2; suspended := None;
     focusTimers := focusTimers w2;
     dispatched := dispatched w2 ++ [("modalOpened", modalId)] |}.

(** The callback the suspended call waits for runs, with the
    continuations it releases. *)
Definition resume (w : World) : World :=
  match suspended w with
  | None => w
  | Some (Closing modal thenOpen) => continue thenOpen (finishClose modal w)
  | Some (OpeningFrame modalId) => animationFrame modalId w
  | Some (Opening modalId) => finishOpen modalId w
  end.

(** [handleKeydown(e)] of the document. *)
Definition handleKeydown (key : string) (w : World) : World :=
  match activeModal w with
  | None => w
  | Some _ =>
      if String.eqb key "Escape" && escapeKeyEnabled (config w) then close w else w
  end.

(** [handleBackdropClick(e)], given the class list of the click target. *)
Definition handleBackdropClick (target : list string) (w : World) : World :=
  match activeModal w with
  | None => w
  | Some _ =>
      if bool_decide ("modal" ∈ target) || bool_decide ("modal-backdrop" ∈ target)
      then close w else w
  end.

(** The Tab handler installed by [setupFocusTrap] on a modal. *)
Definition handleTabKey (modalId : string) (shiftKey : bool) (w : World) : World :=
  match modals w !! modalId with
  | None => w
  | Some m =>
      if negb (focusTrapHandler m) then w
      else
        let firstElement := Inside modalId 0 in
        let lastElement := Inside modalId (focusable m - 1) in
        if shiftKey then
          if bool_decide (activeElement w = Some firstElement)
          then focus lastElement w else w
        else
          if bool_decide (activeElement w = Some lastElement)
          then focus firstElement w else w
  end.

(** The oldest [setTimeout(() => firstElement.focus(), 100)] fires. *)
Definition focusTimer (w : World) : World :=
  match focusTimers w with
  | [] => w
  | node :: rest =>
      {| config := config w; modals := modals w;
         activeModal := activeModal w; previousFocus := previousFocus w;
         isAnimating := isAnimating w; activeElement := Some node;
         bodyOverflow := bodyOverflow w; suspended := suspended w;
         focusTimers := rest; dispatched := dispatched w |}
  end.

(** The user moves the focus (click, Tab) or drops it. *)
Definition userFocus (target : option Node) (w : World) : World :=
  {| config := config w; modals := modals w;
     activeModal := activeModal w; previousFocus := previousFocus w;
     isAnimating := isAnimating w; activeElement := target;
     bodyOverflow := bodyOverflow w; suspended := suspended w;
     focusTimers := focusTimers w; dispatched := dispatched w |}.

(** [setConfig], [enableEscapeKey], [disableFocusTrap] and the like. *)
Definition setConfig (c : Config) (w : World) : World :=
  {| config := c; modals := modals w;
     activeModal := activeModal w; previousFocus := previousFocus w;
     isAnimating := isAnimating w; activeElement := activeElement w;
     bodyOverflow := bodyOverflow w; suspended := suspended w;
     focusTimers := focusTimers w; dispatched := dispatched w |}.

(** What can happen to the module. *)
Inductive Event :=
| Open (modalId : string)
| Close
| Resume
| Keydown (key : string)
| Click (target : list string)
| TabKey (modalId : string) (shiftKey : bool)
| FocusTimer
| UserFocus (target : option Node)
| SetConfig (c : Config).

Definition step (ev : Event) (w : World) : World :=
  match ev with
  | Open modalId => open modalId w
  | Close => close w
  | Resume => resume w
  | Keydown key => handleKeydown key w
  | Click target => handleBackdropClick target w
  | TabKey modalId shiftKey => handleTabKey modalId shiftKey w
  | FocusTimer => focusTimer w
  | UserFocus target => userFocus target w
  | SetConfig c => setConfig c w
  end.

(** [run evs w]: the events of [evs] happen in order. *)
Definition run (evs : list Event) (w : World) : World :=
  foldl (λ w ev, step ev w) w evs.

Inductive reachable : World → Prop :=
| reachable_init page focused : reachable (init page focused)
| reachable_step ev w : reachable w → reachable (step ev w).


(** The [aria-hidden] attribute and the inline [display] of a modal. *)
Definition ariaOf (page : gmap string Modal) (id : string) : option string :=
  page !! id ≫= λ m, getAttribute "aria-hidden" (el m).

Definition ariaHidden (id : string) (w : World) : option string :=
  ariaOf (modals w) id.

Definition display (id : string) (w : World) : option string :=
  modals w !! id ≫= λ m, getStyle "display" (el m).

(** What holds of the module between two events: a modal marked
    [aria-hidden="false"] is the active one; the active modal is on the
    page; the module animates exactly while a call is suspended, and the
    suspended call works on the active modal, which a suspended [open]
    has not marked yet. *)
Definition consistent (w : World) : Prop :=
  (∀ id, ariaHidden id w = Some "false" → activeModal w = Some id) ∧
  (∀ id, activeModal w = Some id → is_Some (modals w !! id)) ∧
  match suspended w with
  | None => isAnimating w = false
  | Some (Closing modal thenOpen) =>
      isAnimating w = true ∧ activeModal w = Some modal ∧
      ∀ id, thenOpen = Some id → is_Some (modals w !! id)
  | Some (OpeningFrame modalId) | Some (Opening modalId) =>
      isAnimating w = true ∧ activeModal w = Some modalId ∧
      ariaHidden modalId w ≠ Some "false"
  end.


End Modals.

(** ** Navigation controller (NavigationModule) *)

Module Navigation.
Import Dom.

Record Config := {
  scrollThreshold : Z;
  sectionOffset : Z
}.

(** [navbarScrollThreshold] and [sectionOffset] of the application. *)
Definition appConfig : Config :=
  {| scrollThreshold := 50; sectionOffset := 80 |}.

(** A [section[id]] element, in pixels. *)
Record Section := {
  offsetTop : Z;
  offsetHeight : Z;
  sectionId : string
}.

Record State := {
  isScrolled : bool;
  activeSection : string
}.

Record World := {
  config : Config;
  state : State;
  scrollY : Z;
  sections : list Section;
  navLinks : list Element;
  navbar : Element
}.

(** [setActiveNavLink(activeId)] on the list of links. *)
Definition markLinks (activeId : string) (links : list Element) : list Element :=
  map (λ link,
    let isActive := bool_decide (getAttribute "href" link = Some activeId) in
    setAttribute "aria-current" (if isActive then "page" else "false")
      (toggle "active" isActive link)) links.

Definition setActiveNavLink (activeId : string) (w : World) : World :=
  {| config := config w; state := state w; scrollY := scrollY w;
     sections := sections w; navLinks := markLinks activeId (navLinks w);
     navbar := navbar w |}.

(** The test of the loop body of [updateActiveSection]. *)
Definition inBand (scrollPos : Z) (section : Section) : bool :=
  (offsetTop section <=? scrollPos)%Z &&
  (scrollPos <? offsetTop section + offsetHeight section)%Z.

(** The [forEach] of [updateActiveSection]: every section whose band
    holds the probe overwrites the candidate. *)
Definition scan (scrollPos : Z) (sections : list Section) : string :=
  foldl (λ activeSection section,
    if inBand scrollPos section then sectionId section else activeSection)
    "home" sections.

Definition probe (w : World) : Z :=
  (scrollY w + sectionOffset (config w) + 50)%Z.

(** [updateActiveSection()] *)
Definition updateActiveSection (w : World) : World :=
  let activeSection' := scan (probe w) (sections w) in
  if bool_decide (activeSection' ≠ activeSection (state w)) then
    setActiveNavLink ("#" +:+ activeSection')
      {| config := config w;
         state := {| isScrolled := isScrolled (state w);
                     activeSection := activeSection' |};
         scrollY := scrollY w; sections := sections w;
         navLinks := navLinks w; navbar := navbar w |}
  else w.

(** [updateNavbarAppearance()] *)
Definition updateNavbarAppearance (w : World) : World :=
  {| config := config w; state := state w; scrollY := scrollY w;
     sections := sections w; navLinks := navLinks w;
     navbar :=
       if isScrolled (state w) then
         add "scrolled"
           (setStyle "boxShadow" "0 4px 20px rgba(0, 0, 0, 0.3)"
              (setStyle "background" "rgba(10, 22, 40, 0.95)" (navbar w)))
       else
         remove "scrolled"
           (setStyle "boxShadow" "none"
              (setStyle "background" "rgba(10, 22, 40, 0.8)" (navbar w))) |}.

(** [handleNavbarScroll()] *)
Definition handleNavbarScroll (w : World) : World :=
  let shouldBeScrolled := (scrollThreshold (config w) <? scrollY w)%Z in
  if bool_decide (shouldBeScrolled ≠ isScrolled (state w)) then
    updateNavbarAppearance
      {| config := config w;
         state := {| isScrolled := shouldBeScrolled;
                     activeSection := activeSection (state w) |};
         scrollY := scrollY w; sections := sections w;
         navLinks := navLinks w; navbar := navbar w |}
  else w.

(** A scroll event at position [y]: the listeners run in the order they
    were bound. *)
Definition onScroll (y : Z) (w : World) : World :=
  updateActiveSection
    (handleNavbarScroll
       {| config := config w; state := state w; scrollY := y;
          sections := sections w; navLinks := navLinks w; navbar := navbar w |}).

(** A link carries the active class and [aria-current="page"]. *)
Definition isMarked (link : Element) : bool :=
  contains "active" link &&
  bool_decide (getAttribute "aria-current" link = Some "page").

(** A link carries neither. *)
Definition isUnmarked (link : Element) : bool :=
  negb (contains "active" link) &&
  negb (bool_decide (getAttribute "aria-current" link = Some "page")).

Definition targets (id : string) (link : Element) : bool :=
  bool_decide (getAttribute "href" link = Some ("#" +:+ id)).

(** The links agree with the active section: a link has the active
    class, and [aria-current="page"], exactly when it points to it. *)
Definition linksAgree (w : World) : Prop :=
  ∀ link, link ∈ navLinks w →
    contains "active" link = targets (activeSection (state w)) link ∧
    bool_decide (getAttribute "aria-current" link = Some "page")
      = targets (activeSection (state w)) link.

(** How many links are marked, and how many point to a section. *)
Definition marked (links : list Element) : nat :=
  length (List.filter isMarked links).

Definition pointing (id : string) (links : list Element) : nat :=
  length (List.filter (targets id) links).

(** [scrollToSection(targetSection, targetId)]: the position the window
    is asked to scroll to, and the module with its links marked.  The
    call to [mobileMenu.close()] belongs to the mobile menu. *)
Definition scrollToSection (targetSection : Section) (targetId : string) (w : World)
  : Z * World :=
  ((offsetTop targetSection - sectionOffset (config w))%Z,
   setActiveNavLink targetId w).

(** [navigateTo(sectionId)], given what [document.querySelector] finds. *)
Definition navigateTo (found : option Section) (sectionId : string) (w : World)
  : option Z * World :=
  match found with
  | Some targetSection =>
      let '(top, w') := scrollToSection targetSection sectionId w in (Some top, w')
  | None => (None, w)
  end.

(** The module with the flag of the closure that [throttle] returns. *)
Record Spy := {
  world : World;
  inThrottle : bool
}.

(** [throttledScrollSpy()] *)
Definition throttledScrollSpy (s : Spy) : Spy :=
  if inThrottle s then s
  else {| world := updateActiveSection (world s); inThrottle := true |}.

(** The timer of [throttle] fires. *)
Definition throttleTimer (s : Spy) : Spy :=
  {| world := world s; inThrottle := false |}.

(** A scroll event at position [y] with all three listeners, in the
    order [init] binds them: [handleNavbarScroll], [updateActiveSection],
    then the throttled [updateActiveSection]. *)
Definition scrollEvent (y : Z) (s : Spy) : Spy :=
  throttledScrollSpy
    {| world := onScroll y (world s); inThrottle := inThrottle s |}.

End Navigation.

(** ** Mobile-menu controller (MobileMenuModule) *)

Module MobileMenu.
Import Dom.

Record Config := {
  breakpoint : Z;
  animationDuration : nat;
  overlayOpacity : string;
  swipeThreshold : Z
}.

(** [overlayOpacity] is 0.5, kept as it prints in the overlay's style. *)
Definition defaultConfig : Config :=
  {| breakpoint := 768; animationDuration := 300;
     overlayOpacity := "0.5"; swipeThreshold := 50 |}.

Record State := {
  isOpen : bool;
  isAnimating : bool;
  isMobile : bool;
  touchStartX : Z;
  touchStartY : Z
}.

(** The call that waits for an animation: [open] before and after the
    animation frame of [animateMenuIn] (the frame also fades a new
    overlay in), or [close] inside [animateMenuOut]. *)
Inductive Suspended :=
| OpeningFrame (newOverlay : bool)
| Opening
| Closing.

(** The page has its [#nav-menu] and [#hamburger] elements.  The overlay
    is the first [.mobile-menu-overlay] of the document, with a serial
    number that tells successive overlays apart.  [bodyOverflow] is
    [document.body.style.overflow]: a property of the page, which the
    modal manager writes as well; the field tells what the property is
    as far as this module's steps go, and [Page] below runs both modules
    on the one property. *)
Record World := {
  config : Config;
  state : State;
  appIsMobileMenuOpen : bool;
  innerWidth : Z;
  navMenu : Element;
  hasNavLink : bool;
  hamburger : Element;
  bodyOverflow : string;
  overlay : option (nat * Element);
  overlaysCreated : nat;
  suspended : option Suspended;
  removals : list nat;
  focusTimers : nat;
  dispatched : list (string * bool)
}.

Definition transition (w : World) : string :=
  let ms := pretty (animationDuration (config w)) +:+ "ms ease" in
  "transform " +:+ ms +:+ ", opacity " +:+ ms.

(** The style that [createOverlay] writes through [cssText]. *)
Definition overlayStyle (w : World) : gmap string string :=
  list_to_map
    [("position", "fixed"); ("top", "0"); ("left", "0");
     ("width", "100%"); ("height", "100%");
     ("background", "rgba(0, 0, 0, " +:+ overlayOpacity (config w) +:+ ")");
     ("z-index", "998"); ("opacity", "0");
     ("transition", "opacity " +:+ pretty (animationDuration (config w)) +:+ "ms ease")].

(** [open()] up to the animation frame. *)
Definition open (w : World) : World :=
  if isOpen (state w) || isAnimating (state w) || negb (isMobile (state w)) then w
  else
    let fresh := bool_decide (overlay w = None) in
    {| config := config w;
       state := {| isOpen := true; isAnimating := true;
                   isMobile := isMobile (state w);
                   touchStartX := touchStartX (state w);
                   touchStartY := touchStartY (state w) |};
       appIsMobileMenuOpen := true;
       innerWidth := innerWidth w;
       navMenu :=
         setStyle "opacity" "0"
           (setStyle "transform" "translateX(-100%)"
              (setStyle "display" "flex" (navMenu w)));
       hasNavLink := hasNavLink w;
       hamburger := add "active" (hamburger w);
       bodyOverflow := "hidden";
       overlay :=
         if fresh then
           Some (overlaysCreated w,
                 {| attrs := ∅; style := overlayStyle w;
                    classList := ["mobile-menu-overlay"]; textContent := "" |})
         else overlay w;
       overlaysCreated := if fresh then S (overlaysCreated w) else overlaysCreated w;
       suspended := Some (OpeningFrame fresh);
       removals := removals w; focusTimers := focusTimers w;
       dispatched := dispatched w |}.

(** [cleanupMenuClose()], [updateAccessibilityClosed()] and the end of
    [close]. *)
Definition finishClose (w : World) : World :=
  {| config := config w;
     state := {| isOpen := isOpen (state w); isAnimating := false;
                 isMobile := isMobile (state w);
                 touchStartX := touchStartX (state w);
                 touchStartY := touchStartY (state w) |};
     appIsMobileMenuOpen := appIsMobileMenuOpen w;
     innerWidth := innerWidth w;
     navMenu :=
       setAttribute "aria-hidden" "true"
         (setStyle "opacity" ""
            (setStyle "transform" "" (setStyle "transition" "" (navMenu w))));
     hasNavLink := hasNavLink w;
     hamburger :=
       setAttribute "aria-label" "Open navigation menu"
         (setAttribute "aria-expanded" "false" (remove "active" (hamburger w)));
     bodyOverflow := "";
     overlay := (λ o, (o.1, setStyle "opacity" "0" o.2)) <$> overlay w;
     overlaysCreated := overlaysCreated w;
     suspended := None;
     removals := removals w ++
       match overlay w with Some o => [o.1] | None => [] end;
     focusTimers := focusTimers w;
     dispatched := dispatched w ++ [("mobileMenuClosed", isOpen (state w))] |}.

(** [close(animate)] up to the timer of [animateMenuOut], or to its end
    when it does not animate. *)
Definition close (animate : bool) (w : World) : World :=
  if negb (isOpen (state w)) || isAnimating (state w) then w
  else
    let w1 :=
      {| config := config w;
         state := {| isOpen := false; isAnimating := true;
                     isMobile := isMobile (state w);
                     touchStartX := touchStartX (state w);
                     touchStartY := touchStartY (state w) |};
         appIsMobileMenuOpen := false;
         innerWidth := innerWidth w;
         navMenu :=
           if animate then
             setStyle "opacity" "0"
               (setStyle "transform" "translateX(-100%)"
                  (setStyle "transition" (transition w) (navMenu w)))
           else navMenu w;
         hasNavLink := hasNavLink w;
         hamburger := hamburger w;
         bodyOverflow := bodyOverflow w;
         overlay := overlay w;
         overlaysCreated := overlaysCreated w;
         suspended := if animate then Some Closing else None;
         removals := removals w; focusTimers := focusTimers w;
         dispatched := dispatched w |} in
    if animate then w1 else finishClose w1.

(** [toggle()] *)
Definition toggle (w : World) : World :=
  if isOpen (state w) then close true w else open w.

Definition withNavMenu (f : Element → Element) (w : World) : World :=
  {| config := config w; state := state w;
     appIsMobileMenuOpen := appIsMobileMenuOpen w; innerWidth := innerWidth w;
     navMenu := f (navMenu w); hasNavLink := hasNavLink w;
     hamburger := hamburger w; bodyOverflow := bodyOverflow w;
     overlay := overlay w; overlaysCreated := overlaysCreated w;
     suspended := suspended w; removals := removals w;
     focusTimers := focusTimers w; dispatched := dispatched w |}.

(** The end of [open], after the timer of [animateMenuIn]. *)
Definition finishOpen (w : World) : World :=
  {| config := config w;
     state := {| isOpen := isOpen (state w); isAnimating := false;
                 isMobile := isMobile (state w);
                 touchStartX := touchStartX (state w);
                 touchStartY := touchStartY (state w) |};
     appIsMobileMenuOpen := appIsMobileMenuOpen w;
     innerWidth := innerWidth w;
     navMenu := setAttribute "aria-hidden" "false" (navMenu w);
     hasNavLink := hasNavLink w;
     hamburger :=
       setAttribute "aria-label" "Close navigation menu"
         (setAttribute "aria-expanded" "true" (hamburger w));
     bodyOverflow := bodyOverflow w;
     overlay := overlay w; overlaysCreated := overlaysCreated w;
     suspended := None;
     removals := removals w;
     focusTimers := if hasNavLink w then S (focusTimers w) else focusTimers w;
     dispatched := dispatched w ++ [("mobileMenuOpened", isOpen (state w))] |}.

(** The callback the suspended call waits for runs. *)
Definition resume (w : World) : World :=
  match suspended w with
  | None => w
  | Some (OpeningFrame newOverlay) =>
      let w1 :=
        withNavMenu (λ e,
          setStyle "opacity" "1"
            (setStyle "transform" "translateX(0)"
               (setStyle "transition" (transition w) e))) w in
      {| config := config w1; state := state w1;
         appIsMobileMenuOpen := appIsMobileMenuOpen w1; innerWidth := innerWidth w1;
         navMenu := navMenu w1; hasNavLink := hasNavLink w1;
         hamburger := hamburger w1; bodyOverflow := bodyOverflow w1;
         overlay :=
           if newOverlay
           then (λ o, (o.1, setStyle "opacity" "1" o.2)) <$> overlay w1
           else overlay w1;
         overlaysCreated := overlaysCreated w1;
         suspended := Some Opening; removals := removals w1;
         focusTimers := focusTimers w1; dispatched := dispatched w1 |}
  | Some Opening => finishOpen w
  | Some Closing => finishClose (withNavMenu (setStyle "display" "none") w)
  end.

(** [checkMobileState()] once the window is [width] pixels wide. *)
Definition checkMobileState (width : Z) (w : World) : World :=
  let w1 :=
    {| config := config w;
       state := {| isOpen := isOpen (state w); isAnimating := isAnimating (state w);
                   isMobile := (width <=? breakpoint (config w))%Z;
                   touchStartX := touchStartX (state w);
                   touchStartY := touchStartY (state w) |};
       appIsMobileMenuOpen := appIsMobileMenuOpen w; innerWidth := width;
       navMenu := navMenu w; hasNavLink := hasNavLink w;
       hamburger := hamburger w; bodyOverflow := bodyOverflow w;
       overlay := overlay w; overlaysCreated := overlaysCreated w;
       suspended := suspended w; removals := removals w;
       focusTimers := focusTimers w; dispatched := dispatched w |} in
  if negb (isMobile (state w1)) && isOpen (state w1) then close false w1 else w1.

(** [handleKeydown(event)] for the Escape key. *)
Definition handleEscape (w : World) : World :=
  if negb (isOpen (state w)) then w else close true w.

(** [handleOutsideClick(event)], given whether the target is inside the
    menu or the hamburger. *)
Definition handleOutsideClick (inside : bool) (w : World) : World :=
  if negb (isOpen (state w)) || negb (isMobile (state w)) then w
  else if negb inside then close true w else w.

(** The oldest removal timer of [removeOverlay] fires. *)
Definition removeOverlay (w : World) : World :=
  match removals w with
  | [] => w
  | serial :: rest =>
      {| config := config w; state := state w;
         appIsMobileMenuOpen := appIsMobileMenuOpen w; innerWidth := innerWidth w;
         navMenu := navMenu w; hasNavLink := hasNavLink w;
         hamburger := hamburger w; bodyOverflow := bodyOverflow w;
         overlay :=
           match overlay w with
           | Some o => if (o.1 =? serial)%nat then None else Some o
           | None => None
           end;
         overlaysCreated := overlaysCreated w;
         suspended := suspended w; removals := rest;
         focusTimers := focusTimers w; dispatched := dispatched w |}
  end.

(** The module right after its constructor. *)
Definition init (width : Z) (menu button : Element) (links : bool) : World :=
  {| config := defaultConfig;
     state := {| isOpen := false; isAnimating := false;
                 isMobile := (width <=? breakpoint defaultConfig)%Z;
                 touchStartX := 0; touchStartY := 0 |};
     appIsMobileMenuOpen := false; innerWidth := width;
     navMenu := setAttribute "aria-hidden" "true" menu;
     hasNavLink := links;
     hamburger :=
       setAttribute "aria-controls" "nav-menu"
         (setAttribute "aria-expanded" "false"
            (setAttribute "aria-label" "Toggle navigation menu" button));
     bodyOverflow := ""; overlay := None; overlaysCreated := 0;
     suspended := None; removals := []; focusTimers := 0; dispatched := [] |}.

(** [handleTouchStart(event)] *)
Definition handleTouchStart (clientX clientY : Z) (w : World) : World :=
  {| config := config w;
     state := {| isOpen := isOpen (state w); isAnimating := isAnimating (state w);
                 isMobile := isMobile (state w);
                 touchStartX := clientX; touchStartY := clientY |};
     appIsMobileMenuOpen := appIsMobileMenuOpen w; innerWidth := innerWidth w;
     navMenu := navMenu w; hasNavLink := hasNavLink w;
     hamburger := hamburger w; bodyOverflow := bodyOverflow w;
     overlay := overlay w; overlaysCreated := overlaysCreated w;
     suspended := suspended w; removals := removals w;
     focusTimers := focusTimers w; dispatched := dispatched w |}.

(** [handleTouchMove(event)]; [opacity] is the text of the number
    [1 - progress * 0.5] that the handler stores. *)
Definition handleTouchMove (clientX clientY : Z) (opacity : string) (w : World)
  : World :=
  if negb (isOpen (state w)) then w
  else
    let deltaX := (clientX - touchStartX (state w))%Z in
    let deltaY := Z.abs (clientY - touchStartY (state w)) in
    if (deltaY <? Z.abs deltaX)%Z && (deltaX <? 0)%Z then
      withNavMenu (λ e,
        setStyle "opacity" opacity
          (setStyle "transform" ("translateX(" +:+ pretty deltaX +:+ "px)") e)) w
    else w.

(** [handleTouchEnd(event)] *)
Definition handleTouchEnd (clientX : Z) (w : World) : World :=
  if negb (isOpen (state w)) then w
  else
    let deltaX := (clientX - touchStartX (state w))%Z in
    let w1 := withNavMenu (λ e, setStyle "opacity" "" (setStyle "transform" "" e)) w in
    if (deltaX <? - swipeThreshold (config w))%Z then close true w1 else w1.

(** The click listener of a navigation link. *)
Definition handleNavLinkClick (w : World) : World :=
  if isMobile (state w) && isOpen (state w) then close true w else w.

(** [setBreakpoint(breakpoint)] *)
Definition setBreakpoint (breakpoint : Z) (w : World) : World :=
  checkMobileState (innerWidth w)
    {| config := {| breakpoint := breakpoint;
                    animationDuration := animationDuration (config w);
                    overlayOpacity := overlayOpacity (config w);
                    swipeThreshold := swipeThreshold (config w) |};
       state := state w;
       appIsMobileMenuOpen := appIsMobileMenuOpen w; innerWidth := innerWidth w;
       navMenu := navMenu w; hasNavLink := hasNavLink w;
       hamburger := hamburger w; bodyOverflow := bodyOverflow w;
       overlay := overlay w; overlaysCreated := overlaysCreated w;
       suspended := suspended w; removals := removals w;
       focusTimers := focusTimers w; dispatched := dispatched w |}.

(** A timer of [setupMenuFocus] fires: the first link takes the focus. *)
Definition focusTimer (w : World) : World :=
  {| config := config w; state := state w;
     appIsMobileMenuOpen := appIsMobileMenuOpen w; innerWidth := innerWidth w;
     navMenu := navMenu w; hasNavLink := hasNavLink w;
     hamburger := hamburger w; bodyOverflow := bodyOverflow w;
     overlay := overlay w; overlaysCreated := overlaysCreated w;
     suspended := suspended w; removals := removals w;
     focusTimers := Nat.pred (focusTimers w); dispatched := dispatched w |}.

(** What can happen to the module. *)
Inductive Event :=
| Toggle
| Open
| Close (animate : bool)
| Resume
| Resize (width : Z)
| Escape
| OutsideClick (inside : bool)
| NavLinkClick
| TouchStart (clientX clientY : Z)
| TouchMove (clientX clientY : Z) (opacity : string)
| TouchEnd (clientX : Z)
| OverlayTimer
| FocusTimer
| SetBreakpoint (breakpoint : Z).

Definition step (ev : Event) (w : World) : World :=
  match ev with
  | Toggle => toggle w
  | Open => open w
  | Close animate => close animate w
  | Resume => resume w
  | Resize width => checkMobileState width w
  | Escape => handleEscape w
  | OutsideClick inside => handleOutsideClick inside w
  | NavLinkClick => handleNavLinkClick w
  | TouchStart clientX clientY => handleTouchStart clientX clientY w
  | TouchMove clientX clientY opacity => handleTouchMove clientX clientY opacity w
  | TouchEnd clientX => handleTouchEnd clientX w
  | OverlayTimer => removeOverlay w
  | FocusTimer => focusTimer w
  | SetBreakpoint breakpoint => setBreakpoint breakpoint w
  end.

Definition run (evs : list Event) (w : World) : World :=
  foldl (λ w ev, step ev w) w evs.

Inductive reachable : World → Prop :=
| reachable_init width menu button links : reachable (init width menu button links)
| reachable_step ev w : reachable w → reachable (step ev w).

(** The accessibility attributes and the scroll lock of a menu in the
    state [open]. *)
Definition presents (open : bool) (w : World) : Prop :=
  getAttribute "aria-expanded" (hamburger w) = Some (if open then "true" else "false") ∧
  getAttribute "aria-hidden" (navMenu w) = Some (if open then "false" else "true").

(** What holds of the module between two events: the application's flag
    mirrors [isOpen]; the module animates exactly while a call is
    suspended; at rest the attributes follow [isOpen]; a suspended
    [open] has not yet updated the attributes, nor has a suspended
    [close].  The scroll lock is no part of it: the body belongs to the
    page, see [Page]. *)
Definition coherent (w : World) : Prop :=
  appIsMobileMenuOpen w = isOpen (state w) ∧
  match suspended w with
  | None =>
      isAnimating (state w) = false ∧ presents (isOpen (state w)) w
  | Some (OpeningFrame _) | Some Opening =>
      isAnimating (state w) = true ∧ isOpen (state w) = true ∧ presents false w
  | Some Closing =>
      isAnimating (state w) = true ∧ isOpen (state w) = false ∧ presents true w
  end.

End MobileMenu.

(** ** The page: modal manager and mobile menu on one document

  [App.initializeModules] builds a [ModalsModule] and a
  [MobileMenuModule] on the same document, so
  [document.body.style.overflow] is one property, which both modules
  write and neither reads; no other module that [App] builds touches
  it.  A state of the page holds the two modules; the [bodyOverflow] of
  each is that one property, and a step of either module leaves the
  value it ends with in both.  The body has no inline [overflow] when
  the modules are built. *)

Module Page.

Record World := {
  modals : Modals.World;
  mobileMenu : MobileMenu.World
}.

(** A module whose document has [overflow] on its body. *)
Definition modalsAt (overflow : string) (m : Modals.World) : Modals.World :=
  {| Modals.config := Modals.config m; Modals.modals := Modals.modals m;
     Modals.activeModal := Modals.activeModal m;
     Modals.previousFocus := Modals.previousFocus m;
     Modals.isAnimating := Modals.isAnimating m;
     Modals.activeElement := Modals.activeElement m;
     Modals.bodyOverflow := overflow;
     Modals.suspended := Modals.suspended m;
     Modals.focusTimers := Modals.focusTimers m;
     Modals.dispatched := Modals.dispatched m |}.

Definition menuAt (overflow : string) (n : MobileMenu.World) : MobileMenu.World :=
  {| MobileMenu.config := MobileMenu.config n; MobileMenu.state := MobileMenu.state n;
     MobileMenu.appIsMobileMenuOpen := MobileMenu.appIsMobileMenuOpen n;
     MobileMenu.innerWidth := MobileMenu.innerWidth n;
     MobileMenu.navMenu := MobileMenu.navMenu n;
     MobileMenu.hasNavLink := MobileMenu.hasNavLink n;
     MobileMenu.hamburger := MobileMenu.hamburger n;
     MobileMenu.bodyOverflow := overflow;
     MobileMenu.overlay := MobileMenu.overlay n;
     MobileMenu.overlaysCreated := MobileMenu.overlaysCreated n;
     MobileMenu.suspended := MobileMenu.suspended n;
     MobileMenu.removals := MobileMenu.removals n;
     MobileMenu.focusTimers := MobileMenu.focusTimers n;
     MobileMenu.dispatched := MobileMenu.dispatched n |}.

(** [document.body.style.overflow] *)
Definition overflow (p : World) : string := Modals.bodyOverflow (modals p).

(** What can happen on the page: an event of either module. *)
Inductive Event :=
| OfModals (ev : Modals.Event)
| OfMenu (ev : MobileMenu.Event).

Definition step (ev : Event) (p : World) : World :=
  match ev with
  | OfModals ev =>
      let m := Modals.step ev (modals p) in
      {| modals := m; mobileMenu := menuAt (Modals.bodyOverflow m) (mobileMenu p) |}
  | OfMenu ev =>
      let n := MobileMenu.step ev (mobileMenu p) in
      {| modals := modalsAt (MobileMenu.bodyOverflow n) (modals p); mobileMenu := n |}
  end.

Definition run (evs : list Event) (p : World) : World :=
  foldl (λ p ev, step ev p) p evs.

(** The page right after [initializeModules]. *)
Definition init (page : gmap string Modals.Modal) (focused : option Modals.Node)
  (width : Z) (menu button : Dom.Element) (links : bool) : World :=
  {| modals := Modals.init page focused;
     mobileMenu := MobileMenu.init width menu button links |}.

Inductive reachable : World → Prop :=
| reachable_init page focused width menu button links :
    reachable (init page focused width menu button links)
| reachable_step ev p : reachable p → reachable (step ev p).

(** The menu has locked the scroll and not yet released it: it is open,
    or its closing animation runs. *)
Definition menuHolds (n : MobileMenu.World) : Prop :=
  MobileMenu.isOpen (MobileMenu.state n) = true ∨
  MobileMenu.suspended n = Some MobileMenu.Closing.

(** Something on the page accounts for a locked scroll: a modal is
    active, or the menu holds the lock. *)
Definition held (p : World) : Prop :=
  is_Some (Modals.activeModal (modals p)) ∨ menuHolds (mobileMenu p).

(** The two modules see one property, which is empty or ["hidden"], and
    ["hidden"] only when something accounts for it. *)
Definition scrollAccounted (p : World) : Prop :=
  MobileMenu.bodyOverflow (mobileMenu p) = overflow p ∧
  (overflow p = "" ∨ overflow p = "hidden" ∧ held p).

End Page.

(** ** Mail server: the community-join endpoint

  The handler sees the body after [express.json] and
  [express.urlencoded] parsed it. *)

Module Server.

(** A value of a parsed request body.  Numbers are taken integral. *)
#[warnings="-register-all"]
Inductive JValue :=
| JNull
| JBool (b : bool)
| JNumber (n : Z)
| JString (s : string)
| JArray (items : list JValue)
| JObject (members : list (string * JValue)).

(** [req.body] as the body parsers leave it: an object or an array, the
    empty object when the request carried nothing they parse. *)
Inductive Body :=
| BObject (members : list (string * JValue))
| BArray (items : list JValue).

(** [formData.key] for a key that is no array property; of two members
    of the same name the later one is kept. *)
Fixpoint lookup (key : string) (members : list (string * JValue)) : option JValue :=
  match members with
  | [] => None
  | (k, v) :: rest =>
      match lookup key rest with
      | Some v' => Some v'
      | None => if String.eqb k key then Some v else None
      end
  end.

Definition getField (key : string) (body : Body) : option JValue :=
  match body with
  | BObject members => lookup key members
  | BArray _ => None
  end.

(** Truthiness, [undefined] being [None]. *)
Definition truthy (v : option JValue) : bool :=
  match v with
  | None => false
  | Some JNull => false
  | Some (JBool b) => b
  | Some (JNumber n) => negb (n =? 0)%Z
  | Some (JString s) => JS.truthy s
  | Some (JArray _) => true
  | Some (JObject _) => true
  end.

(** [ToString], which [RegExp.prototype.test] and template literals
    apply to a value; [None] when it throws a [TypeError].  A parsed
    object inherits [toString] from [Object.prototype] and prints as
    "[object Object]", unless it has a member named [toString]: a member
    of a parsed body is never callable, and [valueOf] then gives no
    primitive either, so the conversion throws.  An array is joined with
    commas, [null] items printing as the empty string; the conversion of
    an item may throw in turn. *)
Fixpoint ToString (v : JValue) : option string :=
  match v with
  | JNull => Some "null"
  | JBool b => Some (if b then "true" else "false")
  | JNumber n => Some (pretty n)
  | JString s => Some s
  | JArray items =>
      (fix join (l : list JValue) : option string :=
         match l with
         | [] => Some ""
         | x :: rest =>
             match match x with JNull => Some "" | _ => ToString x end with
             | None => None
             | Some piece =>
                 match rest with
                 | [] => Some piece
                 | _ =>
                     match join rest with
                     | None => None
                     | Some others => Some (piece +:+ "," +:+ others)
                     end
                 end
             end
         end) items
  | JObject members =>
      match lookup "toString" members with
      | Some _ => None
      | None => Some "[object Object]"
      end
  end.

Definition ToStringOpt (v : option JValue) : option string :=
  match v with Some x => ToString x | None => Some "undefined" end.

(** [${v ? `...${v}...` : ''}]: the value is converted only when it is
    truthy. *)
Definition interpolateIf (v : option JValue) : option string :=
  if truthy v then ToStringOpt v else Some "".

Record Response := {
  status : nat;
  success : bool;
  message : string
}.

(** [emailRegex.test(formData.email)]: the verdict when the conversion
    of the value to a string returns, [None] when it throws. *)
Definition emailTest (formData : Body) : option bool :=
  RegExp.test RegExp.emailRegex <$> ToStringOpt (getField "email" formData).

(** [createCommunityJoinEmail(formData)]: the strings interpolated into
    the templates, in their order ([name], [email], [company],
    [businessSize], [aiExperience], the newsletter answer), without the
    fixed text around them and the timestamp; [None] when a conversion
    throws. *)
Definition createCommunityJoinEmail (formData : Body) : option (list string) :=
  name ← ToStringOpt (getField "name" formData);
  email ← ToStringOpt (getField "email" formData);
  company ← interpolateIf (getField "company" formData);
  businessSize ← interpolateIf (getField "businessSize" formData);
  aiExperience ← ToStringOpt (getField "aiExperience" formData);
  Some [name; email; company; businessSize; aiExperience;
        if truthy (getField "newsletterOptIn" formData) then "Yes" else "No"].

(** The handler of [POST /api/community-join]: [transporter] tells
    whether the mail transporter exists when the request arrives,
    [delivered] whether [sendMail] resolves.  Whatever is thrown inside
    the [try] ends in the [catch], which answers 500. *)
Definition communityJoin (transporter delivered : bool) (formData : Body) : Response :=
  let caught :=
    {| status := 500; success := false;
       message := "There was an error processing your request. Please try again later." |} in
  if negb (truthy (getField "name" formData))
     || negb (truthy (getField "email" formData))
     || negb (truthy (getField "aiExperience" formData))
  then
    {| status := 400; success := false;
       message := "Missing required fields: name, email, and AI experience level are required." |}
  else
    match emailTest formData with
    | None => caught
    | Some false =>
        {| status := 400; success := false;
           message := "Please provide a valid email address." |}
    | Some true =>
        if negb transporter
        then
          {| status := 500; success := false;
             message := "Email service is not configured. Please contact support." |}
        else
          match createCommunityJoinEmail formData with
          | None => caught
          | Some _ =>
              if delivered
              then
                {| status := 200; success := true;
                   message := "Thank you for joining our community! We'll be in touch soon." |}
              else caught
          end
    end.

(** The handler takes a required field for missing when it is falsy. *)
Definition missing (key : string) (formData : Body) : Prop :=
  truthy (getField key formData) = false.

(** The e-mail fails the check, or passes it: [test] returns [false],
    or [true]. *)
Definition emailFails (formData : Body) : Prop := emailTest formData = Some false.

Definition emailMatches (formData : Body) : Prop := emailTest formData = Some true.

(** The strings interpolated into the two templates of the newsletter
    mail: [email], then [name] when it is truthy. *)
Definition newsletterContent (body : Body) : option (list string) :=
  email ← ToStringOpt (getField "email" body);
  name ← interpolateIf (getField "name" body);
  Some [email; name].

(** The handler of [POST /api/newsletter-subscribe]. *)
Definition newsletterSubscribe (transporter delivered : bool) (body : Body) : Response :=
  let caught :=
    {| status := 500; success := false;
       message :=
         "There was an error processing your subscription. Please try again later." |} in
  if negb (truthy (getField "email" body))
  then
    {| status := 400; success := false; message := "Email address is required." |}
  else
    match emailTest body with
    | None => caught
    | Some false =>
        {| status := 400; success := false;
           message := "Please provide a valid email address." |}
    | Some true =>
        if negb transporter
        then
          {| status := 500; success := false;
             message := "Email service is not configured. Please contact support." |}
        else
          match newsletterContent body with
          | None => caught
          | Some _ =>
              if delivered
              then
                {| status := 200; success := true;
                   message := "Thank you for subscribing to our newsletter!" |}
              else caught
          end
    end.

(** [process.env]: a variable is [undefined] or a string. *)
Definition isSet (env : gmap string string) (name : string) : bool :=
  match env !! name with Some value => JS.truthy value | None => false end.

(** [process.env.SMTP_PORT || 587] *)
Inductive Port :=
| PortText (value : string)
| PortNumber (n : nat).

(** The options passed to [nodemailer.createTransport]. *)
Inductive Transport :=
| Gmail (user pass : string)
| Smtp (host : string) (port : Port) (secure : bool) (user pass : option string).

(** [createTransporter()] *)
Definition createTransporter (env : gmap string string) : option Transport :=
  if isSet env "GMAIL_USER" && isSet env "GMAIL_APP_PASSWORD" then
    Some (Gmail (default "" (env !! "GMAIL_USER"))
            (default "" (env !! "GMAIL_APP_PASSWORD")))
  else if isSet env "SMTP_HOST" then
    Some (Smtp (default "" (env !! "SMTP_HOST"))
            (if isSet env "SMTP_PORT"
             then PortText (default "" (env !! "SMTP_PORT")) else PortNumber 587)
            (bool_decide (env !! "SMTP_SECURE" = Some "true"))
            (env !! "SMTP_USER") (env !! "SMTP_PASSWORD"))
  else None.

(** [from] and [to] of the mail options. *)
Definition mailFrom (env : gmap string string) : string :=
  if isSet env "GMAIL_USER" then default "" (env !! "GMAIL_USER")
  else if isSet env "SMTP_USER" then default "" (env !! "SMTP_USER")
  else "noreply@retrospxt.com".

Definition mailTo (env : gmap string string) : string :=
  if isSet env "NOTIFICATION_EMAIL" then default "" (env !! "NOTIFICATION_EMAIL")
  else "don@dhobdyjr.com".

End Server.

(** ** Sample pages *)

Module Samples.
Import Dom.

(** The e-mail input of the newsletter form, as [setupNewsletterForm]
    leaves it, holding [text]. *)
Definition emailInput (text : string) : Forms.Control :=
  {| Forms.tag := Forms.INPUT;
     Forms.el :=
       setAttribute "data-error-target" "newsletter-error"
         (setAttribute "data-validate" "required,email"
            (setAttribute "name" "email"
               (setAttribute "type" "email" createElement)));
     Forms.value := text; Forms.defaultValue := "";
     Forms.disabled := false; Forms.parentNode := 0 |}.

(** An input whose rule list holds only misspelled names. *)
Definition misspelledInput : Forms.Control :=
  {| Forms.tag := Forms.INPUT;
     Forms.el := setAttribute "data-validate" "requird, e-mail:3" createElement;
     Forms.value := ""; Forms.defaultValue := "";
     Forms.disabled := false; Forms.parentNode := 0 |}.

(** An input without [data-validate]. *)
Definition plainInput : Forms.Control :=
  {| Forms.tag := Forms.INPUT; Forms.el := createElement;
     Forms.value := ""; Forms.defaultValue := "";
     Forms.disabled := false; Forms.parentNode := 0 |}.

(** A submit button labelled "Subscribe". *)
Definition subscribeButton : Forms.Control :=
  {| Forms.tag := Forms.BUTTON;
     Forms.el := setTextContent "Subscribe" (setAttribute "type" "submit" createElement);
     Forms.value := ""; Forms.defaultValue := "";
     Forms.disabled := false; Forms.parentNode := 1 |}.

Definition newsletterForm : Forms.Form :=
  {| Forms.id := "newsletter-form";
     Forms.controls := [emailInput "a@b.co"; subscribeButton];
     Forms.fieldErrors := ∅; Forms.formMessage := None; Forms.inModal := true |}.

(** Two dialogs, with two focusable elements each. *)
Definition dialog : Modals.Modal :=
  {| Modals.el := setClassName ["modal"] createElement;
     Modals.hasBackdrop := false; Modals.focusable := 2;
     Modals.focusTrapHandler := false |}.

Definition dialogs : gmap string Modals.Modal :=
  <["community-modal" := dialog]> (<["newsletter-modal" := dialog]> ∅).

(** The modal manager on that page while the trigger button, node 1 of
    the page, holds the focus. *)
Definition modalsIdle : Modals.World :=
  Modals.init dialogs (Some (Modals.Outside 1)).


(** The newsletter dialog is open, and the user has moved the focus to
    its second focusable element, the last node to hold the focus before
    the community dialog is asked for. *)
Definition modalsNewsletterOpen : Modals.World :=
  Modals.run
    [Modals.Open "newsletter-modal"; Modals.Resume; Modals.Resume;
     Modals.FocusTimer; Modals.UserFocus (Some (Modals.Inside "newsletter-modal" 1))]
    modalsIdle.


(** A page of three sections of 600 pixels with one link each, scrolled
    to [y], the scroll-spy not having run yet. *)
Definition navLink (href : string) : Element :=
  setClassName ["nav-link"] (setAttribute "href" href createElement).

Definition navigationAt (y : Z) : Navigation.World :=
  {| Navigation.config := Navigation.appConfig;
     Navigation.state :=
       {| Navigation.isScrolled := false; Navigation.activeSection := "home" |};
     Navigation.scrollY := y;
     Navigation.sections :=
       [{| Navigation.offsetTop := 0; Navigation.offsetHeight := 600;
           Navigation.sectionId := "home" |};
        {| Navigation.offsetTop := 600; Navigation.offsetHeight := 600;
           Navigation.sectionId := "about" |};
        {| Navigation.offsetTop := 1200; Navigation.offsetHeight := 600;
           Navigation.sectionId := "services" |}];
     Navigation.navLinks := [navLink "#home"; navLink "#about"; navLink "#services"];
     Navigation.navbar := createElement |}.

(** The mobile menu on a window 375 pixels wide. *)
Definition menuClosed : MobileMenu.World :=
  MobileMenu.init 375 createElement createElement true.





(** The forms module on a page with the newsletter form, before and
    after the form is submitted. *)
Definition formsIdle : Forms.World :=
  Forms.init JS.digitsToNumber [newsletterForm].

Definition formsBusy : Forms.World :=
  Forms.handleFormSubmit Forms.namedValues 0 formsIdle.

(** The newsletter form holding a text that is no e-mail address, and
    the page with it. *)
Definition mistypedForm : Forms.Form :=
  {| Forms.id := "newsletter-form";
     Forms.controls := [emailInput "not-an-email"; subscribeButton];
     Forms.fieldErrors := ∅; Forms.formMessage := None; Forms.inModal := true |}.

Definition formsMistyped : Forms.World :=
  Forms.init JS.digitsToNumber [mistypedForm].



(** A submit button whose markup spells its type in capitals and that
    carries no [data-original-text], and a form with it. *)
Definition capitalsButton : Forms.Control :=
  {| Forms.tag := Forms.BUTTON;
     Forms.el := setTextContent "Go" (setAttribute "type" "SUBMIT" createElement);
     Forms.value := ""; Forms.defaultValue := "";
     Forms.disabled := false; Forms.parentNode := 1 |}.

Definition capitalsForm : Forms.Form :=
  {| Forms.id := "newsletter-form";
     Forms.controls := [emailInput "a@b.co"; capitalsButton];
     Forms.fieldErrors := ∅; Forms.formMessage := None; Forms.inModal := true |}.

(** The mobile menu open and at rest: the hamburger was tapped and the
    animation has run. *)
Definition menuOpen : MobileMenu.World :=
  MobileMenu.run [MobileMenu.Toggle; MobileMenu.Resume; MobileMenu.Resume] menuClosed.

(** The page with the two dialogs and the mobile menu on a window 375
    pixels wide; then the menu was opened and, from it, the newsletter
    dialog, each animation run to its end. *)
Definition pageIdle : Page.World :=
  Page.init dialogs (Some (Modals.Outside 1)) 375 createElement createElement true.

Definition pageBothOpen : Page.World :=
  Page.run
    [Page.OfMenu MobileMenu.Toggle; Page.OfMenu MobileMenu.Resume;
     Page.OfMenu MobileMenu.Resume;
     Page.OfModals (Modals.Open "newsletter-modal"); Page.OfModals Modals.Resume;
     Page.OfModals Modals.Resume]
    pageIdle.

(** A request body for the newsletter endpoint. *)
Definition subscribeBody : Server.Body :=
  Server.BObject
    [("email", Server.JString "test@example.com"); ("name", Server.JString "Test User")].

(** The same request with a name that is an object with a member named
    [toString]. *)
Definition subscribeBodyWithUnprintableName : Server.Body :=
  Server.BObject
    [("email", Server.JString "test@example.com");
     ("name", Server.JObject [("toString", Server.JString "x")])].

(** Environments of the mail server: Gmail next to SMTP settings, and
    SMTP settings with a Gmail user but no app password. *)
Definition gmailEnv : gmap string string :=
  <["GMAIL_USER" := "site@gmail.com"]>
    (<["GMAIL_APP_PASSWORD" := "app-password"]>
       (<["SMTP_HOST" := "smtp.example.com"]> ∅)).

Definition smtpEnv : gmap string string :=
  <["GMAIL_USER" := "site@gmail.com"]>
    (<["SMTP_HOST" := "smtp.example.com"]>
       (<["SMTP_SECURE" := "TRUE"]> ∅)).

End Samples.

(** * Properties *)

(** ** Strings and patterns on examples *)

Example email_accepts : RegExp.test RegExp.emailRegex "a@b.co" = true.
Proof. vm_compute. reflexivity. Qed.

Example email_rejects_plain : RegExp.test RegExp.emailRegex "not-an-email" = false.
Proof. vm_compute. reflexivity. Qed.

Example email_rejects_space : RegExp.test RegExp.emailRegex "a b@c.d" = false.
Proof. vm_compute. reflexivity. Qed.

Example email_rejects_two_ats : RegExp.test RegExp.emailRegex "a@b@c.d" = false.
Proof. vm_compute. reflexivity. Qed.

Example phone_accepts : RegExp.test RegExp.phoneRegex "+1 (555) 123-4567" = true.
Proof. vm_compute. reflexivity. Qed.

Example phone_rejects_short : RegExp.test RegExp.phoneRegex "012345" = false.
Proof. vm_compute. reflexivity. Qed.

Example split_rule_list :
  JS.split "," "required,minLength:2" = ["required"; "minLength:2"].
Proof. reflexivity. Qed.

Example split_empty : JS.split "," "" = [""].
Proof. reflexivity. Qed.

Example trim_both_ends : JS.trim "  a b  " = "a b".
Proof. reflexivity. Qed.

(** ** Elements *)

Section ElementFacts.
Import Dom.

Lemma contains_add token e : contains token (add token e) = true.
Proof.
  unfold add. destruct (contains token e) eqn:Hc; [exact Hc|].
  unfold contains. cbn. apply bool_decide_eq_true. set_solver.
Qed.

Lemma contains_remove token e : contains token (remove token e) = false.
Proof.
  unfold contains, remove. cbn. apply bool_decide_eq_false.
  rewrite list_elem_of_filter. tauto.
Qed.

Lemma contains_toggle token force e : contains token (toggle token force e) = force.
Proof. destruct force; [apply contains_add | apply contains_remove]. Qed.

Lemma attrs_add token e : attrs (add token e) = attrs e.
Proof. unfold add. destruct (contains token e); reflexivity. Qed.

Lemma textContent_add token e : textContent (add token e) = textContent e.
Proof. unfold add. destruct (contains token e); reflexivity. Qed.

Lemma style_add token e : style (add token e) = style e.
Proof. unfold add. destruct (contains token e); reflexivity. Qed.

Lemma attrs_toggle token force e : attrs (toggle token force e) = attrs e.
Proof. destruct force; [apply attrs_add | reflexivity]. Qed.

Lemma getAttribute_setAttribute name value e :
  getAttribute name (setAttribute name value e) = Some value.
Proof. unfold getAttribute. cbn. apply lookup_insert_eq. Qed.

Lemma getAttribute_setAttribute_ne name name' value e :
  name' ≠ name →
  getAttribute name (setAttribute name' value e) = getAttribute name e.
Proof. intros Hne. unfold getAttribute. cbn. by apply lookup_insert_ne. Qed.

Lemma getAttribute_removeAttribute_ne name name' e :
  name' ≠ name →
  getAttribute name (removeAttribute name' e) = getAttribute name e.
Proof. intros Hne. unfold getAttribute. cbn. by apply lookup_delete_ne. Qed.

Lemma getStyle_setStyle prop value e :
  getStyle prop (setStyle prop value e) = Some value.
Proof. unfold getStyle. cbn. apply lookup_insert_eq. Qed.

End ElementFacts.

(** ** Form pipeline *)

Section FormsFacts.
Import Dom Forms.

Variable StringToNumber : string → JS.Number.
Variable FormData : Form → list (string * string).

Abbreviation rules := (setupValidationRules StringToNumber).

(** The registry holds the five built-in rules and nothing else. *)
Lemma registry_unknown (name : string) :
  name ∉ ["email"; "phone"; "required"; "minLength"; "maxLength"] →
  rules !! name = None.
Proof.
  intros Hname. unfold setupValidationRules.
  rewrite !lookup_insert_ne; [apply lookup_empty | | | | |];
    intros <-; apply Hname; set_solver.
Qed.

Lemma registry_known (name : string) :
  name ∈ ["email"; "phone"; "required"; "minLength"; "maxLength"] →
  is_Some (rules !! name).
Proof.
  intros Hname.
  repeat (apply elem_of_cons in Hname as [->|Hname]; [vm_compute; eauto|]).
  by apply elem_of_nil in Hname.
Qed.

Lemma firstFailure_plain_text :
  firstFailure rules "not-an-email" (JS.split "," "required,email")
  = Some "Please enter a valid email address".
Proof. vm_compute. reflexivity. Qed.

Lemma firstFailure_address :
  firstFailure rules "a@b.co" (JS.split "," "required,email") = None.
Proof. vm_compute. reflexivity. Qed.

(** Rules that the registry does not know never fail. *)
Lemma firstFailure_unknown (registry : gmap string ValidationRule) value declared :
  (∀ rule, rule ∈ declared → registry !! JS.trim (ruleName rule) = None) →
  firstFailure registry value declared = None.
Proof.
  induction declared as [|rule rest IH]; intros Hunknown; [reflexivity|].
  cbn. unfold checkRule. rewrite Hunknown; [|set_solver].
  apply IH. intros r Hr. apply Hunknown. set_solver.
Qed.

(** C5: a field declared [required,email] fails on "not-an-email" with
    the message "Please enter a valid email address", shown in its error
    element; on "a@b.co" it passes, and the inline error is cleared: the
    error element, if there is one, is hidden, the class [error] is
    removed and [aria-invalid] is "false". *)
Theorem validateField_required_email (input : Control) (errs : gmap nat Element) :
  getAttribute "data-validate" (el input) = Some "required,email" →
  (∃ input' errs' errorElement,
     validateField rules (setValue "not-an-email" input, errs)
       = (false, (input', errs')) ∧
     errs' !! parentNode input = Some errorElement ∧
     textContent errorElement = "Please enter a valid email address" ∧
     getStyle "display" errorElement = Some "block" ∧
     contains "error" (el input') = true ∧
     getAttribute "aria-invalid" (el input') = Some "true")
  ∧
  (∃ input' errs',
     validateField rules (setValue "a@b.co" input, errs)
       = (true, (input', errs')) ∧
     contains "error" (el input') = false ∧
     getAttribute "aria-invalid" (el input') = Some "false" ∧
     getAttribute "aria-describedby" (el input') = None ∧
     ∀ errorElement, errs !! parentNode input = Some errorElement →
       ∃ hidden, errs' !! parentNode input = Some hidden ∧
                 getStyle "display" hidden = Some "none").
Proof.
  intros Hattr. split.
  - unfold validateField. cbn [fst el setValue value]. rewrite Hattr.
    cbn [JS.truthy negb]. rewrite firstFailure_plain_text.
    unfold showFieldError. cbn [setValue parentNode].
    eexists _, _, _. split; [reflexivity|].
    split; [apply lookup_insert_eq|].
    split; [reflexivity|].
    split; [apply getStyle_setStyle|].
    cbn [withEl el]. split.
    + unfold contains. cbn. apply contains_add.
    + rewrite getAttribute_setAttribute_ne by done.
      apply getAttribute_setAttribute.
  - unfold validateField. cbn [fst el setValue value]. rewrite Hattr.
    cbn [JS.truthy negb]. rewrite firstFailure_address.
    unfold clearFieldError. cbn [setValue parentNode].
    eexists _, _. split; [reflexivity|].
    cbn [withEl el]. split; [apply contains_remove|].
    split.
    + rewrite getAttribute_removeAttribute_ne by done.
      apply getAttribute_setAttribute.
    + split; [unfold getAttribute; cbn; apply lookup_delete_eq|].
      intros errorElement Herr. rewrite Herr.
      eexists. split; [apply lookup_insert_eq | apply getStyle_setStyle].
Qed.

(** C10: rule names that are not in the registry are skipped, so a field
    that declares only such names validates whatever its value, and so
    does an input without [data-validate]. *)
Theorem validateField_unknown_rules (input : Control) (errs : gmap nat Element) :
  (∀ validateAttr,
     getAttribute "data-validate" (el input) = Some validateAttr →
     (∀ rule, rule ∈ JS.split "," validateAttr →
        JS.trim (ruleName rule) ∉ ["email"; "phone"; "required"; "minLength"; "maxLength"]) →
     (validateField rules (input, errs)).1 = true)
  ∧
  (getAttribute "data-validate" (el input) = None →
     validateField rules (input, errs) = (true, (input, errs)))
  ∧
  (∀ value rule rest,
     rules !! JS.trim (ruleName rule) = None →
     firstFailure rules value (rule :: rest) = firstFailure rules value rest).
Proof.
  split; [|split].
  - intros validateAttr Hattr Hunknown. unfold validateField. cbn [fst].
    rewrite Hattr. destruct (negb (JS.truthy validateAttr)); [reflexivity|].
    rewrite firstFailure_unknown; [reflexivity|].
    intros rule Hrule. apply registry_unknown. by apply Hunknown.
  - intros Hattr. unfold validateField. cbn [fst]. by rewrite Hattr.
  - intros value rule rest Hrule. cbn. unfold checkRule. by rewrite Hrule.
Qed.

(** *** Submission *)

Lemma validateForm_id registry form : id (validateForm registry form).2 = id form.
Proof.
  unfold validateForm.
  destruct (validateInputs registry (controls form) (fieldErrors form))
    as [isValid [cs errs]].
  reflexivity.
Qed.

Lemma findIndex_imap {A} (p : A → bool) (f : nat → A → A) (l : list A) :
  (∀ i x, p (f i x) = p x) → findIndex p (imap f l) = findIndex p l.
Proof.
  revert f. induction l as [|x l IH]; intros f Hp; [reflexivity|].
  cbn. rewrite Hp. destruct (p x); [reflexivity|].
  f_equal. apply IH. intros i y. apply Hp.
Qed.

Lemma findIndex_Some {A} (p : A → bool) (l : list A) k :
  findIndex p l = Some k → ∃ x, l !! k = Some x ∧ p x = true.
Proof.
  revert k. induction l as [|x l IH]; intros k; [discriminate|].
  cbn. destruct (p x) eqn:Hpx.
  - intros [= <-]. eauto.
  - destruct (findIndex p l) as [k'|]; [|discriminate].
    intros [= <-]. apply IH. reflexivity.
Qed.

Lemma isSubmitButton_update i (b : bool) (submitButton : option nat) c :
  isSubmitButton
    (if bool_decide (submitButton = Some i) then
       let c' := setDisabled b c in
       if b then
         withEl (λ e, add "submitting" (setTextContent "Submitting..." e)) c'
       else
         withEl (λ e,
           remove "submitting"
             (setTextContent
                (JS.or_else (getAttribute "data-original-text" e) "Submit") e)) c'
     else setDisabled b c)
  = isSubmitButton c.
Proof.
  unfold isSubmitButton, isButton, getAttribute.
  case_bool_decide; destruct b; cbn; rewrite ?attrs_add; reflexivity.
Qed.

Lemma findIndex_setFormSubmitting b form :
  findIndex isSubmitButton (controls (setFormSubmitting b form))
  = findIndex isSubmitButton (controls form).
Proof.
  unfold setFormSubmitting. cbn [controls withControls].
  apply findIndex_imap. intros i c. apply isSubmitButton_update.
Qed.

(** Neither direction of [setFormSubmitting] touches a value. *)
Lemma setFormSubmitting_values b form :
  map value (controls (setFormSubmitting b form)) = map value (controls form).
Proof.
  unfold setFormSubmitting. cbn [controls withControls].
  apply list_eq. intros k.
  rewrite !list_lookup_fmap, list_lookup_imap.
  destruct (controls form !! k) as [c|]; [|reflexivity]. cbn.
  case_bool_decide; destruct b; reflexivity.
Qed.

(** While the form is submitting every control is disabled; afterwards
    every control is enabled. *)
Lemma setFormSubmitting_disabled b form c :
  c ∈ controls (setFormSubmitting b form) → disabled c = b.
Proof.
  unfold setFormSubmitting. cbn [controls withControls].
  intros Hc. apply list_elem_of_lookup in Hc as [k Hk].
  rewrite list_lookup_imap in Hk.
  destruct (controls form !! k) as [c0|]; [|discriminate].
  cbn in Hk. injection Hk as <-.
  case_bool_decide; destruct b; reflexivity.
Qed.

(** The label of the submit button while submitting and afterwards: what
    comes back is [data-original-text], or "Submit". *)
Lemma setFormSubmitting_label form k button :
  findIndex isSubmitButton (controls form) = Some k →
  controls form !! k = Some button →
  (∃ busy, controls (setFormSubmitting true form) !! k = Some busy ∧
           textContent (el busy) = "Submitting...") ∧
  (∃ idle,
     controls (setFormSubmitting false (setFormSubmitting true form)) !! k = Some idle ∧
     textContent (el idle)
       = JS.or_else (getAttribute "data-original-text" (el button)) "Submit").
Proof.
  intros Hfind Hk.
  assert (Hbusy : controls (setFormSubmitting true form) !! k
    = Some (withEl (λ e, add "submitting" (setTextContent "Submitting..." e))
              (setDisabled true button))).
  { unfold setFormSubmitting at 1. cbn [controls withControls].
    rewrite list_lookup_imap, Hk. cbn. rewrite Hfind.
    rewrite bool_decide_eq_true_2 by reflexivity. reflexivity. }
  split.
  - eexists. split; [exact Hbusy|]. cbn. apply textContent_add.
  - pose proof (findIndex_setFormSubmitting true form) as Hfind'.
    rewrite Hfind in Hfind'.
    remember (setFormSubmitting true form) as submitting.
    eexists. split.
    + unfold setFormSubmitting. cbn [controls withControls].
      rewrite list_lookup_imap, Hbusy, Hfind'. cbn.
      rewrite bool_decide_eq_true_2 by reflexivity. reflexivity.
    + cbn. unfold getAttribute. cbn. rewrite attrs_add. reflexivity.
Qed.

Lemma callsFor_snoc formId w call :
  length (filter (λ c, callFormId c = formId) (calls w ++ [call]))
  = (callsFor formId w + if bool_decide (callFormId call = formId) then 1 else 0)%nat.
Proof.
  unfold callsFor. rewrite filter_app, length_app. f_equal.
  rewrite filter_cons, filter_nil.
  case_bool_decide; destruct (decide _); try reflexivity; contradiction.
Qed.

(** C2: while a submission of a form identifier is in flight, a further
    submit of it changes nothing; so a submit that starts a submission,
    followed at once by another, makes one call for that identifier; and
    the identifier leaves the set when the submission settles, whether it
    resolved or was rejected. *)
Theorem handleFormSubmit_once (w : World) (i : nat) (form : Form) :
  forms w !! i = Some form →
  (id form ∈ submittingForms w → handleFormSubmit FormData i w = w)
  ∧
  (id form ∉ submittingForms w →
   (validateForm (validationRules w) form).1 = true →
   let w1 := handleFormSubmit FormData i w in
   (id form ∈ submittingForms w1 ∧
    i ∈ awaiting w1 ∧
    callsFor (id form) w1 = S (callsFor (id form) w) ∧
    handleFormSubmit FormData i w1 = w1 ∧
    callsFor (id form) (handleFormSubmit FormData i w1) = S (callsFor (id form) w)))
  ∧
  (∀ o, i ∈ awaiting w →
     (id form ∉ submittingForms (settle i o w)) ∧ (i ∉ awaiting (settle i o w))).
Proof.
  intros Hform. split; [|split].
  - intros Hin. unfold handleFormSubmit. rewrite Hform.
    by rewrite bool_decide_eq_true_2.
  - intros Hout Hvalid.
    assert (Hlt : (i < length (forms w))%nat) by (by eapply lookup_lt_Some).
    assert (Hw1 : ∃ form1,
      id form1 = id form ∧
      handleFormSubmit FormData i w =
        {| config := config w; validationRules := validationRules w;
           submittingForms := {[id form]} ∪ submittingForms w;
           forms := <[i := setFormSubmitting true form1]> (forms w);
           calls := calls w ++
             [{| callStrategy := strategyOf (id form); callFormId := id form;
                 callData := FormData (setFormSubmitting true form1) |}];
           awaiting := awaiting w ++ [i];
           timers := timers w; dispatched := dispatched w |}).
    { unfold handleFormSubmit. rewrite Hform.
      rewrite bool_decide_eq_false_2 by done.
      pose proof (validateForm_id (validationRules w) form) as Hid.
      destruct (validateForm (validationRules w) form) as [isValid form1].
      cbn in Hvalid, Hid. subst isValid. cbn. eauto. }
    destruct Hw1 as (form1 & Hid & Hw1). cbn zeta. rewrite Hw1.
    assert (Hagain : handleFormSubmit FormData i
      {| config := config w; validationRules := validationRules w;
         submittingForms := {[id form]} ∪ submittingForms w;
         forms := <[i := setFormSubmitting true form1]> (forms w);
         calls := calls w ++
           [{| callStrategy := strategyOf (id form); callFormId := id form;
               callData := FormData (setFormSubmitting true form1) |}];
         awaiting := awaiting w ++ [i];
         timers := timers w; dispatched := dispatched w |}
      = {| config := config w; validationRules := validationRules w;
           submittingForms := {[id form]} ∪ submittingForms w;
           forms := <[i := setFormSubmitting true form1]> (forms w);
           calls := calls w ++
             [{| callStrategy := strategyOf (id form); callFormId := id form;
                 callData := FormData (setFormSubmitting true form1) |}];
           awaiting := awaiting w ++ [i];
           timers := timers w; dispatched := dispatched w |}).
    { unfold handleFormSubmit at 1. cbn [forms submittingForms].
      rewrite list_lookup_insert_eq by exact Hlt.
      cbn [id setFormSubmitting withControls]. rewrite Hid.
      rewrite bool_decide_eq_true_2 by set_solver. reflexivity. }
    assert (Hcount : callsFor (id form)
      {| config := config w; validationRules := validationRules w;
         submittingForms := {[id form]} ∪ submittingForms w;
         forms := <[i := setFormSubmitting true form1]> (forms w);
         calls := calls w ++
           [{| callStrategy := strategyOf (id form); callFormId := id form;
               callData := FormData (setFormSubmitting true form1) |}];
         awaiting := awaiting w ++ [i];
         timers := timers w; dispatched := dispatched w |}
      = S (callsFor (id form) w)).
    { unfold callsFor at 1. cbn [calls]. rewrite callsFor_snoc. cbn.
      rewrite bool_decide_eq_true_2 by reflexivity. lia. }
    rewrite Hagain. cbn [submittingForms awaiting].
    split; [set_solver|]. split; [set_solver|]. done.
  - intros o Hawait. unfold settle.
    rewrite bool_decide_eq_true_2 by exact Hawait. cbn [negb]. rewrite Hform.
    cbn [submittingForms awaiting]. split.
    + intros Hin. apply elem_of_difference in Hin as [_ Hne].
      apply Hne. by apply elem_of_singleton.
    + rewrite list_elem_of_filter. tauto.
Qed.

(** C7: when the awaited submission is rejected, the [catch] of
    [handleFormSubmit] takes the error: the form gets an error banner
    with the error's message, or "An error occurred. Please try again."
    when it has none, the [formError] event is dispatched, the [finally]
    releases the form, and no value of the form has changed. *)
Theorem settle_rejected (w : World) (i : nat) (form : Form) (error : Error) :
  forms w !! i = Some form →
  i ∈ awaiting w →
  let w' := settle i (Rejected error) w in
  (∃ form' banner,
     forms w' !! i = Some form' ∧
     formMessage form' = Some banner ∧
     textContent banner
       = JS.or_else (errorMessage error) "An error occurred. Please try again." ∧
     classList banner = ["form-message"; "error"] ∧
     getStyle "display" banner = Some "block" ∧
     map value (controls form') = map value (controls form) ∧
     dispatched w' = dispatched w ++ [("formError", i)] ∧
     (id form ∉ submittingForms w') ∧
     calls w' = calls w).
Proof.
  intros Hform Hawait.
  assert (Hlt : (i < length (forms w))%nat) by (by eapply lookup_lt_Some).
  cbn zeta. unfold settle.
  rewrite bool_decide_eq_true_2 by exact Hawait. cbn [negb]. rewrite Hform.
  unfold handleFormError, withForm. cbn [forms dispatched submittingForms calls].
  eexists _, _. split.
  { rewrite list_lookup_alter_eq, list_lookup_insert_eq by exact Hlt. reflexivity. }
  cbn [setFormSubmitting formMessage withControls showFormMessage withFormMessage].
  split; [reflexivity|].
  split; [reflexivity|].
  split; [reflexivity|].
  split; [apply getStyle_setStyle|].
  split.
  { exact (setFormSubmitting_values false (showFormMessage _ "error" form)). }
  split; [reflexivity|].
  split; [|reflexivity].
  intros Hin. apply elem_of_difference in Hin as [_ Hne].
  apply Hne. by apply elem_of_singleton.
Qed.

End FormsFacts.

Section FormsExamples.
Import Dom Forms Samples.

Lemma validateField_required_email_witness :
  getAttribute "data-validate" (el (emailInput "")) = Some "required,email" ∧
  (validateField (setupValidationRules JS.digitsToNumber)
     (emailInput "not-an-email", ∅)).1 = false ∧
  (validateField (setupValidationRules JS.digitsToNumber)
     (emailInput "a@b.co", ∅)).1 = true.
Proof.
  assert (Hattr : getAttribute "data-validate" (el (emailInput "")) = Some "required,email")
    by reflexivity.
  split; [exact Hattr|].
  destruct (validateField_required_email JS.digitsToNumber (emailInput "") ∅ Hattr)
    as [(input1 & errs1 & e1 & Hfail & _) (input2 & errs2 & Hpass & _)].
  split.
  - change (emailInput "not-an-email") with (setValue "not-an-email" (emailInput "")).
    rewrite Hfail. reflexivity.
  - change (emailInput "a@b.co") with (setValue "a@b.co" (emailInput "")).
    rewrite Hpass. reflexivity.
Defined.

Lemma validateField_unknown_rules_witness :
  getAttribute "data-validate" (el misspelledInput) = Some "requird, e-mail:3" ∧
  (validateField (setupValidationRules JS.digitsToNumber) (misspelledInput, ∅)).1 = true ∧
  getAttribute "data-validate" (el plainInput) = None ∧
  validateField (setupValidationRules JS.digitsToNumber) (plainInput, ∅)
    = (true, (plainInput, ∅)).
Proof.
  split; [reflexivity|]. split.
  - apply (proj1 (validateField_unknown_rules JS.digitsToNumber misspelledInput ∅)
             "requird, e-mail:3"); [reflexivity|].
    intros rule Hrule.
    change (JS.split "," "requird, e-mail:3") with ["requird"; " e-mail:3"] in Hrule.
    apply elem_of_cons in Hrule as [->|Hrule].
    { apply (bool_decide_unpack _). vm_compute. exact I. }
    apply elem_of_cons in Hrule as [->|Hrule].
    { apply (bool_decide_unpack _). vm_compute. exact I. }
    by apply elem_of_nil in Hrule.
  - split; [reflexivity|].
    apply (proj1 (proj2 (validateField_unknown_rules JS.digitsToNumber plainInput ∅))).
    reflexivity.
Defined.

Example formsBusy_submitting : submittingForms formsBusy = {["newsletter-form"]}.
Proof. vm_compute. reflexivity. Qed.

Example formsBusy_calls :
  calls formsBusy
  = [{| callStrategy := Newsletter; callFormId := "newsletter-form"; callData := [] |}].
Proof. vm_compute. reflexivity. Qed.

Lemma handleFormSubmit_once_witness :
  forms formsIdle !! 0%nat = Some newsletterForm ∧
  ("newsletter-form" ∉ submittingForms formsIdle) ∧
  (validateForm (validationRules formsIdle) newsletterForm).1 = true ∧
  callsFor "newsletter-form"
    (handleFormSubmit namedValues 0 (handleFormSubmit namedValues 0 formsIdle)) = 1%nat ∧
  (∃ form, forms formsBusy !! 0%nat = Some form ∧
     id form ∈ submittingForms formsBusy ∧
     handleFormSubmit namedValues 0 formsBusy = formsBusy ∧
     0%nat ∈ awaiting formsBusy ∧
     ∀ o, id form ∉ submittingForms (settle 0 o formsBusy)).
Proof.
  assert (H0 : forms formsIdle !! 0%nat = Some newsletterForm) by reflexivity.
  assert (Hout : id newsletterForm ∉ submittingForms formsIdle).
  { apply (bool_decide_unpack _). vm_compute. exact I. }
  assert (Hvalid : (validateForm (validationRules formsIdle) newsletterForm).1 = true).
  { vm_compute. reflexivity. }
  destruct (handleFormSubmit_once namedValues formsIdle 0 newsletterForm H0)
    as (_ & Hstart & _).
  destruct (Hstart Hout Hvalid) as (Hin & Hawait & _ & _ & Hcount).
  split; [exact H0|]. split; [exact Hout|]. split; [exact Hvalid|].
  split; [exact Hcount|].
  assert (H1 : forms formsBusy !! 0%nat
    = Some (setFormSubmitting true (validateForm (validationRules formsIdle) newsletterForm).2)).
  { vm_compute. reflexivity. }
  destruct (handleFormSubmit_once namedValues formsBusy 0 _ H1) as (Hnoop & _ & Hsettle).
  eexists. split; [exact H1|].
  split; [exact Hin|]. split; [exact (Hnoop Hin)|]. split; [exact Hawait|].
  intros o. exact (proj1 (Hsettle o Hawait)).
Defined.

Lemma settle_rejected_witness :
  (∃ form, forms formsBusy !! 0%nat = Some form) ∧
  0%nat ∈ awaiting formsBusy ∧
  (∃ form' banner,
     forms (settle 0 (Rejected {| errorMessage := Some "Failed to fetch" |}) formsBusy)
       !! 0%nat = Some form' ∧
     formMessage form' = Some banner ∧
     textContent banner = "Failed to fetch" ∧
     map value (controls form') = ["a@b.co"; ""]).
Proof.
  assert (H1 : forms formsBusy !! 0%nat
    = Some (setFormSubmitting true (validateForm (validationRules formsIdle) newsletterForm).2)).
  { vm_compute. reflexivity. }
  assert (Hawait : 0%nat ∈ awaiting formsBusy).
  { apply (bool_decide_unpack _). vm_compute. exact I. }
  split; [eexists; exact H1|]. split; [exact Hawait|].
  destruct (settle_rejected formsBusy 0 _ {| errorMessage := Some "Failed to fetch" |}
              H1 Hawait)
    as (form' & banner & Hform' & Hbanner & Htext & _ & _ & Hvalues & _).
  exists form', banner. split; [exact Hform'|]. split; [exact Hbanner|].
  split; [exact Htext|]. rewrite Hvalues. vm_compute. reflexivity.
Defined.

(** C9, on the newsletter form: its submit button reads "Subscribe" and
    has no [data-original-text]; while submitting it reads
    "Submitting..." and every control is disabled; afterwards every
    control is enabled again, but the button reads "Submit". *)
Theorem setFormSubmitting_label_lost :
  (textContent ∘ el <$> controls newsletterForm) = [""; "Subscribe"] ∧
  (textContent ∘ el <$> controls (setFormSubmitting true newsletterForm))
    = [""; "Submitting..."] ∧
  (disabled <$> controls (setFormSubmitting true newsletterForm)) = [true; true] ∧
  (disabled <$> controls
     (setFormSubmitting false (setFormSubmitting true newsletterForm))) = [false; false] ∧
  (textContent ∘ el <$> controls
     (setFormSubmitting false (setFormSubmitting true newsletterForm)))
    = [""; "Submit"].
Proof. vm_compute. repeat split. Qed.

End FormsExamples.

(** ** Modal manager *)

Section ModalsFacts.
Import Dom Modals.

Lemma ariaOf_alter (page : gmap string Modal) (g : Modal → Modal) id x :
  (∀ m, attrs (el (g m)) = attrs (el m)) →
  ariaOf (alter g id page) x = ariaOf page x.
Proof.
  intros Hg. unfold ariaOf.
  destruct (decide (id = x)) as [->|Hne].
  - rewrite lookup_alter_eq. destruct (page !! x) as [m|]; [|reflexivity].
    cbn. unfold getAttribute. by rewrite Hg.
  - by rewrite lookup_alter_ne.
Qed.

Lemma ariaOf_alter_set (page : gmap string Modal) (f : Element → Element) value id x :
  (∀ e, attrs (f e) = attrs e) →
  ariaOf (alter (Modals.withEl (λ e, setAttribute "aria-hidden" value (f e))) id page) x
  = if decide (id = x) then (λ _, value) <$> page !! x else ariaOf page x.
Proof.
  intros Hf. unfold ariaOf. destruct (decide (id = x)) as [->|Hne].
  - rewrite lookup_alter_eq. destruct (page !! x) as [m|]; [|reflexivity].
    cbn. unfold getAttribute. cbn. by rewrite lookup_insert_eq.
  - by rewrite lookup_alter_ne.
Qed.

Lemma ariaHidden_setupFocusTrap id x w :
  ariaHidden x (setupFocusTrap id w) = ariaHidden x w.
Proof.
  unfold setupFocusTrap.
  destruct (negb (focusTrap (config w))); [reflexivity|].
  destruct (modals w !! id) as [m|] eqn:Hm; [|reflexivity].
  destruct (focusable m =? 0)%nat; [reflexivity|].
  unfold ariaHidden, ariaOf. cbn [modals].
  destruct (decide (id = x)) as [->|Hne].
  - rewrite lookup_insert_eq, Hm. reflexivity.
  - by rewrite lookup_insert_ne.
Qed.

Lemma is_Some_setupFocusTrap id x w :
  is_Some (modals (setupFocusTrap id w) !! x) ↔ is_Some (modals w !! x).
Proof.
  unfold setupFocusTrap.
  destruct (negb (focusTrap (config w))); [reflexivity|].
  destruct (modals w !! id) as [m|] eqn:Hm; [|reflexivity].
  destruct (focusable m =? 0)%nat; [reflexivity|].
  cbn [modals]. destruct (decide (id = x)) as [->|Hne].
  - rewrite lookup_insert_eq, Hm. split; eauto.
  - by rewrite lookup_insert_ne.
Qed.

Lemma setupFocusTrap_state id w :
  activeModal (setupFocusTrap id w) = activeModal w ∧
  previousFocus (setupFocusTrap id w) = previousFocus w ∧
  activeElement (setupFocusTrap id w) = activeElement w.
Proof.
  unfold setupFocusTrap.
  destruct (negb (focusTrap (config w))); [done|].
  destruct (modals w !! id) as [m|]; [|done].
  destruct (focusable m =? 0)%nat; done.
Qed.

Lemma ariaHidden_openModal x id w :
  ariaHidden x (openModal id w) = ariaHidden x w.
Proof. unfold ariaHidden, openModal. cbn [modals]. by apply ariaOf_alter. Qed.

Lemma ariaHidden_animationFrame x id w :
  ariaHidden x (animationFrame id w) = ariaHidden x w.
Proof. unfold ariaHidden, animationFrame. cbn [modals]. by apply ariaOf_alter. Qed.

Lemma consistent_init page focused : consistent (init page focused).
Proof.
  split; [|split]; cbn; [| discriminate | reflexivity].
  intros id. unfold ariaHidden, ariaOf. cbn. rewrite lookup_fmap.
  destruct (page !! id) as [m|]; [|discriminate]. cbn.
  unfold getAttribute, setupAccessibility. cbn.
  rewrite lookup_insert_ne by done. rewrite lookup_insert_eq. discriminate.
Qed.

(** Opening from the idle module. *)
Lemma consistent_openModal id w :
  consistent w → activeModal w = None → is_Some (modals w !! id) →
  consistent (openModal id w).
Proof.
  intros (Haria & Hpage & Hsusp) Hidle Hid.
  assert (Hnone : ∀ x, ariaHidden x (openModal id w) ≠ Some "false").
  { intros x. rewrite ariaHidden_openModal.
    intros Hx. apply Haria in Hx. congruence. }
  split; [|split].
  - intros x Hx. by apply Hnone in Hx.
  - cbn. intros x [= <-]. by apply lookup_alter_is_Some.
  - cbn [suspended openModal]. split; [done|]. split; [done|]. apply Hnone.
Qed.

Lemma consistent_closeThen thenOpen w :
  consistent w → (∀ id, thenOpen = Some id → is_Some (modals w !! id)) →
  isAnimating w = false →
  consistent (closeThen thenOpen w).
Proof.
  intros Hw Hthen Hidle. unfold closeThen.
  destruct (activeModal w) as [modal|] eqn:Hactive.
  - rewrite Hidle. destruct Hw as (Haria & Hpage & Hsusp).
    split; [|split].
    + intros x. unfold ariaHidden. cbn [modals activeModal].
      rewrite ariaOf_alter by reflexivity. rewrite <- Hactive. apply Haria.
    + cbn. intros x Hx. apply lookup_alter_is_Some, Hpage. congruence.
    + cbn. split; [done|]. split; [done|].
      intros id Hid. by apply lookup_alter_is_Some, Hthen.
  - destruct thenOpen as [id|]; [|exact Hw]. cbn.
    apply consistent_openModal; eauto.
Qed.

Lemma consistent_finishClose modal w :
  consistent w → suspended w = Some (Closing modal None) ∨
                 (∃ id, suspended w = Some (Closing modal (Some id))) →
  consistent (finishClose modal w) ∧
  (∀ x, ariaHidden x (finishClose modal w) ≠ Some "false").
Proof.
  intros (Haria & Hpage & Hsusp) Hclosing.
  assert (Hactive : activeModal w = Some modal).
  { destruct Hclosing as [Hc|[id Hc]]; rewrite Hc in Hsusp; apply Hsusp. }
  assert (Hnone : ∀ x, ariaHidden x (finishClose modal w) ≠ Some "false").
  { intros x. unfold ariaHidden, finishClose. cbn [modals].
    rewrite (ariaOf_alter_set _
      (λ e, setStyle "transform" "" (setStyle "transition" "" (setStyle "display" "none" e))))
      by reflexivity.
    destruct (decide (modal = x)) as [->|Hne].
    - destruct (modals w !! x); discriminate.
    - intros Hx. apply Haria in Hx. congruence. }
  split; [|exact Hnone].
  split; [|split].
  - intros x Hx. by apply Hnone in Hx.
  - cbn. discriminate.
  - reflexivity.
Qed.

Lemma consistent_resume w : consistent w → consistent (resume w).
Proof.
  intros Hw. unfold resume.
  destruct (suspended w) as [[modal thenOpen|id|id]|] eqn:Hs; [| | |exact Hw].
  - destruct (consistent_finishClose modal w Hw) as [Hclosed Hnone].
    { destruct thenOpen; eauto. }
    destruct thenOpen as [id|]; [|exact Hclosed]. cbn [continue].
    assert (Hid : is_Some (modals w !! id)).
    { destruct Hw as (_ & _ & Hsusp). rewrite Hs in Hsusp. by apply Hsusp. }
    destruct Hclosed as (Haria & Hpage & Hsusp).
    split; [|split].
    + intros x. rewrite ariaHidden_openModal. intros Hx. by apply Hnone in Hx.
    + cbn. intros x [= <-]. by rewrite !lookup_alter_is_Some.
    + cbn [suspended openModal]. split; [done|]. split; [done|].
      rewrite ariaHidden_openModal. apply Hnone.
  - destruct Hw as (Haria & Hpage & Hsusp). rewrite Hs in Hsusp.
    destruct Hsusp as (Hanim & Hactive & Hhidden).
    split; [|split].
    + intros x. rewrite ariaHidden_animationFrame. apply Haria.
    + cbn. intros x Hx. apply lookup_alter_is_Some, Hpage, Hx.
    + cbn [suspended animationFrame]. split; [done|]. split; [done|].
      by rewrite ariaHidden_animationFrame.
  - destruct Hw as (Haria & Hpage & Hsusp). rewrite Hs in Hsusp.
    destruct Hsusp as (Hanim & Hactive & Hhidden).
    destruct (setupFocusTrap_state id w) as (Htrap & _).
    split; [|split].
    + intros x. unfold ariaHidden, finishOpen, focus, withModal.
      cbn [modals activeModal]. rewrite Htrap, Hactive.
      rewrite (ariaOf_alter_set _ (λ e, e)) by reflexivity.
      destruct (decide (id = x)) as [->|Hne]; [done|].
      intros Hx. change (ariaHidden x (setupFocusTrap id w) = Some "false") in Hx.
      rewrite ariaHidden_setupFocusTrap in Hx. apply Haria in Hx. congruence.
    + unfold finishOpen, focus, withModal. cbn [modals activeModal].
      rewrite Htrap. intros x Hx.
      apply lookup_alter_is_Some, is_Some_setupFocusTrap, Hpage, Hx.
    + reflexivity.
Qed.

Lemma consistent_close w : consistent w → consistent (close w).
Proof.
  intros Hw. unfold close, closeThen.
  destruct (activeModal w) eqn:Hactive; [|exact Hw].
  destruct (isAnimating w) eqn:Hanim; [exact Hw|].
  pose proof (consistent_closeThen None w Hw) as Hc.
  unfold closeThen in Hc. rewrite Hactive, Hanim in Hc. apply Hc; [discriminate|done].
Qed.

Lemma consistent_open id w : consistent w → consistent (open id w).
Proof.
  intros Hw. unfold open.
  destruct (isAnimating w) eqn:Hanim; [exact Hw|].
  destruct (modals w !! id) as [m|] eqn:Hm; [|exact Hw].
  destruct (activeModal w) eqn:Hactive.
  - apply consistent_closeThen; [exact Hw| |exact Hanim].
    intros x [= <-]. eauto.
  - apply consistent_openModal; eauto.
Qed.

Lemma consistent_step ev w : consistent w → consistent (step ev w).
Proof.
  intros Hw. destruct ev; cbn [step].
  - by apply consistent_open.
  - by apply consistent_close.
  - by apply consistent_resume.
  - unfold handleKeydown. destruct (activeModal w); [|exact Hw].
    destruct (_ && _); [by apply consistent_close | exact Hw].
  - unfold handleBackdropClick. destruct (activeModal w); [|exact Hw].
    destruct (_ || _); [by apply consistent_close | exact Hw].
  - unfold handleTabKey. destruct (modals w !! modalId) as [m|]; [|exact Hw].
    destruct (negb (focusTrapHandler m)); [exact Hw|].
    destruct shiftKey; case_bool_decide; exact Hw.
  - unfold focusTimer. destruct (focusTimers w); exact Hw.
  - exact Hw.
  - exact Hw.
Qed.

Lemma reachable_consistent w : reachable w → consistent w.
Proof.
  induction 1 as [page focused|ev w _ IH];
    [apply consistent_init | by apply consistent_step].
Qed.

Lemma reachable_run evs w : reachable w → reachable (run evs w).
Proof.
  revert w. induction evs as [|ev evs IH]; intros w Hw; [exact Hw|].
  cbn. apply IH. by constructor.
Qed.


Lemma display_openModal id w :
  is_Some (modals w !! id) → display id (openModal id w) = Some "flex".
Proof.
  intros [m Hm]. unfold display, openModal. cbn [modals].
  rewrite lookup_alter_eq, Hm. cbn. unfold getStyle. cbn.
  rewrite !lookup_insert_ne by done. apply lookup_insert_eq.
Qed.

Lemma ariaHidden_finishOpen id w :
  is_Some (modals w !! id) → ariaHidden id (finishOpen id w) = Some "false".
Proof.
  intros Hid. apply (is_Some_setupFocusTrap id id w) in Hid as [m Hm].
  unfold ariaHidden, ariaOf, finishOpen, focus, withModal. cbn [modals].
  rewrite lookup_alter_eq, Hm. cbn. apply getAttribute_setAttribute.
Qed.

(** C1: in every reachable state at most one modal has
    [aria-hidden="false"].  An [open(b)] made while a modal [a] is active
    first starts the close of [a] and waits for it, touching no other
    modal; when the close animation is over, the close of [a] runs to its
    end ([a] gets [aria-hidden="true"] and [display: none], no modal is
    active or marked shown any more) and only then [b] is prepared and
    displayed, to be marked [aria-hidden="false"] at the end of its own
    animation. *)
Theorem one_modal_at_a_time (w : World) :
  reachable w →
  (∀ i j, ariaHidden i w = Some "false" → ariaHidden j w = Some "false" → i = j)
  ∧
  (∀ a b, activeModal w = Some a → isAnimating w = false →
     is_Some (modals w !! b) →
     suspended (open b w) = Some (Closing a (Some b)) ∧
     (∀ x, ariaHidden x (open b w) = ariaHidden x w) ∧
     (∀ x, x ≠ a → modals (open b w) !! x = modals w !! x))
  ∧
  (∀ a b, suspended w = Some (Closing a (Some b)) →
     let closed := finishClose a w in
     (resume w = openModal b closed ∧
      ariaHidden a closed = Some "true" ∧
      display a closed = Some "none" ∧
      activeModal closed = None ∧
      isAnimating closed = false ∧
      (∀ x, ariaHidden x closed ≠ Some "false") ∧
      (∀ x, x ≠ a → modals closed !! x = modals w !! x) ∧
      activeModal (resume w) = Some b ∧
      display b (resume w) = Some "flex" ∧
      ariaHidden b (resume (resume (resume w))) = Some "false")).
Proof.
  intros Hreach. pose proof (reachable_consistent w Hreach) as Hw.
  split; [|split].
  - destruct Hw as (Haria & _). intros i j Hi Hj.
    apply Haria in Hi, Hj. congruence.
  - intros a b Hactive Hidle [m Hm]. unfold open. rewrite Hidle, Hm, Hactive.
    unfold closeThen. rewrite Hactive, Hidle.
    split; [reflexivity|]. split.
    + intros x. unfold ariaHidden. cbn [modals]. by apply ariaOf_alter.
    + intros x Hx. cbn [modals]. by apply lookup_alter_ne.
  - intros a b Hs. cbn zeta.
    destruct (consistent_finishClose a w Hw) as [Hclosed Hnone]; [eauto|].
    destruct Hw as (_ & Hpage & Hsusp). rewrite Hs in Hsusp.
    destruct Hsusp as (Hanim & Hactive & Hthen).
    destruct (Hpage a Hactive) as [ma Hma].
    assert (Hb : is_Some (modals (finishClose a w) !! b)).
    { unfold finishClose. cbn [modals]. apply lookup_alter_is_Some. by apply Hthen. }
    assert (Hresume : resume w = openModal b (finishClose a w)).
    { unfold resume. rewrite Hs. reflexivity. }
    split; [exact Hresume|].
    split.
    { unfold ariaHidden, ariaOf, finishClose. cbn [modals].
      rewrite lookup_alter_eq, Hma. cbn. apply getAttribute_setAttribute. }
    split.
    { unfold display, finishClose. cbn [modals].
      rewrite lookup_alter_eq, Hma. cbn. unfold getStyle. cbn.
      rewrite !lookup_insert_ne by done. apply lookup_insert_eq. }
    split; [reflexivity|]. split; [reflexivity|].
    split; [exact Hnone|].
    split.
    { intros x Hx. unfold finishClose. cbn [modals]. by apply lookup_alter_ne. }
    rewrite Hresume.
    split; [reflexivity|].
    split; [by apply display_openModal|].
    assert (Hframe : resume (openModal b (finishClose a w))
                     = animationFrame b (openModal b (finishClose a w))) by reflexivity.
    rewrite Hframe.
    assert (Hend : resume (animationFrame b (openModal b (finishClose a w)))
                   = finishOpen b (animationFrame b (openModal b (finishClose a w))))
      by reflexivity.
    rewrite Hend. apply ariaHidden_finishOpen.
    unfold animationFrame, openModal. cbn [modals].
    by rewrite !lookup_alter_is_Some.
Qed.

(** *** Focus *)






(** An [open] that had to close another modal records the focus it finds
    once that close has given the focus back. *)
Lemma open_after_close_records_restored_focus w a b :
  suspended w = Some (Closing a (Some b)) →
  previousFocus (resume w) = activeElement (finishClose a w) ∧
  ∀ node, previousFocus w = Some node → previousFocus (resume w) = Some node.
Proof.
  intros Hs. unfold resume. rewrite Hs. cbn. split; [reflexivity|].
  by intros node ->.
Qed.


End ModalsFacts.

Section ModalsExamples.
Import Dom Modals Samples.

Example newsletter_shown :
  ariaHidden "newsletter-modal" modalsNewsletterOpen = Some "false" ∧
  ariaHidden "community-modal" modalsNewsletterOpen = Some "true" ∧
  previousFocus modalsNewsletterOpen = Some (Outside 1).
Proof. vm_compute. repeat split. Qed.

Example community_shown_alone :
  let w := run [Open "community-modal"; Resume; Resume; Resume] modalsNewsletterOpen in
  ariaHidden "newsletter-modal" w = Some "true" ∧
  display "newsletter-modal" w = Some "none" ∧
  ariaHidden "community-modal" w = Some "false" ∧
  activeModal w = Some "community-modal".
Proof. vm_compute. repeat split. Qed.

Lemma reachable_modalsNewsletterOpen : reachable modalsNewsletterOpen.
Proof. apply reachable_run, reachable_init. Qed.

Lemma one_modal_at_a_time_witness :
  reachable modalsNewsletterOpen ∧
  (∀ j, ariaHidden j modalsNewsletterOpen = Some "false" → j = "newsletter-modal") ∧
  suspended (open "community-modal" modalsNewsletterOpen)
    = Some (Closing "newsletter-modal" (Some "community-modal")) ∧
  ariaHidden "newsletter-modal"
    (finishClose "newsletter-modal" (open "community-modal" modalsNewsletterOpen))
    = Some "true".
Proof.
  pose proof reachable_modalsNewsletterOpen as Hreach.
  destruct (one_modal_at_a_time modalsNewsletterOpen Hreach) as (Hone & Hopen & _).
  assert (Hidle : activeModal modalsNewsletterOpen = Some "newsletter-modal" ∧
                  isAnimating modalsNewsletterOpen = false ∧
                  ariaHidden "newsletter-modal" modalsNewsletterOpen = Some "false").
  { vm_compute. repeat split. }
  destruct Hidle as (Hactive & Hidle & Hshown).
  assert (Hpage : is_Some (modals modalsNewsletterOpen !! "community-modal")).
  { apply (bool_decide_unpack _). vm_compute. exact I. }
  destruct (Hopen "newsletter-modal" "community-modal" Hactive Hidle Hpage)
    as (Hclosing & _).
  split; [exact Hreach|].
  split; [intros j Hj; exact (Hone j "newsletter-modal" Hj Hshown)|].
  split; [exact Hclosing|].
  assert (Hreach' : reachable (open "community-modal" modalsNewsletterOpen)).
  { exact (reachable_step (Open "community-modal") _ Hreach). }
  destruct (one_modal_at_a_time _ Hreach') as (_ & _ & Hclose).
  exact (proj1 (proj2 (Hclose _ _ Hclosing))).
Defined.



End ModalsExamples.

(** ** Navigation controller *)

Section NavigationFacts.
Import Dom Navigation Samples.

Lemma scan_app probe before after :
  foldl (λ activeSection section,
      if inBand probe section then sectionId section else activeSection)
    "home" (before ++ after)
  = foldl (λ activeSection section,
      if inBand probe section then sectionId section else activeSection)
    (scan probe before) after.
Proof. unfold scan. apply foldl_app. Qed.

Lemma scan_outside probe (start : string) (sections : list Section) :
  (∀ section, section ∈ sections → inBand probe section = false) →
  foldl (λ activeSection section,
      if inBand probe section then sectionId section else activeSection)
    start sections = start.
Proof.
  revert start. induction sections as [|section rest IH]; intros start Hout;
    [reflexivity|].
  cbn. rewrite Hout by apply list_elem_of_here. apply IH.
  intros s Hs. apply Hout. by apply list_elem_of_further.
Qed.

(** The scan yields the last section whose band holds the probe. *)
Lemma scan_last probe before section after :
  inBand probe section = true →
  (∀ later, later ∈ after → inBand probe later = false) →
  scan probe (before ++ section :: after) = sectionId section.
Proof.
  intros Hin Hafter. unfold scan at 1. rewrite scan_app. cbn. rewrite Hin.
  by apply scan_outside.
Qed.

Lemma scan_default probe sections :
  (∀ section, section ∈ sections → inBand probe section = false) →
  scan probe sections = "home".
Proof. apply scan_outside. Qed.

(** What [setActiveNavLink] leaves on each link. *)
Lemma markLinks_spec id links link :
  link ∈ markLinks ("#" +:+ id) links →
  contains "active" link = targets id link ∧
  bool_decide (getAttribute "aria-current" link = Some "page") = targets id link.
Proof.
  unfold markLinks. intros Hlink.
  apply list_elem_of_fmap in Hlink as (link0 & -> & _).
  set (isActive := bool_decide (getAttribute "href" link0 = Some ("#" +:+ id))).
  assert (Htargets : targets id
    (setAttribute "aria-current" (if isActive then "page" else "false")
       (toggle "active" isActive link0)) = isActive).
  { unfold targets. rewrite getAttribute_setAttribute_ne by done.
    unfold getAttribute. rewrite attrs_toggle. reflexivity. }
  rewrite Htargets. split.
  - unfold contains. cbn [classList setAttribute].
    exact (contains_toggle "active" isActive link0).
  - rewrite getAttribute_setAttribute. destruct isActive; reflexivity.
Qed.

Lemma agree_marked id links :
  (∀ link, link ∈ links →
     contains "active" link = targets id link ∧
     bool_decide (getAttribute "aria-current" link = Some "page") = targets id link) →
  List.filter isMarked links = List.filter (targets id) links.
Proof.
  induction links as [|link rest IH]; intros Hagree; [reflexivity|].
  cbn. destruct (Hagree link) as [Hclass Haria]; [apply list_elem_of_here|].
  unfold isMarked at 1. rewrite Hclass, Haria, andb_diag.
  rewrite IH; [reflexivity|]. intros l Hl. apply Hagree.
  by apply list_elem_of_further.
Qed.

(** C3, on the probe: the active section is the last section whose band
    holds [scrollY + sectionOffset + 50], and "home" when no band holds
    it.  If the update changed the active section, or the links agreed
    with it before, then afterwards a link has the active class and
    [aria-current="page"] exactly when it points to the active section,
    any other link has neither, and as many links are marked as point to
    the active section: exactly one when one link points to it. *)
Theorem updateActiveSection_probe (w : World) :
  let w' := updateActiveSection w in
  (∀ before section after,
     sections w = before ++ section :: after →
     inBand (probe w) section = true →
     (∀ later, later ∈ after → inBand (probe w) later = false) →
     activeSection (state w') = sectionId section)
  ∧
  ((∀ section, section ∈ sections w → inBand (probe w) section = false) →
   activeSection (state w') = "home")
  ∧
  (activeSection (state w') ≠ activeSection (state w) ∨ linksAgree w →
   linksAgree w' ∧
   (∀ link, link ∈ navLinks w' →
      if targets (activeSection (state w')) link
      then isMarked link = true else isUnmarked link = true) ∧
   marked (navLinks w') = pointing (activeSection (state w')) (navLinks w') ∧
   (pointing (activeSection (state w')) (navLinks w') = 1%nat →
    marked (navLinks w') = 1%nat)).
Proof.
  cbn zeta.
  assert (Hactive : activeSection (state (updateActiveSection w))
                    = scan (probe w) (sections w)).
  { unfold updateActiveSection. case_bool_decide as Hchanged; [reflexivity|].
    by rewrite Hchanged. }
  split; [|split].
  - intros before section after Hsections Hin Hafter.
    rewrite Hactive, Hsections. by apply scan_last.
  - intros Hout. rewrite Hactive. by apply scan_default.
  - intros Hcase.
    assert (Hagree : linksAgree (updateActiveSection w)).
    { unfold updateActiveSection in *. case_bool_decide as Hchanged.
      - intros link Hlink. cbn in Hlink |- *. by apply markLinks_spec in Hlink.
      - destruct Hcase as [Hne|Hagree]; [by destruct Hne|exact Hagree]. }
    split; [exact Hagree|].
    assert (Hcount : marked (navLinks (updateActiveSection w))
      = pointing (activeSection (state (updateActiveSection w)))
          (navLinks (updateActiveSection w))).
    { unfold marked, pointing. f_equal. by apply agree_marked. }
    split; [|split; [exact Hcount | by rewrite Hcount]].
    intros link Hlink. destruct (Hagree link Hlink) as [Hclass Haria].
    unfold isMarked, isUnmarked. rewrite Hclass, Haria.
    by destruct (targets _ link).
Qed.

(** C3 as stated fails: with [scrollY] at 580, strictly inside the band
    of "home", the probe is at 710, inside the band of "about", which
    becomes the active section. *)
Lemma scrollY_inside_home_activates_about :
  let w := navigationAt 580 in
  (∃ home, sections w !! 0%nat = Some home ∧ sectionId home = "home" ∧
     (offsetTop home < scrollY w < offsetTop home + offsetHeight home)%Z) ∧
  activeSection (state (updateActiveSection w)) = "about" ∧
  activeSection (state (updateActiveSection w)) ≠ "home".
Proof.
  cbn zeta. split.
  - eexists. split; [reflexivity|]. split; [reflexivity|]. cbn. lia.
  - assert (Habout : activeSection (state (updateActiveSection (navigationAt 580)))
                     = "about") by (vm_compute; reflexivity).
    split; [exact Habout|]. rewrite Habout. discriminate.
Qed.

Lemma updateActiveSection_probe_witness :
  let w := navigationAt 580 in
  (∃ before section after,
     sections w = before ++ section :: after ∧
     inBand (probe w) section = true ∧
     (∀ later, later ∈ after → inBand (probe w) later = false) ∧
     activeSection (state (updateActiveSection w)) = sectionId section) ∧
  activeSection (state (updateActiveSection w)) ≠ activeSection (state w) ∧
  marked (navLinks (updateActiveSection w)) = 1%nat.
Proof.
  cbn zeta.
  destruct (updateActiveSection_probe (navigationAt 580)) as (Hlast & _ & Hlinks).
  assert (Hafter : ∀ later,
    later ∈ [{| offsetTop := 1200; offsetHeight := 600; sectionId := "services" |}] →
    inBand (probe (navigationAt 580)) later = false).
  { intros later Hlater. apply elem_of_cons in Hlater as [->|Hlater]; [reflexivity|].
    by apply elem_of_nil in Hlater. }
  pose proof (Hlast
    [{| offsetTop := 0; offsetHeight := 600; sectionId := "home" |}]
    {| offsetTop := 600; offsetHeight := 600; sectionId := "about" |}
    [{| offsetTop := 1200; offsetHeight := 600; sectionId := "services" |}]
    eq_refl eq_refl Hafter) as Habout.
  split.
  - exists [{| offsetTop := 0; offsetHeight := 600; sectionId := "home" |}],
      {| offsetTop := 600; offsetHeight := 600; sectionId := "about" |},
      [{| offsetTop := 1200; offsetHeight := 600; sectionId := "services" |}].
    split; [reflexivity|]. split; [reflexivity|].
    split; [exact Hafter | exact Habout].
  - assert (Hchanged : activeSection (state (updateActiveSection (navigationAt 580)))
                       ≠ activeSection (state (navigationAt 580))).
    { rewrite Habout. discriminate. }
    split; [exact Hchanged|].
    destruct (Hlinks (or_introl Hchanged)) as (_ & _ & _ & Hone).
    apply Hone. rewrite Habout. vm_compute. reflexivity.
Defined.

End NavigationFacts.

(** ** Mobile-menu controller *)

Section MobileMenuFacts.
Import Dom MobileMenu Samples.

Lemma toggle_while_animating w :
  isAnimating (state w) = true → toggle w = w.
Proof.
  intros Hanim. unfold toggle, open, close. rewrite Hanim.
  destruct (isOpen (state w)); reflexivity.
Qed.

Lemma toggle_starts_or_skips w :
  toggle w = w ∨ isAnimating (state (toggle w)) = true.
Proof.
  unfold toggle, open, close.
  destruct (isOpen (state w)), (isAnimating (state w)), (isMobile (state w));
    cbn; auto.
Qed.

(** C8: [open()] does nothing when the menu is open, animating or not
    in mobile mode; [close()] does nothing when the menu is closed or
    animating; [toggle()] does nothing while the menu animates, so that
    after a toggle that started a transition any number of further
    toggles leave the state as it is, until the transition completes. *)
Theorem menu_reentrancy (w : World) :
  (isOpen (state w) = true ∨ isAnimating (state w) = true ∨
   isMobile (state w) = false → open w = w)
  ∧
  (∀ animate, isOpen (state w) = false ∨ isAnimating (state w) = true →
     close animate w = w)
  ∧
  (isAnimating (state w) = true → toggle w = w)
  ∧
  (isAnimating (state (toggle w)) = true →
     toggle (toggle w) = toggle w ∧
     ∀ n, Nat.iter n toggle (toggle w) = toggle w)
  ∧
  (isAnimating (state w) = false → toggle w ≠ w →
     isAnimating (state (toggle w)) = true ∧
     isOpen (state (toggle w)) = negb (isOpen (state w)) ∧
     isAnimating (state (resume (resume (toggle w)))) = false ∧
     isOpen (state (resume (resume (toggle w)))) = negb (isOpen (state w))).
Proof.
  split; [|split; [|split; [|split]]].
  - intros Hguard. unfold open.
    destruct Hguard as [-> | [-> | ->] ];
      destruct (isOpen (state w)), (isAnimating (state w)); reflexivity.
  - intros animate Hguard. unfold close.
    destruct Hguard as [-> | ->]; destruct (isOpen (state w)); reflexivity.
  - apply toggle_while_animating.
  - intros Hanim. split; [by apply toggle_while_animating|].
    induction n as [|n IH]; [reflexivity|].
    change (toggle (Nat.iter n toggle (toggle w)) = toggle w).
    rewrite IH. by apply toggle_while_animating.
  - intros Hidle Hmoved. unfold toggle, open, close in *. rewrite Hidle in *.
    destruct (isOpen (state w)) eqn:Hopen; cbn in *.
    + repeat split.
    + destruct (isMobile (state w)); cbn in *; [|by destruct Hmoved].
      repeat split.
Qed.

Lemma menu_reentrancy_witness :
  isAnimating (state menuClosed) = false ∧
  isAnimating (state (toggle menuClosed)) = true ∧
  isOpen (state (toggle menuClosed)) = true ∧
  toggle (toggle menuClosed) = toggle menuClosed ∧
  open (toggle menuClosed) = toggle menuClosed ∧
  close true (toggle menuClosed) = toggle menuClosed ∧
  isAnimating (state (resume (resume (toggle menuClosed)))) = false ∧
  isOpen (state (resume (resume (toggle menuClosed)))) = true.
Proof.
  assert (Hidle : isAnimating (state menuClosed) = false) by reflexivity.
  assert (Hanim : isAnimating (state (toggle menuClosed)) = true) by reflexivity.
  destruct (menu_reentrancy (toggle menuClosed)) as (Hopen & Hclose & _ & _).
  destruct (menu_reentrancy menuClosed) as (_ & _ & _ & Htwice & Hfirst).
  assert (Hmoved : toggle menuClosed ≠ menuClosed).
  { intros Heq. rewrite Heq in Hanim. rewrite Hidle in Hanim. discriminate. }
  destruct (Hfirst Hidle Hmoved) as (_ & Hnow & Hdone & Hthen).
  split; [exact Hidle|]. split; [exact Hanim|]. split; [exact Hnow|].
  split; [exact (proj1 (Htwice Hanim))|].
  split; [exact (Hopen (or_intror (or_introl Hanim)))|].
  split; [exact (Hclose true (or_intror Hanim))|].
  split; [exact Hdone | exact Hthen].
Defined.

End MobileMenuFacts.

(** ** Community-join endpoint *)

Section ServerFacts.
Import Server Samples.



Example array_email_matches :
  RegExp.test RegExp.emailRegex <$> ToString (JArray [JString "a@b.co"]) = Some true.
Proof. vm_compute. reflexivity. Qed.

Example nested_toString_throws :
  ToString (JArray [JString "a@b.co"; JObject [("toString", JNull)]]) = None ∧
  ToString (JObject [("valueOf", JNull)]) = Some "[object Object]".
Proof. vm_compute. split; reflexivity. Qed.

End ServerFacts.

(** * Further properties *)

(** ** Patterns *)

Section RegExpFacts.
Import RegExp.

Lemma append_empty_r (s : string) : s +:+ "" = s.
Proof.
  induction s as [|c s IH]; [reflexivity|].
  change (String c (s +:+ "") = String c s). by rewrite IH.
Qed.

Lemma append_assoc (s1 s2 s3 : string) : (s1 +:+ s2) +:+ s3 = s1 +:+ s2 +:+ s3.
Proof.
  induction s1 as [|c s1 IH]; [reflexivity|].
  change (String c ((s1 +:+ s2) +:+ s3) = String c (s1 +:+ s2 +:+ s3)).
  by rewrite IH.
Qed.

Lemma append_empty (s1 s2 : string) : s1 +:+ s2 = "" → s1 = "" ∧ s2 = "".
Proof. destruct s1; [done|discriminate]. Qed.

Lemma matches_empty_nullable r s : matches r s → s = "" → nullable r = true.
Proof.
  induction 1 as [|p c Hp|r1 r2 s1 s2 _ IH1 _ IH2|r1 r2 s _ IH|r1 r2 s _ IH| |];
    intros Hs; cbn; try reflexivity.
  - discriminate.
  - apply append_empty in Hs as [-> ->]. by rewrite IH1, IH2.
  - by rewrite IH.
  - rewrite IH by done. apply orb_true_r.
Qed.

Lemma nullable_matches_empty r : nullable r = true → matches r "".
Proof.
  induction r as [| |p|r1 IH1 r2 IH2|r1 IH1 r2 IH2|r IH]; cbn; intros Hn.
  - discriminate.
  - constructor.
  - discriminate.
  - apply andb_true_iff in Hn as [H1 H2].
    change "" with ("" +:+ ""). constructor; auto.
  - apply orb_true_iff in Hn as [H1|H2];
      [apply matches_alt_l | apply matches_alt_r]; auto.
  - constructor.
Qed.

Lemma deriv_sound c r s : matches (deriv c r) s → matches r (String c s).
Proof.
  revert s.
  induction r as [| |p|r1 IH1 r2 IH2|r1 IH1 r2 IH2|r IH]; cbn; intros s Hs.
  - inversion Hs.
  - inversion Hs.
  - destruct (p c) eqn:Hp; inversion Hs; subst. by constructor.
  - destruct (nullable r1) eqn:Hn.
    + inversion Hs as [| | | ? ? ? Hl | ? ? ? Hr | |]; subst.
      * inversion Hl as [| |? ? s1 s2 H1 H2| | | |]; subst.
        change (String c (s1 +:+ s2)) with (String c s1 +:+ s2).
        constructor; auto.
      * change (String c s) with ("" +:+ String c s).
        constructor; [by apply nullable_matches_empty | auto].
    + inversion Hs as [| |? ? s1 s2 H1 H2| | | |]; subst.
      change (String c (s1 +:+ s2)) with (String c s1 +:+ s2).
      constructor; auto.
  - inversion Hs; subst; [apply matches_alt_l | apply matches_alt_r]; auto.
  - inversion Hs as [| |? ? s1 s2 H1 H2| | | |]; subst.
    change (String c (s1 +:+ s2)) with (String c s1 +:+ s2).
    constructor; auto.
Qed.

Lemma deriv_complete r t :
  matches r t → ∀ c s, t = String c s → matches (deriv c r) s.
Proof.
  induction 1 as [|p c' Hp|r1 r2 s1 s2 H1 IH1 H2 IH2|r1 r2 t H IH|r1 r2 t H IH
                  |r|r s1 s2 H1 IH1 H2 IH2];
    intros c s Ht; cbn.
  - discriminate.
  - injection Ht as -> <-. rewrite Hp. constructor.
  - destruct s1 as [|c1 s1'].
    + cbn in Ht. rewrite (matches_empty_nullable r1 "" H1 eq_refl).
      apply matches_alt_r. by apply IH2.
    + cbn in Ht. injection Ht as -> <-.
      assert (Hcat : matches (Cat (deriv c r1) r2) (s1' +:+ s2)).
      { constructor; [by apply IH1 | exact H2]. }
      destruct (nullable r1); [by apply matches_alt_l | exact Hcat].
  - apply matches_alt_l. by apply IH.
  - apply matches_alt_r. by apply IH.
  - discriminate.
  - destruct s1 as [|c1 s1'].
    + cbn in Ht. exact (IH2 c s Ht).
    + cbn in Ht. injection Ht as -> <-.
      constructor; [by apply IH1 | exact H2].
Qed.

(** The matcher decides the language of the pattern. *)
Lemma test_matches r s : test r s = true ↔ matches r s.
Proof.
  revert r. induction s as [|c s IH]; intros r; cbn.
  - split; [apply nullable_matches_empty|].
    intros H. by eapply matches_empty_nullable.
  - rewrite IH. split; [apply deriv_sound|].
    intros H. by eapply deriv_complete.
Qed.

Lemma matches_char c s : matches (Char c) s ↔ s = String c "".
Proof.
  unfold Char. split.
  - inversion 1 as [|? c' Hc| | | | |]; subst.
    apply Ascii.eqb_eq in Hc. by subst.
  - intros ->. constructor. apply Ascii.eqb_refl.
Qed.

Lemma matches_star_word s :
  matches (Star (Class not_space_at)) s ↔ allNotSpaceAt s = true.
Proof.
  split.
  - intros H. remember (Star (Class not_space_at)) as r eqn:Hr.
    induction H as [| | | | | |r s1 s2 H1 _ H2 IH2]; try discriminate; [reflexivity|].
    injection Hr as ->. inversion H1 as [|? c Hc| | | | |]; subst.
    change (String c "" +:+ s2) with (String c s2).
    cbn [allNotSpaceAt]. rewrite Hc. by apply IH2.
  - induction s as [|c s IH]; cbn [allNotSpaceAt]; intros H; [constructor|].
    apply andb_true_iff in H as [Hc Hs].
    change (String c s) with (String c "" +:+ s).
    constructor; [by constructor | auto].
Qed.

Lemma matches_plus_word s : matches (Plus (Class not_space_at)) s ↔ word s.
Proof.
  unfold Plus, word. split.
  - inversion 1 as [| |? ? s1 s2 H1 H2| | | |]; subst.
    inversion H1 as [|? c Hc| | | | |]; subst.
    apply matches_star_word in H2.
    change (String c "" +:+ s2) with (String c s2).
    cbn [allNotSpaceAt]. rewrite Hc, H2. done.
  - intros [Hne Hall]. destruct s as [|c s]; [done|].
    cbn [allNotSpaceAt] in Hall. apply andb_true_iff in Hall as [Hc Hs].
    change (String c s) with (String c "" +:+ s).
    constructor; [by constructor | by apply matches_star_word].
Qed.

Lemma matches_emailRegex s : matches emailRegex s ↔ emailShape s.
Proof.
  unfold emailRegex, emailShape. split.
  - inversion 1 as [| |? ? local s2 Hlocal H2| | | |]; subst.
    inversion H2 as [| |? ? at_ s3 Hat H3| | | |]; subst.
    inversion H3 as [| |? ? domain s4 Hdomain H4| | | |]; subst.
    inversion H4 as [| |? ? dot tail Hdot Htail| | | |]; subst.
    apply matches_char in Hat, Hdot. subst.
    exists local, domain, tail.
    split; [reflexivity|]. by rewrite <- !matches_plus_word.
  - intros (local & domain & tail & -> & Hlocal & Hdomain & Htail).
    constructor; [by apply matches_plus_word|].
    constructor; [by apply matches_char|].
    constructor; [by apply matches_plus_word|].
    constructor; [by apply matches_char | by apply matches_plus_word].
Qed.

(** The e-mail pattern of the form rule and of both endpoints accepts
    exactly the strings of the shape [local@domain.tail] whose three
    parts are non-empty and hold neither whitespace nor [@]. *)
Theorem emailRegex_shape (s : string) :
  test emailRegex s = true ↔ emailShape s.
Proof. rewrite test_matches. apply matches_emailRegex. Qed.

End RegExpFacts.

(** ** Field rules *)

Section RuleFacts.
Import Dom Forms.

Variable StringToNumber : string → JS.Number.

Abbreviation registry := (setupValidationRules StringToNumber).

Lemma blank_rev_append s acc :
  JS.blank (JS.rev_append s acc) = JS.blank s && JS.blank acc.
Proof.
  revert acc. induction s as [|c s IH]; intros acc; [reflexivity|].
  cbn. rewrite IH. cbn. destruct (JS.is_whitespace c), (JS.blank s); reflexivity.
Qed.

Lemma blank_reverse s : JS.blank (JS.reverse s) = JS.blank s.
Proof. unfold JS.reverse. rewrite blank_rev_append. cbn. apply andb_true_r. Qed.

Lemma blank_trimStart s : JS.blank (JS.trimStart s) = JS.blank s.
Proof.
  induction s as [|c s IH]; [reflexivity|].
  cbn. destruct (JS.is_whitespace c) eqn:Hc; [exact IH|].
  cbn. by rewrite Hc.
Qed.

Lemma trimStart_empty s : JS.trimStart s = "" ↔ JS.blank s = true.
Proof.
  induction s as [|c s IH]; [done|].
  cbn. destruct (JS.is_whitespace c); [exact IH|]. cbn. split; discriminate.
Qed.

Lemma rev_append_empty s acc : JS.rev_append s acc = "" ↔ s = "" ∧ acc = "".
Proof.
  revert acc. induction s as [|c s IH]; intros acc; cbn.
  - split; [done | by intros [_ ->]].
  - rewrite IH. split; [intros [_ [=]] | intros [[=] _]].
Qed.

(** [trim] leaves nothing exactly of the strings of whitespace. *)
Lemma trim_empty s : JS.trim s = "" ↔ JS.blank s = true.
Proof.
  unfold JS.trim, JS.trimEnd, JS.reverse.
  rewrite rev_append_empty, trimStart_empty.
  fold (JS.reverse (JS.trimStart s)).
  rewrite blank_reverse, blank_trimStart. tauto.
Qed.

(** The [required] rule fails exactly on the values made of whitespace
    only, the empty value among them, with the message "This field is
    required". *)
Theorem required_rejects_blank (value : string) :
  checkRule registry value "required"
  = if JS.blank value then Some "This field is required" else None.
Proof.
  unfold checkRule.
  change (registry !! JS.trim (ruleName "required"))
    with (Some (ValidateRule
      (λ value _, JS.truthy value && (0 <? String.length (JS.trim value))%nat)
      (Fixed "This field is required"))).
  cbn beta iota.
  destruct (JS.blank value) eqn:Hblank.
  - apply trim_empty in Hblank. rewrite Hblank. cbn.
    by rewrite andb_false_r.
  - assert (Htrim : JS.trim value ≠ "").
    { intros Htrim. apply trim_empty in Htrim. congruence. }
    assert (Hvalue : JS.truthy value = true).
    { destruct value; [discriminate|reflexivity]. }
    rewrite Hvalue. destruct (JS.trim value); [done|reflexivity].
Qed.

(** A length rule declared without its parameter compares the length
    with [NaN]: [minLength] then fails on every value, and [maxLength]
    on every value but the empty one; the message reads "undefined"
    where the number would be. *)
Theorem length_rule_without_parameter (value : string) :
  checkRule registry value "minLength"
    = Some "Minimum undefined characters required" ∧
  checkRule registry value "maxLength"
    = (if JS.truthy value then Some "Maximum undefined characters allowed" else None).
Proof.
  unfold checkRule. split.
  - change (registry !! JS.trim (ruleName "minLength"))
      with (Some (ValidateRule
        (λ value minLength,
           JS.truthy value &&
           JS.length_ge (String.length value) (ToNumber StringToNumber minLength))
        (ByParam (λ minLength,
           "Minimum " +:+ JS.template minLength +:+ " characters required")))).
    cbn. by rewrite andb_false_r.
  - change (registry !! JS.trim (ruleName "maxLength"))
      with (Some (ValidateRule
        (λ value maxLength,
           negb (JS.truthy value) ||
           JS.length_le (String.length value) (ToNumber StringToNumber maxLength))
        (ByParam (λ maxLength,
           "Maximum " +:+ JS.template maxLength +:+ " characters allowed")))).
    cbn. destruct (JS.truthy value); reflexivity.
Qed.

(** The rules are tried in the order declared and the first that fails
    gives the message: what follows it is not looked at. *)
Theorem firstFailure_app (rules : gmap string ValidationRule) (value : string)
  (first rest : list string) :
  firstFailure rules value (first ++ rest)
  = match firstFailure rules value first with
    | Some errorMessage => Some errorMessage
    | None => firstFailure rules value rest
    end.
Proof.
  induction first as [|rule first IH]; [reflexivity|].
  cbn. destruct (checkRule rules value rule); [reflexivity | exact IH].
Qed.

End RuleFacts.

(** ** Validation of a whole form *)

Section ValidationFacts.
Import Dom Forms.

Variable rules : gmap string ValidationRule.

(** The verdict on a field depends on the field alone, not on the error
    elements of the form. *)
Lemma validateField_verdict (d : Control * gmap nat Element) :
  (validateField rules d).1 = fieldValid rules d.1.
Proof.
  unfold fieldValid, validateField. cbn [fst].
  destruct (getAttribute "data-validate" (el d.1)) as [validateAttr|]; [|reflexivity].
  destruct (negb (JS.truthy validateAttr)); [reflexivity|].
  destruct (firstFailure rules (value d.1) (JS.split "," validateAttr)); reflexivity.
Qed.

Lemma fieldValid_ext (c c' : Control) :
  getAttribute "data-validate" (el c') = getAttribute "data-validate" (el c) →
  value c' = value c →
  fieldValid rules c' = fieldValid rules c.
Proof.
  intros Hattr Hvalue. unfold fieldValid, validateField. cbn [fst].
  rewrite Hattr, Hvalue.
  destruct (getAttribute "data-validate" (el c)) as [validateAttr|]; [|reflexivity].
  destruct (negb (JS.truthy validateAttr)); [reflexivity|].
  destruct (firstFailure rules (value c) (JS.split "," validateAttr)); reflexivity.
Qed.

(** Validating a field changes neither its rule list nor its value, nor
    whether it is disabled. *)
Lemma validateField_keeps (c : Control) (errs : gmap nat Element) :
  let c' := (validateField rules (c, errs)).2.1 in
  getAttribute "data-validate" (el c') = getAttribute "data-validate" (el c) ∧
  value c' = value c ∧ disabled c' = disabled c ∧ tag c' = tag c ∧
  getAttribute "type" (el c') = getAttribute "type" (el c) ∧
  getAttribute "data-original-text" (el c')
    = getAttribute "data-original-text" (el c) ∧
  textContent (el c') = textContent (el c).
Proof.
  cbn zeta. unfold validateField. cbn [fst].
  destruct (getAttribute "data-validate" (el c)) as [validateAttr|] eqn:Hattr;
    [|done].
  destruct (negb (JS.truthy validateAttr)); [done|].
  destruct (firstFailure rules (value c) (JS.split "," validateAttr)).
  - unfold getAttribute. cbn.
    rewrite !lookup_insert_ne by done. rewrite attrs_add, textContent_add. done.
  - unfold getAttribute. cbn.
    rewrite !lookup_delete_ne by done. rewrite !lookup_insert_ne by done. done.
Qed.

Lemma validateField_invalid (c : Control) (errs : gmap nat Element) :
  fieldValid rules c = false →
  let c' := (validateField rules (c, errs)).2.1 in
  contains "error" (el c') = true ∧
  getAttribute "aria-invalid" (el c') = Some "true".
Proof.
  cbn zeta. unfold fieldValid, validateField. cbn [fst].
  destruct (getAttribute "data-validate" (el c)) as [validateAttr|]; [|discriminate].
  destruct (negb (JS.truthy validateAttr)); [discriminate|].
  destruct (firstFailure rules (value c) (JS.split "," validateAttr));
    [|discriminate].
  intros _. cbn [snd fst showFieldError withEl el]. split.
  - exact (contains_add "error" (el c)).
  - rewrite getAttribute_setAttribute_ne by done. apply getAttribute_setAttribute.
Qed.

Lemma validateInputs_verdict (inputs : list Control) (errs : gmap nat Element) :
  (validateInputs rules inputs errs).1
  = forallb (λ c, isButton c || fieldValid rules c) inputs.
Proof.
  revert errs. induction inputs as [|input rest IH]; intros errs; [reflexivity|].
  cbn [validateInputs forallb].
  destruct (isButton input) eqn:Hbutton.
  - specialize (IH errs).
    destruct (validateInputs rules rest errs) as [isValid [rest' errs'']].
    cbn in *. by rewrite IH.
  - pose proof (validateField_verdict (input, errs)) as Hverdict.
    destruct (validateField rules (input, errs)) as [fieldOk [input' errs']].
    specialize (IH errs').
    destruct (validateInputs rules rest errs') as [isValid [rest' errs'']].
    cbn in *. by rewrite IH, Hverdict.
Qed.

(** Each control comes out of [validateForm] as [validateField] leaves
    it, for some state of the error elements; buttons are passed over. *)
Lemma validateInputs_lookup (inputs : list Control) (errs : gmap nat Element) k c :
  inputs !! k = Some c →
  ∃ errs',
    (validateInputs rules inputs errs).2.1 !! k
    = Some (if isButton c then c else (validateField rules (c, errs')).2.1).
Proof.
  revert errs k. induction inputs as [|input rest IH]; intros errs k Hk;
    [discriminate|].
  cbn [validateInputs].
  destruct k as [|k].
  - injection Hk as ->. exists errs.
    destruct (isButton c).
    + destruct (validateInputs rules rest errs) as [isValid [rest' errs'']].
      reflexivity.
    + destruct (validateField rules (c, errs)) as [fieldOk [input' errs']].
      destruct (validateInputs rules rest errs') as [isValid [rest' errs'']].
      reflexivity.
  - cbn in Hk.
    destruct (isButton input).
    + destruct (IH errs k Hk) as [errs0 H0]. exists errs0.
      destruct (validateInputs rules rest errs) as [isValid [rest' errs'']].
      exact H0.
    + destruct (validateField rules (input, errs)) as [fieldOk [input' errs']].
      destruct (IH errs' k Hk) as [errs0 H0]. exists errs0.
      destruct (validateInputs rules rest errs') as [isValid [rest' errs'']].
      exact H0.
Qed.

Lemma validateInputs_length (inputs : list Control) (errs : gmap nat Element) :
  length (validateInputs rules inputs errs).2.1 = length inputs.
Proof.
  revert errs. induction inputs as [|input rest IH]; intros errs; [reflexivity|].
  cbn [validateInputs].
  destruct (isButton input).
  - specialize (IH errs).
    destruct (validateInputs rules rest errs) as [isValid [rest' errs'']].
    cbn in *. by rewrite IH.
  - destruct (validateField rules (input, errs)) as [fieldOk [input' errs']].
    specialize (IH errs').
    destruct (validateInputs rules rest errs') as [isValid [rest' errs'']].
    cbn in *. by rewrite IH.
Qed.

Lemma validateForm_controls (form : Form) :
  controls (validateForm rules form).2
  = (validateInputs rules (controls form) (fieldErrors form)).2.1.
Proof.
  unfold validateForm.
  destruct (validateInputs rules (controls form) (fieldErrors form))
    as [isValid [cs errs]].
  reflexivity.
Qed.

Lemma validateForm_lookup (form : Form) k c :
  controls form !! k = Some c →
  ∃ errs',
    controls (validateForm rules form).2 !! k
    = Some (if isButton c then c else (validateField rules (c, errs')).2.1).
Proof. rewrite validateForm_controls. apply validateInputs_lookup. Qed.

Lemma validateForm_verdict (form : Form) :
  (validateForm rules form).1
  = forallb (λ c, isButton c || fieldValid rules c) (controls form).
Proof.
  pose proof (validateInputs_verdict (controls form) (fieldErrors form)) as Hv.
  unfold validateForm.
  destruct (validateInputs rules (controls form) (fieldErrors form))
    as [isValid [cs errs]].
  exact Hv.
Qed.

(** What [validateForm] keeps of each control. *)
Lemma validateForm_keeps (form : Form) k c' :
  controls (validateForm rules form).2 !! k = Some c' →
  ∃ c, controls form !! k = Some c ∧
    getAttribute "data-validate" (el c') = getAttribute "data-validate" (el c) ∧
    value c' = value c ∧ disabled c' = disabled c ∧ tag c' = tag c ∧
    getAttribute "type" (el c') = getAttribute "type" (el c) ∧
    getAttribute "data-original-text" (el c')
      = getAttribute "data-original-text" (el c) ∧
    textContent (el c') = textContent (el c).
Proof.
  intros Hk.
  assert (Hlt : (k < length (controls form))%nat).
  { apply lookup_lt_Some in Hk.
    by rewrite validateForm_controls, validateInputs_length in Hk. }
  destruct (lookup_lt_is_Some_2 _ _ Hlt) as [c Hc].
  exists c. split; [exact Hc|].
  destruct (validateForm_lookup form k c Hc) as [errs' Hk'].
  rewrite Hk in Hk'. injection Hk' as ->.
  destruct (isButton c); [done|]. apply validateField_keeps.
Qed.

Lemma validateForm_values (form : Form) :
  map value (controls (validateForm rules form).2) = map value (controls form).
Proof.
  apply list_eq. intros k. rewrite !list_lookup_fmap.
  destruct (controls (validateForm rules form).2 !! k) as [c'|] eqn:Hk.
  - destruct (validateForm_keeps form k c' Hk) as (c & Hc & _ & Hvalue & _).
    rewrite Hc. cbn. by rewrite Hvalue.
  - apply lookup_ge_None in Hk.
    rewrite validateForm_controls, validateInputs_length in Hk.
    apply lookup_ge_None in Hk. by rewrite Hk.
Qed.

(** [validateForm] looks at every field: its verdict is the conjunction
    of the verdicts on all inputs, every failing input is marked with
    the class [error] and [aria-invalid="true"], not only the first, and
    no value changes. *)
Theorem validateForm_all_fields (form : Form) :
  (validateForm rules form).1
    = forallb (λ c, isButton c || fieldValid rules c) (controls form)
  ∧
  (∀ k c, controls form !! k = Some c → isButton c = false →
     fieldValid rules c = false →
     ∃ c', controls (validateForm rules form).2 !! k = Some c' ∧
           contains "error" (el c') = true ∧
           getAttribute "aria-invalid" (el c') = Some "true")
  ∧
  map value (controls (validateForm rules form).2) = map value (controls form).
Proof.
  split; [apply validateForm_verdict|]. split.
  - intros k c Hc Hbutton Hinvalid.
    destruct (validateForm_lookup form k c Hc) as [errs' Hk].
    rewrite Hbutton in Hk. eexists. split; [exact Hk|].
    by apply validateField_invalid.
  - apply validateForm_values.
Qed.

Lemma forallb_same_map {A} (f : A → bool) (l l' : list A) :
  map f l = map f l' → forallb f l = forallb f l'.
Proof.
  revert l'. induction l as [|x l IH]; intros [|x' l'] Hmap; try discriminate;
    [reflexivity|].
  cbn in *. injection Hmap as Hx Hl. by rewrite Hx, (IH l' Hl).
Qed.

(** Validating again gives the same verdict: showing or clearing the
    errors does not change what is validated. *)
Theorem validateForm_again (form : Form) :
  (validateForm rules (validateForm rules form).2).1 = (validateForm rules form).1.
Proof.
  rewrite !validateForm_verdict.
  assert (Hsame : ∀ k,
    (λ c, isButton c || fieldValid rules c) <$> (controls (validateForm rules form).2 !! k)
    = (λ c, isButton c || fieldValid rules c) <$> (controls form !! k)).
  { intros k.
    destruct (controls (validateForm rules form).2 !! k) as [c'|] eqn:Hk.
    - destruct (validateForm_keeps form k c' Hk)
        as (c & Hc & Hattr & Hvalue & _ & Htag & _).
      rewrite Hc. cbn. f_equal.
      rewrite (fieldValid_ext c c' Hattr Hvalue).
      unfold isButton. by rewrite Htag.
    - apply lookup_ge_None in Hk.
      rewrite validateForm_controls, validateInputs_length in Hk.
      apply lookup_ge_None in Hk. by rewrite Hk. }
  assert (Hmap : map (λ c, isButton c || fieldValid rules c)
                   (controls (validateForm rules form).2)
                 = map (λ c, isButton c || fieldValid rules c) (controls form)).
  { apply list_eq. intros k. rewrite !list_lookup_fmap. apply Hsame. }
  by apply forallb_same_map.
Qed.

End ValidationFacts.

(** ** Submission bookkeeping *)

Section SubmissionFacts.
Import Dom Forms.

Variable StringToNumber : string → JS.Number.
Variable FormData : Form → list (string * string).

Lemma formIds_withForm i form form' timer w :
  forms w !! i = Some form → id form' = id form →
  formIds (withForm i form' timer w) = formIds w.
Proof.
  intros Hform Hid. unfold formIds, withForm. cbn [forms].
  rewrite list_fmap_insert, Hid. apply list_insert_id.
  by rewrite list_lookup_fmap, Hform.
Qed.

(** The three ways [handleFormSubmit] can go. *)
Lemma handleFormSubmit_refused w i :
  forms w !! i = None ∨
  (∃ form, forms w !! i = Some form ∧ id form ∈ submittingForms w) →
  handleFormSubmit FormData i w = w.
Proof.
  unfold handleFormSubmit. intros [->|(form & -> & Hin)]; [reflexivity|].
  by rewrite bool_decide_eq_true_2.
Qed.

Lemma handleFormSubmit_aborted w i form :
  forms w !! i = Some form → id form ∉ submittingForms w →
  (validateForm (validationRules w) form).1 = false →
  handleFormSubmit FormData i w
  = withForm i
      (showFormMessage "Please correct the errors below" "error"
         (validateForm (validationRules w) form).2)
      (autoHide i w) w.
Proof.
  intros Hform Hout Hinvalid. unfold handleFormSubmit. rewrite Hform.
  rewrite bool_decide_eq_false_2 by done.
  destruct (validateForm (validationRules w) form) as [isValid form1].
  cbn in Hinvalid. subst isValid. reflexivity.
Qed.

Lemma handleFormSubmit_started w i form :
  forms w !! i = Some form → id form ∉ submittingForms w →
  (validateForm (validationRules w) form).1 = true →
  handleFormSubmit FormData i w
  = {| config := config w; validationRules := validationRules w;
       submittingForms := {[id form]} ∪ submittingForms w;
       forms := <[i := setFormSubmitting true (validateForm (validationRules w) form).2]>
                  (forms w);
       calls := calls w ++
         [{| callStrategy := strategyOf (id form); callFormId := id form;
             callData :=
               FormData (setFormSubmitting true (validateForm (validationRules w) form).2) |}];
       awaiting := awaiting w ++ [i];
       timers := timers w; dispatched := dispatched w |}.
Proof.
  intros Hform Hout Hvalid. unfold handleFormSubmit. rewrite Hform.
  rewrite bool_decide_eq_false_2 by done.
  destruct (validateForm (validationRules w) form) as [isValid form1].
  cbn in Hvalid. subst isValid. reflexivity.
Qed.

(** A submit of a form that fails validation is aborted: no call is
    made, the form is not marked as submitting, nothing is awaited; the
    form gets the banner "Please correct the errors below", and no value
    and no disabled flag changes. *)
Theorem handleFormSubmit_invalid (w : World) (i : nat) (form : Form) :
  forms w !! i = Some form →
  id form ∉ submittingForms w →
  (validateForm (validationRules w) form).1 = false →
  let w' := handleFormSubmit FormData i w in
  (calls w' = calls w ∧
   submittingForms w' = submittingForms w ∧
   awaiting w' = awaiting w ∧
   dispatched w' = dispatched w ∧
   ∃ form' banner,
     forms w' !! i = Some form' ∧
     formMessage form' = Some banner ∧
     textContent banner = "Please correct the errors below" ∧
     classList banner = ["form-message"; "error"] ∧
     getStyle "display" banner = Some "block" ∧
     map value (controls form') = map value (controls form) ∧
     map disabled (controls form') = map disabled (controls form)).
Proof.
  intros Hform Hout Hinvalid. cbn zeta.
  rewrite (handleFormSubmit_aborted w i form Hform Hout Hinvalid).
  assert (Hlt : (i < length (forms w))%nat) by (by eapply lookup_lt_Some).
  repeat (split; [reflexivity|]).
  eexists _, _. cbn [forms withForm].
  split; [by apply list_lookup_insert_eq|].
  split; [reflexivity|]. split; [reflexivity|]. split; [reflexivity|].
  split; [apply getStyle_setStyle|].
  cbn [controls showFormMessage withFormMessage].
  split.
  - apply validateForm_values.
  - apply list_eq. intros k. rewrite !list_lookup_fmap.
    destruct (controls (validateForm (validationRules w) form).2 !! k) as [c'|] eqn:Hk.
    + destruct (validateForm_keeps (validationRules w) form k c' Hk)
        as (c & Hc & _ & _ & Hdisabled & _).
      rewrite Hc. cbn. by rewrite Hdisabled.
    + apply lookup_ge_None in Hk.
      rewrite validateForm_controls, validateInputs_length in Hk.
      apply lookup_ge_None in Hk. by rewrite Hk.
Qed.

Lemma setFormSubmitting_lookup b form k c' :
  controls (setFormSubmitting b form) !! k = Some c' →
  ∃ c, controls form !! k = Some c ∧
    value c' = value c ∧ defaultValue c' = defaultValue c ∧ tag c' = tag c ∧
    disabled c' = b ∧ attrs (el c') = attrs (el c).
Proof.
  unfold setFormSubmitting. cbn [controls withControls].
  rewrite list_lookup_imap.
  destruct (controls form !! k) as [c|]; [|discriminate].
  cbn. intros [= <-]. exists c. split; [reflexivity|].
  case_bool_decide; destruct b; cbn; rewrite ?attrs_add; done.
Qed.

Lemma setFormSubmitting_classes form k c' token :
  controls (setFormSubmitting false form) !! k = Some c' →
  token ∈ classList (el c') →
  ∃ c, controls form !! k = Some c ∧ token ∈ classList (el c).
Proof.
  unfold setFormSubmitting. cbn [controls withControls].
  rewrite list_lookup_imap.
  destruct (controls form !! k) as [c|]; [|discriminate].
  cbn. intros [= <-] Htoken. exists c. split; [reflexivity|].
  case_bool_decide; cbn in Htoken; [|exact Htoken].
  by apply list_elem_of_filter in Htoken as [_ Htoken].
Qed.

Lemma length_setFormSubmitting b form :
  length (controls (setFormSubmitting b form)) = length (controls form).
Proof. unfold setFormSubmitting. cbn. apply length_imap. Qed.

(** When the awaited submission resolves, with whatever result, the
    form shows the result's message as a success banner, every input is
    back to its default value and enabled, every error element is hidden
    and no control keeps the class [error]; [formSuccess] is dispatched,
    the close of the modal is scheduled exactly when the form lies in a
    modal, and the form identifier has left the set.  The [success]
    field of the result is not looked at. *)
Theorem settle_resolved (w : World) (i : nat) (form : Form) (result : Result) :
  forms w !! i = Some form →
  i ∈ awaiting w →
  showSuccessMessages (config w) = true →
  let w' := settle i (Resolved result) w in
  ((∃ form' banner,
      forms w' !! i = Some form' ∧
      formMessage form' = Some banner ∧
      textContent banner = message result ∧
      classList banner = ["form-message"; "success"] ∧
      getStyle "display" banner = Some "block" ∧
      (∀ k c', controls form' !! k = Some c' →
         ∃ c, controls form !! k = Some c ∧
           value c' = (if isButton c then value c else defaultValue c) ∧
           disabled c' = false ∧ contains "error" (el c') = false) ∧
      (∀ parent e, fieldErrors form' !! parent = Some e →
         getStyle "display" e = Some "none")) ∧
   dispatched w' = dispatched w ++ [("formSuccess", i)] ∧
   timers w' = timers w ++ (autoHide i w ++ if inModal form then [CloseModal] else []) ∧
   (id form ∉ submittingForms w') ∧
   calls w' = calls w).
Proof.
  intros Hform Hawait Hshow. cbn zeta.
  assert (Hlt : (i < length (forms w))%nat) by (by eapply lookup_lt_Some).
  unfold settle. rewrite bool_decide_eq_true_2 by exact Hawait. cbn [negb].
  rewrite Hform. unfold handleFormSuccess. rewrite Hshow.
  cbn [forms withForm dispatched timers submittingForms calls config].
  split; [|split; [reflexivity|split; [reflexivity|split; [|reflexivity]]]].
  - eexists _, _. split.
    { rewrite list_lookup_alter_eq, list_lookup_insert_eq by exact Hlt. reflexivity. }
    cbn [setFormSubmitting formMessage withControls resetForm withFormMessage
         withFieldErrors showFormMessage fmap option_fmap option_map].
    split; [reflexivity|]. split; [reflexivity|].
    split; [vm_compute; reflexivity|].
    split; [unfold getStyle; cbn; apply lookup_insert_eq|].
    split.
    + intros k c' Hk.
      assert (Hclass : contains "error" (el c') = false).
      { unfold contains. apply bool_decide_eq_false. intros Hin.
        destruct (setFormSubmitting_classes _ k c' "error" Hk Hin)
          as (c1 & Hc1 & Hin1).
        cbn [controls resetForm withFormMessage withFieldErrors withControls
             showFormMessage] in Hc1.
        rewrite list_lookup_fmap in Hc1.
        destruct (controls form !! k) as [c|]; [|discriminate].
        cbn in Hc1. injection Hc1 as <-. cbn in Hin1.
        apply list_elem_of_filter in Hin1 as [Hne _]. by apply Hne. }
      apply setFormSubmitting_lookup in Hk
        as (c1 & Hc1 & Hvalue & _ & _ & Hdisabled & Hattrs).
      cbn [controls resetForm withFormMessage withFieldErrors withControls
           showFormMessage] in Hc1.
      rewrite list_lookup_fmap in Hc1.
      destruct (controls form !! k) as [c|] eqn:Hc; [|discriminate].
      cbn in Hc1. injection Hc1 as <-.
      exists c. split; [reflexivity|].
      split; [rewrite Hvalue; by destruct (isButton c)|].
      split; [exact Hdisabled | exact Hclass].
    + intros parent e He.
      cbn [fieldErrors setFormSubmitting withControls resetForm withFormMessage
           withFieldErrors showFormMessage] in He.
      rewrite lookup_fmap in He.
      destruct (fieldErrors form !! parent) as [e0|]; simpl in He; [|discriminate].
      injection He as <-.
      unfold getStyle. cbn. apply lookup_insert_eq.
  - intros Hin. apply elem_of_difference in Hin as [_ Hne].
    apply Hne. by apply elem_of_singleton.
Qed.

End SubmissionFacts.

(** ** The submitting state *)

Section SubmittingFacts.
Import Dom Forms.

Variable StringToNumber : string → JS.Number.
Variable FormData : Form → list (string * string).

Lemma filter_all {A} (P : A → Prop) `{∀ x, Decision (P x)} (l : list A) :
  (∀ x, x ∈ l → P x) → filter P l = l.
Proof.
  induction l as [|x l IH]; intros Hall; [reflexivity|].
  rewrite filter_cons, decide_True by (apply Hall, list_elem_of_here).
  f_equal. apply IH. intros y Hy. apply Hall. by apply list_elem_of_further.
Qed.


Lemma validateForm_setFormSubmitting rules b form :
  (validateForm rules (setFormSubmitting b form)).1 = (validateForm rules form).1.
Proof.
  rewrite !validateForm_verdict. apply forallb_same_map.
  apply list_eq. intros k. rewrite !list_lookup_fmap.
  destruct (controls (setFormSubmitting b form) !! k) as [c'|] eqn:Hk.
  - apply setFormSubmitting_lookup in Hk as (c & Hc & Hvalue & _ & Htag & _ & Hattrs).
    rewrite Hc. cbn. f_equal.
    rewrite (fieldValid_ext rules c c'); [|by unfold getAttribute; rewrite Hattrs|done].
    unfold isButton. by rewrite Htag.
  - apply lookup_ge_None in Hk. rewrite length_setFormSubmitting in Hk.
    apply lookup_ge_None in Hk. by rewrite Hk.
Qed.

(** After a rejected submission the user can try again: the form is as
    valid as it was when it was sent, its identifier has left the set,
    and a new submit makes one more call for it. *)
Theorem retry_after_rejection (w : World) (i : nat) (form : Form) (error : Error) :
  forms w !! i = Some form →
  i ∈ awaiting w →
  (validateForm (validationRules w) form).1 = true →
  let w1 := settle i (Rejected error) w in
  let w2 := handleFormSubmit FormData i w1 in
  (callsFor (id form) w1 = callsFor (id form) w ∧
   callsFor (id form) w2 = S (callsFor (id form) w) ∧
   id form ∈ submittingForms w2 ∧
   i ∈ awaiting w2).
Proof.
  intros Hform Hawait Hvalid. cbn zeta.
  assert (Hlt : (i < length (forms w))%nat) by (by eapply lookup_lt_Some).
  set (shown := showFormMessage
    (JS.or_else (errorMessage error) "An error occurred. Please try again.")
    "error" form).
  assert (Hw1 : settle i (Rejected error) w
    = {| config := config w; validationRules := validationRules w;
         submittingForms := submittingForms w ∖ {[id form]};
         forms := alter (setFormSubmitting false) i (<[i := shown]> (forms w));
         calls := calls w;
         awaiting := filter (λ j, j ≠ i) (awaiting w);
         timers := timers w ++ autoHide i w;
         dispatched := dispatched w ++ [("formError", i)] |}).
  { unfold settle. rewrite bool_decide_eq_true_2 by exact Hawait. cbn [negb].
    rewrite Hform. reflexivity. }
  rewrite Hw1. split; [reflexivity|].
  assert (Hform1 : forms
    {| config := config w; validationRules := validationRules w;
       submittingForms := submittingForms w ∖ {[id form]};
       forms := alter (setFormSubmitting false) i (<[i := shown]> (forms w));
       calls := calls w;
       awaiting := filter (λ j, j ≠ i) (awaiting w);
       timers := timers w ++ autoHide i w;
       dispatched := dispatched w ++ [("formError", i)] |} !! i
    = Some (setFormSubmitting false shown)).
  { cbn [forms]. rewrite list_lookup_alter_eq, list_lookup_insert_eq by exact Hlt.
    reflexivity. }
  assert (Hout : id (setFormSubmitting false shown) ∉ submittingForms w ∖ {[id form]}).
  { intros Hin. apply elem_of_difference in Hin as [_ Hne].
    apply Hne. by apply elem_of_singleton. }
  assert (Hstill : (validateForm (validationRules w) (setFormSubmitting false shown)).1
                   = true).
  { rewrite validateForm_setFormSubmitting.
    rewrite validateForm_verdict in *. exact Hvalid. }
  rewrite (handleFormSubmit_started FormData _ i _ Hform1 Hout Hstill).
  cbn [submittingForms awaiting]. split.
  - unfold callsFor at 1. cbn [calls]. rewrite callsFor_snoc. cbn.
    rewrite bool_decide_eq_true_2 by reflexivity. lia.
  - split; [apply elem_of_union_l; by apply elem_of_singleton|].
    apply elem_of_app. right. apply list_elem_of_here.
Qed.

End SubmittingFacts.

(** ** Submissions over a whole session *)

Section SessionFacts.
Import Dom Forms.

Variable StringToNumber : string → JS.Number.
Variable FormData : Form → list (string * string).

Lemma quiet_refl w : quiet w w.
Proof. by repeat split. Qed.

Lemma quiet_withForm i form form' timer w :
  forms w !! i = Some form → id form' = id form →
  quiet w (withForm i form' timer w).
Proof.
  intros Hform Hid. repeat split; try reflexivity.
  by eapply formIds_withForm.
Qed.

Lemma handleFormSubmit_effect i w :
  quiet w (handleFormSubmit FormData i w) ∨ starts FormData w (handleFormSubmit FormData i w).
Proof.
  destruct (forms w !! i) as [form|] eqn:Hform.
  2: { left. rewrite handleFormSubmit_refused by auto. apply quiet_refl. }
  destruct (decide (id form ∈ submittingForms w)) as [Hin|Hout].
  { left. rewrite handleFormSubmit_refused by eauto. apply quiet_refl. }
  destruct (validateForm (validationRules w) form).1 eqn:Hvalid.
  - right. rewrite (handleFormSubmit_started FormData w i form Hform Hout Hvalid).
    exists i, form, (setFormSubmitting true (validateForm (validationRules w) form).2).
    split; [exact Hform|]. split; [exact Hout|].
    split; [intros c Hc; by eapply setFormSubmitting_disabled|].
    repeat (split; [reflexivity|]).
    unfold formIds. cbn [forms]. rewrite list_fmap_insert.
    apply list_insert_id. rewrite list_lookup_fmap, Hform. cbn.
    f_equal. symmetry. apply validateForm_id.
  - left. rewrite (handleFormSubmit_aborted FormData w i form Hform Hout Hvalid).
    apply (quiet_withForm i form); [exact Hform|]. cbn. apply validateForm_id.
Qed.

Lemma settle_effect i o w :
  quiet w (settle i o w) ∨ ends w (settle i o w).
Proof.
  unfold settle. case_bool_decide as Hawait; cbn [negb]; [|left; apply quiet_refl].
  destruct (forms w !! i) as [form|] eqn:Hform; [|left; apply quiet_refl].
  assert (Hlt : (i < length (forms w))%nat) by (by eapply lookup_lt_Some).
  right.
  assert (Hids : ∀ shown, id shown = id form →
    id <$> alter (setFormSubmitting false) i (<[i := shown]> (forms w))
    = id <$> forms w).
  { intros shown Hid.
    rewrite (list_fmap_alter id (setFormSubmitting false) (λ F, F))
      by (apply Forall_forall; reflexivity).
    rewrite list_alter_id by reflexivity.
    rewrite list_fmap_insert, Hid. apply list_insert_id.
    by rewrite list_lookup_fmap, Hform. }
  destruct o as [result|error].
  - exists i, form, ("formSuccess", i).
    split; [exact Hform|]. split; [exact Hawait|].
    repeat (split; [reflexivity|]).
    unfold formIds, handleFormSuccess, withForm. cbn [forms].
    apply Hids. by destruct (showSuccessMessages (config w)).
  - exists i, form, ("formError", i).
    split; [exact Hform|]. split; [exact Hawait|].
    repeat (split; [reflexivity|]).
    unfold formIds, handleFormError, withForm. cbn [forms].
    by apply Hids.
Qed.

Lemma step_effect ev w :
  quiet w (step FormData ev w) ∨ starts FormData w (step FormData ev w) ∨
  ends w (step FormData ev w).
Proof.
  destruct ev as [i|i o|i|i|i k|i k text]; cbn [step].
  - destruct (handleFormSubmit_effect i w); auto.
  - destruct (settle_effect i o w); auto.
  - unfold delayElapsed. destruct (forms w !! i) as [form|]; [|left; apply quiet_refl].
    destruct (settle_effect i (Resolved (submitResult (strategyOf (id form)))) w); auto.
  - left. unfold hideMessage.
    destruct (forms w !! i) as [form|] eqn:Hform; [|apply quiet_refl].
    by apply (quiet_withForm i form).
  - left. unfold handleBlurValidation.
    destruct (negb (validateOnBlur (config w))); [apply quiet_refl|].
    destruct (forms w !! i) as [form|] eqn:Hform; [|apply quiet_refl].
    destruct (controls form !! k) as [input|]; [|apply quiet_refl].
    destruct (hasAttribute "data-validate" (el input)); [|apply quiet_refl].
    destruct (validateField (validationRules w) (input, fieldErrors form))
      as [fieldOk [input' errs']].
    by apply (quiet_withForm i form).
  - left. unfold typed.
    destruct (forms w !! i) as [form|] eqn:Hform; [|apply quiet_refl].
    by apply (quiet_withForm i form).
Qed.

Lemma length_filter_remove (i : nat) (l : list nat) :
  NoDup l → i ∈ l → S (length (filter (λ j, j ≠ i) l)) = length l.
Proof.
  induction 1 as [|x l Hx Hl IH]; intros Hi; [by apply elem_of_nil in Hi|].
  rewrite filter_cons. destruct (decide (x ≠ i)) as [Hne|Heq].
  - cbn. f_equal. apply IH. apply elem_of_cons in Hi as [->|Hi]; [done|exact Hi].
  - apply dec_stable in Heq. subst x. cbn. f_equal.
    rewrite filter_all; [reflexivity|]. intros y Hy ->. by apply Hx.
Qed.

Lemma accounted_step ev w : accounted w → accounted (step FormData ev w).
Proof.
  intros (Hnodup & Hset & Hback & Hinj & Hcount).
  destruct (step_effect ev w) as [Hq|[Hs|He]].
  - destruct Hq as (Ha & Hs & Hc & Hd & Hi). unfold accounted.
    rewrite Ha, Hs, Hc, Hd, Hi. done.
  - destruct Hs as (i & form & sent & Hform & Hout & _ & Ha & Hs & Hc & Hd & Hi).
    assert (Hid : formIds w !! i = Some (id form)).
    { unfold formIds. by rewrite list_lookup_fmap, Hform. }
    assert (Hfresh : i ∉ awaiting w).
    { intros Hin. destruct (Hset i Hin) as (F & HF & HinF). congruence. }
    unfold accounted. rewrite Ha, Hs, Hc, Hd, Hi.
    split; [|split; [|split; [|split]]].
    + apply NoDup_app. split; [exact Hnodup|]. split; [|apply NoDup_singleton].
      intros x Hx Hx'. apply list_elem_of_singleton in Hx'. by subst.
    + intros j Hj. apply elem_of_app in Hj as [Hj|Hj].
      * destruct (Hset j Hj) as (F & HF & HinF). exists F.
        split; [exact HF|]. by apply elem_of_union_r.
      * apply list_elem_of_singleton in Hj as ->. exists (id form).
        split; [exact Hid|]. apply elem_of_union_l. by apply elem_of_singleton.
    + intros F HF. apply elem_of_union in HF as [HF|HF].
      * apply elem_of_singleton in HF as ->. exists i.
        split; [|exact Hid]. apply elem_of_app. right. apply list_elem_of_here.
      * destruct (Hback F HF) as (j & Hj & HjF). exists j.
        split; [|exact HjF]. apply elem_of_app. by left.
    + intros j1 j2 F Hj1 Hj2 HF1 HF2.
      apply elem_of_app in Hj1 as [Hj1|Hj1]; apply elem_of_app in Hj2 as [Hj2|Hj2].
      * by eapply Hinj.
      * apply list_elem_of_singleton in Hj2 as ->.
        destruct (Hset j1 Hj1) as (F1 & HF1' & HinF). congruence.
      * apply list_elem_of_singleton in Hj1 as ->.
        destruct (Hset j2 Hj2) as (F2 & HF2' & HinF). congruence.
      * apply list_elem_of_singleton in Hj1, Hj2. congruence.
    + rewrite !length_app. cbn. lia.
  - destruct He as (i & form & event & Hform & Hawait & Ha & Hs & Hc & Hd & Hi).
    assert (Hid : formIds w !! i = Some (id form)).
    { unfold formIds. by rewrite list_lookup_fmap, Hform. }
    unfold accounted. rewrite Ha, Hs, Hc, Hd, Hi.
    split; [|split; [|split; [|split]]].
    + by apply NoDup_filter.
    + intros j Hj. apply list_elem_of_filter in Hj as [Hne Hj].
      destruct (Hset j Hj) as (F & HF & HinF). exists F. split; [exact HF|].
      apply elem_of_difference. split; [exact HinF|].
      intros HFi. apply elem_of_singleton in HFi as ->.
      apply Hne. by eapply Hinj.
    + intros F HF. apply elem_of_difference in HF as [HF Hne].
      destruct (Hback F HF) as (j & Hj & HjF). exists j. split; [|exact HjF].
      apply list_elem_of_filter. split; [|exact Hj].
      intros ->. apply Hne. apply elem_of_singleton. congruence.
    + intros j1 j2 F Hj1 Hj2.
      apply list_elem_of_filter in Hj1 as [_ Hj1].
      apply list_elem_of_filter in Hj2 as [_ Hj2]. by apply Hinj.
    + rewrite length_app. cbn.
      pose proof (length_filter_remove i (awaiting w) Hnodup Hawait). lia.
Qed.

(** In every state the module can reach: the forms awaited are distinct
    and no two of them carry the same identifier; the set of submitting
    identifiers is exactly the set of their identifiers; and the calls
    made so far are the submissions still awaited plus those answered by
    a [formSuccess] or [formError] event. *)
Theorem reachable_accounted (w : World) :
  reachable StringToNumber FormData w → accounted w.
Proof.
  induction 1 as [page|ev w _ IH].
  - unfold accounted. cbn. split; [constructor|].
    split; [intros i Hi; by apply elem_of_nil in Hi|].
    split; [intros F HF; by apply elem_of_empty in HF|].
    split; [intros i j F Hi; by apply elem_of_nil in Hi|reflexivity].
  - by apply accounted_step.
Qed.

(** [handleFormSubmit] disables every control before it reads the form
    data.  So when the form data leaves out disabled controls, as the
    host's does, every call is made without data. *)
Theorem calls_without_data (w : World) :
  (∀ form, (∀ c, c ∈ controls form → disabled c = true) → FormData form = []) →
  reachable StringToNumber FormData w →
  ∀ call, call ∈ calls w → callData call = [].
Proof.
  intros Hhost. induction 1 as [page|ev w _ IH]; intros call Hcall.
  - by apply elem_of_nil in Hcall.
  - destruct (step_effect ev w) as [Hq|[Hs|He]].
    + destruct Hq as (_ & _ & Hc & _). rewrite Hc in Hcall. by apply IH.
    + destruct Hs as (i & form & sent & _ & _ & Hsent & _ & _ & Hc & _).
      rewrite Hc in Hcall. apply elem_of_app in Hcall as [Hcall|Hcall];
        [by apply IH|].
      apply list_elem_of_singleton in Hcall as ->. cbn. by apply Hhost.
    + destruct He as (i & form & event & _ & _ & _ & _ & Hc & _).
      rewrite Hc in Hcall. by apply IH.
Qed.

End SessionFacts.

(** ** Modal manager: completion *)

Section ModalsMoreFacts.
Import Dom Modals.

Lemma setupFocusTrap_rest id w :
  bodyOverflow (setupFocusTrap id w) = bodyOverflow w ∧
  suspended (setupFocusTrap id w) = suspended w ∧
  isAnimating (setupFocusTrap id w) = isAnimating w ∧
  dispatched (setupFocusTrap id w) = dispatched w ∧
  config (setupFocusTrap id w) = config w.
Proof.
  unfold setupFocusTrap.
  destruct (negb (focusTrap (config w))); [done|].
  destruct (modals w !! id) as [m|]; [|done].
  destruct (focusable m =? 0)%nat; done.
Qed.

Lemma modals_setupFocusTrap_ne id x w :
  x ≠ id → modals (setupFocusTrap id w) !! x = modals w !! x.
Proof.
  intros Hne. unfold setupFocusTrap.
  destruct (negb (focusTrap (config w))); [done|].
  destruct (modals w !! id) as [m|]; [|done].
  destruct (focusable m =? 0)%nat; [done|].
  cbn. by rewrite lookup_insert_ne.
Qed.

(** An animation always completes: from any reachable state, once the
    pending callbacks have run (three at most, when an [open] waits
    behind a [close]), nothing is suspended and [isAnimating] is false,
    so the module accepts [open] and [close] again. *)
Theorem animation_completes (w : World) :
  reachable w →
  suspended (resume (resume (resume w))) = None ∧
  isAnimating (resume (resume (resume w))) = false.
Proof.
  intros Hreach. destruct (reachable_consistent w Hreach) as (_ & _ & Hsusp).
  destruct (suspended w) as [[modal [id|]|id|id]|] eqn:Hs.
  - assert (H1 : resume w = openModal id (finishClose modal w)).
    { unfold resume. by rewrite Hs. }
    rewrite H1.
    assert (H2 : resume (openModal id (finishClose modal w))
                 = animationFrame id (openModal id (finishClose modal w)))
      by reflexivity.
    rewrite H2.
    assert (H3 : resume (animationFrame id (openModal id (finishClose modal w)))
                 = finishOpen id (animationFrame id (openModal id (finishClose modal w))))
      by reflexivity.
    rewrite H3. split; reflexivity.
  - assert (H1 : resume w = finishClose modal w).
    { unfold resume. by rewrite Hs. }
    rewrite H1. split; reflexivity.
  - assert (H1 : resume w = animationFrame id w).
    { unfold resume. by rewrite Hs. }
    rewrite H1.
    assert (H2 : resume (animationFrame id w) = finishOpen id (animationFrame id w))
      by reflexivity.
    rewrite H2. split; reflexivity.
  - assert (H1 : resume w = finishOpen id w).
    { unfold resume. by rewrite Hs. }
    rewrite H1. split; reflexivity.
  - assert (H1 : resume w = w).
    { unfold resume. by rewrite Hs. }
    rewrite !H1. split; [exact Hs | exact Hsusp].
Qed.

(** Opening a modal from the idle module and closing it again leaves
    the page as a closed modal requires: no modal is active, the modal
    is hidden and marked [aria-hidden="true"], the scroll is released,
    the other modals were never touched, and [modalOpened] then
    [modalClosed] were dispatched for it. *)
Theorem open_then_close (w : World) (id : string) :
  reachable w →
  activeModal w = None →
  is_Some (modals w !! id) →
  let w' := run [Open id; Resume; Resume; Close; Resume] w in
  (activeModal w' = None ∧
   isAnimating w' = false ∧
   suspended w' = None ∧
   ariaHidden id w' = Some "true" ∧
   display id w' = Some "none" ∧
   bodyOverflow w' = "" ∧
   (∀ x, x ≠ id → modals w' !! x = modals w !! x) ∧
   dispatched w' = dispatched w ++ [("modalOpened", id); ("modalClosed", id)]).
Proof.
  intros Hreach Hnone [m Hm]. cbn zeta.
  destruct (reachable_consistent w Hreach) as (_ & _ & Hsusp).
  assert (Hidle : isAnimating w = false).
  { destruct (suspended w) as [[modal thenOpen|x|x]|]; [| | |exact Hsusp];
      destruct Hsusp as (_ & Hactive & _); congruence. }
  assert (Hrun : run [Open id; Resume; Resume; Close; Resume] w
    = finishClose id (close (finishOpen id (animationFrame id (openModal id w))))).
  { unfold run. cbn [foldl step].
    assert (Hopen : open id w = openModal id w).
    { unfold open. by rewrite Hidle, Hm, Hnone. }
    rewrite Hopen.
    change (resume (openModal id w)) with (animationFrame id (openModal id w)).
    change (resume (animationFrame id (openModal id w)))
      with (finishOpen id (animationFrame id (openModal id w))).
    set (opened := finishOpen id (animationFrame id (openModal id w))).
    assert (Hclose : close opened
      = {| config := config opened;
           modals :=
             alter (Modals.withEl (λ e,
               setStyle "transform" "scale(0.9)"
                 (setStyle "opacity" "0" (setStyle "transition" (transition opened) e))))
               id (modals opened);
           activeModal := activeModal opened; previousFocus := previousFocus opened;
           isAnimating := true; activeElement := activeElement opened;
           bodyOverflow := bodyOverflow opened;
           suspended := Some (Closing id None);
           focusTimers := focusTimers opened; dispatched := dispatched opened |}).
    { unfold close, closeThen.
      assert (Hactive : activeModal opened = Some id).
      { unfold opened, finishOpen, focus, withModal. cbn.
        by destruct (setupFocusTrap_state id (animationFrame id (openModal id w)))
          as (-> & _). }
      by rewrite Hactive. }
    rewrite Hclose. reflexivity. }
  rewrite Hrun.
  set (opened := finishOpen id (animationFrame id (openModal id w))).
  assert (Hactive : activeModal opened = Some id).
  { unfold opened, finishOpen, focus, withModal. cbn.
    by destruct (setupFocusTrap_state id (animationFrame id (openModal id w)))
      as (-> & _). }
  assert (Hstill : isAnimating opened = false) by reflexivity.
  assert (Hclosing : modals (close opened)
    = alter (Modals.withEl (λ e,
        setStyle "transform" "scale(0.9)"
          (setStyle "opacity" "0" (setStyle "transition" (transition opened) e))))
        id (modals opened)).
  { unfold close, closeThen. by rewrite Hactive, Hstill. }
  assert (Hopened : is_Some (modals opened !! id)).
  { unfold opened, finishOpen, focus, withModal. cbn [modals].
    apply lookup_alter_is_Some, is_Some_setupFocusTrap.
    unfold animationFrame, openModal. cbn [modals].
    rewrite !lookup_alter_is_Some. eauto. }
  assert (Hlast : is_Some (modals (close opened) !! id)).
  { rewrite Hclosing. by apply lookup_alter_is_Some. }
  destruct Hlast as [last Hlast].
  split; [reflexivity|]. split; [reflexivity|]. split; [reflexivity|].
  split.
  { unfold ariaHidden, ariaOf, finishClose. cbn [modals].
    rewrite lookup_alter_eq, Hlast. cbn. apply getAttribute_setAttribute. }
  split.
  { unfold display, finishClose. cbn [modals].
    rewrite lookup_alter_eq, Hlast. cbn. unfold getStyle. cbn.
    rewrite !lookup_insert_ne by done. apply lookup_insert_eq. }
  split; [reflexivity|].
  split.
  { intros x Hx. unfold finishClose. cbn [modals].
    rewrite lookup_alter_ne by done. rewrite Hclosing.
    rewrite lookup_alter_ne by done.
    unfold opened, finishOpen, focus, withModal. cbn [modals].
    rewrite lookup_alter_ne by done.
    rewrite modals_setupFocusTrap_ne by done.
    unfold animationFrame, openModal. cbn [modals].
    by rewrite !lookup_alter_ne by done. }
  unfold finishClose. cbn [dispatched].
  assert (Hd : dispatched (close opened) = dispatched opened).
  { unfold close, closeThen. by rewrite Hactive, Hstill. }
  rewrite Hd. unfold opened, finishOpen, focus, withModal. cbn [dispatched].
  destruct (setupFocusTrap_rest id (animationFrame id (openModal id w)))
    as (_ & _ & _ & -> & _).
  cbn. by rewrite <- app_assoc.
Qed.

End ModalsMoreFacts.

(** ** Navigation: navbar, throttle and link clicks *)

Section NavigationMoreFacts.
Import Dom Navigation.

Lemma handleNavbarScroll_keeps w :
  scrollY (handleNavbarScroll w) = scrollY w ∧
  config (handleNavbarScroll w) = config w ∧
  sections (handleNavbarScroll w) = sections w ∧
  navLinks (handleNavbarScroll w) = navLinks w ∧
  activeSection (state (handleNavbarScroll w)) = activeSection (state w).
Proof. unfold handleNavbarScroll. case_bool_decide; done. Qed.

(** The navbar follows the threshold, and only its crossing writes to
    the page: after [handleNavbarScroll] the flag tells whether
    [scrollY] is beyond the threshold; when it already did, nothing at
    all changes; when it did not, the class [scrolled] is set or removed
    accordingly; and a second call changes nothing. *)
Theorem navbar_follows_threshold (w : World) :
  let beyond := (scrollThreshold (config w) <? scrollY w)%Z in
  isScrolled (state (handleNavbarScroll w)) = beyond ∧
  (isScrolled (state w) = beyond → handleNavbarScroll w = w) ∧
  (isScrolled (state w) ≠ beyond →
   contains "scrolled" (navbar (handleNavbarScroll w)) = beyond) ∧
  handleNavbarScroll (handleNavbarScroll w) = handleNavbarScroll w.
Proof.
  cbn zeta.
  assert (Hflag : isScrolled (state (handleNavbarScroll w))
                  = (scrollThreshold (config w) <? scrollY w)%Z).
  { unfold handleNavbarScroll. case_bool_decide as Hcross; [reflexivity|].
    by rewrite Hcross. }
  split; [exact Hflag|]. split; [|split].
  - intros Hsame. unfold handleNavbarScroll.
    by rewrite bool_decide_eq_false_2 by (intros Hne; by apply Hne).
  - intros Hcross. unfold handleNavbarScroll.
    rewrite bool_decide_eq_true_2 by (intros Heq; by apply Hcross).
    unfold updateNavbarAppearance. cbn.
    destruct (scrollThreshold (config w) <? scrollY w)%Z;
      [apply contains_add | apply contains_remove].
  - destruct (handleNavbarScroll_keeps w) as (Hy & Hc & _).
    unfold handleNavbarScroll at 1.
    rewrite Hy, Hc, Hflag.
    by rewrite bool_decide_eq_false_2 by (intros Hne; by apply Hne).
Qed.

Lemma updateActiveSection_active w :
  activeSection (state (updateActiveSection w)) = scan (probe w) (sections w).
Proof.
  unfold updateActiveSection. case_bool_decide as Hchanged; [reflexivity|].
  by rewrite Hchanged.
Qed.

Lemma updateActiveSection_again w :
  updateActiveSection (updateActiveSection w) = updateActiveSection w.
Proof.
  pose proof (updateActiveSection_active w) as Hactive.
  assert (Hprobe : probe (updateActiveSection w) = probe w ∧
                   sections (updateActiveSection w) = sections w).
  { unfold updateActiveSection. case_bool_decide; done. }
  destruct Hprobe as [Hprobe Hsections].
  unfold updateActiveSection at 1. rewrite Hprobe, Hsections, Hactive.
  by rewrite bool_decide_eq_false_2 by (intros Hne; by apply Hne).
Qed.

(** The scroll-spy is idempotent, and so the throttle changes nothing:
    since [updateActiveSection] is also bound to the scroll event
    directly, a scroll event leaves the module as the unthrottled
    listeners leave it, whether the throttled copy runs or is
    suppressed. *)
Theorem throttle_makes_no_difference (y : Z) (s : Spy) :
  updateActiveSection (updateActiveSection (world s)) = updateActiveSection (world s) ∧
  world (scrollEvent y s) = onScroll y (world s) ∧
  inThrottle (scrollEvent y s) = true ∧
  world (scrollEvent y (throttleTimer s)) = world (scrollEvent y s).
Proof.
  split; [apply updateActiveSection_again|].
  assert (Hworld : ∀ t, world (scrollEvent y t) = onScroll y (world t)).
  { intros t. unfold scrollEvent, throttledScrollSpy. cbn [inThrottle world].
    destruct (inThrottle t); [reflexivity|]. cbn [world].
    unfold onScroll. apply updateActiveSection_again. }
  split; [apply Hworld|]. split.
  - unfold scrollEvent, throttledScrollSpy. cbn [inThrottle].
    by destruct (inThrottle s).
  - by rewrite !Hworld.
Qed.

Lemma markLinks_lookup activeId links link :
  link ∈ markLinks activeId links →
  ∃ link0, link0 ∈ links ∧
    getAttribute "href" link = getAttribute "href" link0 ∧
    contains "active" link = bool_decide (getAttribute "href" link0 = Some activeId) ∧
    getAttribute "aria-current" link
      = Some (if bool_decide (getAttribute "href" link0 = Some activeId)
              then "page" else "false").
Proof.
  unfold markLinks. intros Hlink.
  apply list_elem_of_fmap in Hlink as (link0 & -> & Hin).
  exists link0. split; [exact Hin|]. split; [|split].
  - rewrite getAttribute_setAttribute_ne by done.
    unfold getAttribute. by rewrite attrs_toggle.
  - unfold contains. cbn [classList setAttribute].
    exact (contains_toggle "active" _ link0).
  - apply getAttribute_setAttribute.
Qed.

(** [setActiveNavLink] keeps the active class and [aria-current] in
    lock-step on every link: a link whose [href] is the given one gets
    the class and [aria-current="page"], every other link loses the
    class and gets [aria-current="false"]; the links themselves and
    their targets stay as they are. *)
Theorem setActiveNavLink_lock_step (activeId : string) (w : World) :
  (∀ link, link ∈ navLinks (setActiveNavLink activeId w) →
     (getAttribute "href" link = Some activeId →
        contains "active" link = true ∧
        getAttribute "aria-current" link = Some "page") ∧
     (getAttribute "href" link ≠ Some activeId →
        contains "active" link = false ∧
        getAttribute "aria-current" link = Some "false"))
  ∧
  map (getAttribute "href") (navLinks (setActiveNavLink activeId w))
    = map (getAttribute "href") (navLinks w)
  ∧
  state (setActiveNavLink activeId w) = state w.
Proof.
  split; [|split; [|reflexivity]].
  - intros link Hlink. cbn in Hlink.
    apply markLinks_lookup in Hlink as (link0 & _ & Hhref & Hclass & Haria).
    rewrite Hhref, Hclass, Haria. split; intros Hcase.
    + by rewrite bool_decide_eq_true_2.
    + by rewrite bool_decide_eq_false_2.
  - apply list_eq. intros k. rewrite !list_lookup_fmap.
    cbn [navLinks setActiveNavLink]. unfold markLinks. rewrite list_lookup_fmap.
    destruct (navLinks w !! k) as [link|]; [|reflexivity].
    cbn [fmap option_fmap option_map]. f_equal.
    rewrite getAttribute_setAttribute_ne by done.
    unfold getAttribute. by rewrite attrs_toggle.
Qed.

(** A click on the link of a section marks that link at once and asks
    for a scroll to [offsetTop - sectionOffset].  When the window gets
    there, the probe stands 50 pixels inside the section: if the section
    is more than 50 pixels high and no later section covers that point,
    the scroll-spy names it the active section, and the links agree
    with it. *)
Theorem navigate_then_arrive (w : World) (before after : list Section)
  (section : Section) :
  sections w = before ++ section :: after →
  (50 < offsetHeight section)%Z →
  (∀ later, later ∈ after → inBand (offsetTop section + 50) later = false) →
  let target := scrollToSection section ("#" +:+ sectionId section) w in
  (target.1 = (offsetTop section - sectionOffset (config w))%Z ∧
   state target.2 = state w ∧
   (∀ link, link ∈ navLinks target.2 →
      contains "active" link = targets (sectionId section) link) ∧
   activeSection (state (onScroll target.1 target.2)) = sectionId section ∧
   linksAgree (onScroll target.1 target.2)).
Proof.
  intros Hsections Hhigh Hafter. cbn zeta.
  unfold scrollToSection. cbn [fst snd].
  split; [reflexivity|]. split; [reflexivity|].
  split.
  { intros link Hlink. cbn in Hlink. by apply markLinks_spec in Hlink as [-> _]. }
  set (arrived :=
    handleNavbarScroll
      {| config := config (setActiveNavLink ("#" +:+ sectionId section) w);
         state := state (setActiveNavLink ("#" +:+ sectionId section) w);
         scrollY := offsetTop section - sectionOffset (config w);
         sections := sections (setActiveNavLink ("#" +:+ sectionId section) w);
         navLinks := navLinks (setActiveNavLink ("#" +:+ sectionId section) w);
         navbar := navbar (setActiveNavLink ("#" +:+ sectionId section) w) |}).
  assert (Honscroll : onScroll (offsetTop section - sectionOffset (config w))
                        (setActiveNavLink ("#" +:+ sectionId section) w)
                      = updateActiveSection arrived) by reflexivity.
  rewrite Honscroll.
  destruct (handleNavbarScroll_keeps
    {| config := config (setActiveNavLink ("#" +:+ sectionId section) w);
       state := state (setActiveNavLink ("#" +:+ sectionId section) w);
       scrollY := offsetTop section - sectionOffset (config w);
       sections := sections (setActiveNavLink ("#" +:+ sectionId section) w);
       navLinks := navLinks (setActiveNavLink ("#" +:+ sectionId section) w);
       navbar := navbar (setActiveNavLink ("#" +:+ sectionId section) w) |})
    as (Hy & Hc & Hs & Hl & Ha).
  fold arrived in Hy, Hc, Hs, Hl, Ha. cbn in Hy, Hc, Hs, Hl, Ha.
  assert (Hprobe : probe arrived = (offsetTop section + 50)%Z).
  { unfold probe. rewrite Hy, Hc. lia. }
  assert (Hin : inBand (offsetTop section + 50) section = true).
  { unfold inBand. apply andb_true_iff.
    split; [apply Z.leb_le | apply Z.ltb_lt]; lia. }
  assert (Hactive : activeSection (state (updateActiveSection arrived))
                    = sectionId section).
  { rewrite updateActiveSection_active, Hprobe, Hs, Hsections.
    by apply scan_last. }
  split; [exact Hactive|].
  intros link Hlink. rewrite Hactive.
  unfold updateActiveSection in Hlink. case_bool_decide as Hchanged.
  - cbn in Hlink. rewrite Hprobe, Hs, Hsections in Hlink.
    rewrite (scan_last _ before section after Hin Hafter) in Hlink.
    by apply markLinks_spec in Hlink.
  - rewrite Hl in Hlink. by apply markLinks_spec in Hlink.
Qed.

End NavigationMoreFacts.

(** ** Mobile menu: attributes, resize, overlay and swipe *)

Section MobileMenuMoreFacts.
Import Dom MobileMenu.

(** [coherent] looks only at the flags and the attributes of the two
    elements. *)
Lemma coherent_same_face w w' :
  appIsMobileMenuOpen w' = appIsMobileMenuOpen w →
  isOpen (state w') = isOpen (state w) →
  isAnimating (state w') = isAnimating (state w) →
  suspended w' = suspended w →
  attrs (hamburger w') = attrs (hamburger w) →
  attrs (navMenu w') = attrs (navMenu w) →
  coherent w → coherent w'.
Proof.
  intros Happ Hopen Hanim Hsusp Hham Hnav.
  unfold coherent, presents, getAttribute.
  by rewrite Happ, Hopen, Hanim, Hsusp, Hham, Hnav.
Qed.

Lemma coherent_idle w :
  coherent w → isAnimating (state w) = false →
  suspended w = None ∧ presents (isOpen (state w)) w.
Proof.
  intros [_ Hsusp] Hidle.
  destruct (suspended w) as [[fresh| |]|]; [| | |tauto];
    destruct Hsusp as (Hanim & _); congruence.
Qed.

Lemma coherent_open w : coherent w → coherent (open w).
Proof.
  intros Hw. unfold open.
  destruct (isOpen (state w)) eqn:Hopen; [exact Hw|].
  destruct (isAnimating (state w)) eqn:Hanim; [exact Hw|].
  destruct (isMobile (state w)); [|exact Hw]. cbn [orb negb].
  destruct (coherent_idle w Hw Hanim) as (_ & [Hexp Hhid]).
  rewrite Hopen in Hexp, Hhid.
  split; [reflexivity|]. cbn [suspended state isAnimating isOpen].
  split; [reflexivity|]. split; [reflexivity|].
  unfold presents, getAttribute in *. cbn [hamburger navMenu].
  rewrite attrs_add. by split.
Qed.

Lemma presents_finishClose w : presents false (finishClose w).
Proof.
  unfold presents, finishClose. cbn [hamburger navMenu]. split.
  - rewrite getAttribute_setAttribute_ne by done. apply getAttribute_setAttribute.
  - apply getAttribute_setAttribute.
Qed.

Lemma presents_finishOpen w : presents true (finishOpen w).
Proof.
  unfold presents, finishOpen. cbn [hamburger navMenu]. split.
  - rewrite getAttribute_setAttribute_ne by done. apply getAttribute_setAttribute.
  - apply getAttribute_setAttribute.
Qed.

Lemma coherent_finishClose w :
  appIsMobileMenuOpen w = isOpen (state w) → isOpen (state w) = false →
  coherent (finishClose w).
Proof.
  intros Happ Hopen. split; [exact Happ|].
  cbn [suspended finishClose state isAnimating isOpen].
  rewrite Hopen. split; [reflexivity|].
  apply presents_finishClose.
Qed.

Lemma coherent_close animate w : coherent w → coherent (close animate w).
Proof.
  intros Hw. unfold close.
  destruct (isOpen (state w)) eqn:Hopen; [|exact Hw].
  destruct (isAnimating (state w)) eqn:Hanim; [exact Hw|]. cbn [orb negb].
  destruct (coherent_idle w Hw Hanim) as (_ & [Hexp Hhid]).
  rewrite Hopen in Hexp, Hhid.
  destruct animate.
  - split; [reflexivity|]. cbn [suspended state isAnimating isOpen].
    split; [reflexivity|]. split; [reflexivity|].
    unfold presents, getAttribute in *. cbn [hamburger navMenu]. by split.
  - by apply coherent_finishClose.
Qed.

Lemma coherent_resume w : coherent w → coherent (resume w).
Proof.
  intros Hw. unfold resume.
  destruct (suspended w) as [[fresh| |]|] eqn:Hs; [| | |exact Hw];
    destruct Hw as [Happ Hsusp]; rewrite Hs in Hsusp.
  - destruct Hsusp as (Hanim & Hopen & [Hexp Hhid]).
    split; [exact Happ|]. cbn [suspended state withNavMenu].
    split; [exact Hanim|]. split; [exact Hopen|].
    unfold presents, getAttribute in *. cbn [hamburger navMenu withNavMenu]. by split.
  - destruct Hsusp as (Hanim & Hopen & [Hexp Hhid]).
    split; [exact Happ|]. cbn [suspended finishOpen state isAnimating isOpen].
    rewrite Hopen. split; [reflexivity|].
    apply presents_finishOpen.
  - destruct Hsusp as (Hanim & Hopen & _).
    by apply coherent_finishClose.
Qed.

Lemma coherent_checkMobileState width w :
  coherent w → coherent (checkMobileState width w).
Proof.
  intros Hw. unfold checkMobileState.
  match goal with
  | |- coherent (if _ then close false ?w1 else _) =>
      assert (H1 : coherent w1) by (by apply (coherent_same_face w))
  end.
  destruct (_ && _); [by apply coherent_close | exact H1].
Qed.

Lemma coherent_step ev w : coherent w → coherent (step ev w).
Proof.
  intros Hw. destruct ev; cbn [step].
  - unfold toggle. destruct (isOpen (state w));
      [by apply coherent_close | by apply coherent_open].
  - by apply coherent_open.
  - by apply coherent_close.
  - by apply coherent_resume.
  - by apply coherent_checkMobileState.
  - unfold handleEscape. destruct (negb _); [exact Hw | by apply coherent_close].
  - unfold handleOutsideClick. destruct (_ || _); [exact Hw|].
    destruct (negb inside); [by apply coherent_close | exact Hw].
  - unfold handleNavLinkClick. destruct (_ && _); [by apply coherent_close | exact Hw].
  - by apply (coherent_same_face w).
  - unfold handleTouchMove. destruct (negb _); [exact Hw|].
    destruct (_ && _); [|exact Hw]. by apply (coherent_same_face w).
  - unfold handleTouchEnd. destruct (negb _); [exact Hw|].
    match goal with
    | |- coherent (if _ then close true ?w1 else _) =>
        assert (H1 : coherent w1) by (by apply (coherent_same_face w))
    end.
    destruct (_ <? _)%Z; [by apply coherent_close | exact H1].
  - unfold removeOverlay. destruct (removals w); [exact Hw|].
    by apply (coherent_same_face w).
  - by apply (coherent_same_face w).
  - unfold setBreakpoint. apply coherent_checkMobileState.
    by apply (coherent_same_face w).
Qed.

(** In every state the page can reach, whatever the modal manager did
    in between: the application's flag mirrors [isOpen], and whenever no
    menu animation runs, [aria-expanded] on the hamburger and
    [aria-hidden] on the menu say whether the menu is open; while an
    animation runs they still show the state the menu is leaving. *)
Theorem reachable_coherent (p : Page.World) :
  Page.reachable p → coherent (Page.mobileMenu p).
Proof.
  induction 1 as [page focused width menu button links|[ev|ev] p _ IH].
  - split; [reflexivity|]. cbn [Page.init Page.mobileMenu suspended init state
                                 isAnimating isOpen].
    split; [reflexivity|]. split.
    + cbn [hamburger init]. rewrite getAttribute_setAttribute_ne by done.
      apply getAttribute_setAttribute.
    + cbn [navMenu init]. apply getAttribute_setAttribute.
  - cbn [Page.step Page.mobileMenu]. by apply (coherent_same_face (Page.mobileMenu p)).
  - cbn [Page.step Page.mobileMenu]. by apply coherent_step.
Qed.

(** A resize to desktop width closes an open menu at once, without
    animation, when no animation runs: the menu is closed and at rest,
    the attributes say closed, the scroll is released.  During an
    animation the resize only records the desktop mode: an opening menu
    goes on opening and ends up open in desktop mode. *)
Theorem resize_to_desktop (w : World) (width : Z) :
  (breakpoint (config w) < width)%Z →
  isOpen (state w) = true →
  let w' := checkMobileState width w in
  (isMobile (state w') = false ∧
   (isAnimating (state w) = false →
      isOpen (state w') = false ∧ isAnimating (state w') = false ∧
      suspended w' = None ∧ appIsMobileMenuOpen w' = false ∧
      bodyOverflow w' = "" ∧ presents false w' ∧
      dispatched w' = dispatched w ++ [("mobileMenuClosed", false)]) ∧
   (isAnimating (state w) = true →
      isOpen (state w') = true ∧ suspended w' = suspended w ∧
      (suspended w = Some Opening →
         isOpen (state (resume w')) = true ∧
         isAnimating (state (resume w')) = false ∧
         isMobile (state (resume w')) = false))).
Proof.
  intros Hwide Hopen. cbn zeta. unfold checkMobileState.
  cbn [state isMobile isOpen].
  assert (Hdesktop : (width <=? breakpoint (config w))%Z = false)
    by (apply Z.leb_gt; lia).
  rewrite Hdesktop, Hopen. cbn [negb andb].
  unfold close. cbn [state isOpen isAnimating negb orb].
  destruct (isAnimating (state w)) eqn:Hanim.
  - split; [reflexivity|]. split; [discriminate|]. intros _.
    cbn [state isOpen suspended]. split; [reflexivity|]. split; [reflexivity|].
    intros Hs. unfold resume. cbn [suspended]. rewrite Hs.
    cbn. done.
  - split; [reflexivity|]. split; [|discriminate]. intros _.
    repeat (split; [reflexivity|]).
    split; [|reflexivity]. split.
    + cbn. rewrite lookup_insert_ne by done. apply lookup_insert_eq.
    + cbn. apply lookup_insert_eq.
Qed.

(** The overlay can be lost.  When an open menu is closed and toggled
    open again before the removal timer of the old overlay has fired,
    [createOverlay] finds the fading overlay and creates none; the timer
    then removes it, and the menu ends up open without overlay. *)
Theorem overlay_lost_on_quick_reopen (w : World) (o : nat * Element) :
  isOpen (state w) = true →
  isAnimating (state w) = false →
  isMobile (state w) = true →
  overlay w = Some o →
  removals w = [] →
  let closed := resume (toggle w) in
  let reopened := resume (removeOverlay (resume (toggle closed))) in
  (isOpen (state closed) = false ∧ isAnimating (state closed) = false ∧
   isOpen (state reopened) = true ∧ isAnimating (state reopened) = false ∧
   suspended reopened = None ∧
   overlay reopened = None).
Proof.
  intros Hopen Hidle Hmobile Hoverlay Hremovals. cbn zeta.
  destruct w as [cfg [isOpen0 isAnimating0 isMobile0 x0 y0] app width menu links
                   button body overlay0 created susp removals0 timers0 events].
  cbn in Hopen, Hidle, Hmobile, Hoverlay, Hremovals. subst.
  set (w := {| config := cfg; state := _ |}).
  repeat (split; [reflexivity|]).
  assert (Hoverlay : overlay (resume (removeOverlay (resume (toggle (resume (toggle w))))))
    = (if (o.1 =? o.1)%nat then None else Some (o.1, setStyle "opacity" "0" o.2)))
    by reflexivity.
  rewrite Hoverlay. by rewrite Nat.eqb_refl.
Qed.

(** The swipe threshold.  On an open menu at rest, a touch that ends
    more than [swipeThreshold] pixels to the left of where it started
    starts the close; a touch that ends anywhere else, the threshold
    itself included, leaves the menu open and only clears the inline
    transform and opacity.  On a closed menu the end of a touch does
    nothing. *)
Theorem swipe_threshold (w : World) (startX startY endX : Z) :
  let touched := handleTouchStart startX startY w in
  let w' := handleTouchEnd endX touched in
  (isOpen (state w) = false → w' = touched) ∧
  (isOpen (state w) = true → isAnimating (state w) = false →
   (endX - startX < - swipeThreshold (config w))%Z →
   isOpen (state w') = false ∧ suspended w' = Some Closing) ∧
  (isOpen (state w) = true →
   (- swipeThreshold (config w) <= endX - startX)%Z →
   isOpen (state w') = true ∧ suspended w' = suspended w ∧
   getStyle "transform" (navMenu w') = Some "" ∧
   getStyle "opacity" (navMenu w') = Some "").
Proof.
  cbn zeta.
  destruct w as [cfg [isOpen0 isAnimating0 isMobile0 x0 y0] app width menu links
                   button body overlay0 created susp removals0 timers0 events].
  unfold handleTouchEnd, handleTouchStart.
  cbn [state isOpen isAnimating touchStartX config suspended].
  split; [|split].
  - by intros ->.
  - intros -> -> Hfar. cbn [negb].
    rewrite (proj2 (Z.ltb_lt _ _) Hfar). split; reflexivity.
  - intros -> Hnear. cbn [negb].
    rewrite (proj2 (Z.ltb_ge _ _) Hnear).
    split; [reflexivity|]. split; [reflexivity|].
    cbn [navMenu withNavMenu]. split; [|apply getStyle_setStyle].
    unfold getStyle. cbn [style setStyle].
    rewrite lookup_insert_ne by done. apply lookup_insert_eq.
Qed.

(** Opening the menu and closing it again, each animation running to
    its end, brings the module back: the flags are as before, the
    attributes say closed, the scroll is released, the menu is hidden
    and the hamburger has lost its class [active]. *)
Theorem toggle_twice (w : World) :
  isOpen (state w) = false →
  isAnimating (state w) = false →
  isMobile (state w) = true →
  let w' := resume (toggle (resume (resume (toggle w)))) in
  (state w' = state w ∧
   appIsMobileMenuOpen w' = false ∧
   suspended w' = None ∧
   bodyOverflow w' = "" ∧
   presents false w' ∧
   getStyle "display" (navMenu w') = Some "none" ∧
   contains "active" (hamburger w') = false ∧
   dispatched w' = dispatched w ++ [("mobileMenuOpened", true); ("mobileMenuClosed", false)]).
Proof.
  intros Hclosed Hidle Hmobile. cbn zeta.
  destruct w as [cfg [isOpen0 isAnimating0 isMobile0 x0 y0] app width menu links
                   button body overlay0 created susp removals0 timers0 events].
  cbn in Hclosed, Hidle, Hmobile. subst.
  set (w := {| config := cfg; state := _ |}).
  set (opened := resume (resume (toggle w))).
  assert (Hmenu : navMenu (resume (toggle opened))
    = setAttribute "aria-hidden" "true"
        (setStyle "opacity" ""
           (setStyle "transform" ""
              (setStyle "transition" ""
                 (setStyle "display" "none" (navMenu (toggle opened)))))))
    by reflexivity.
  assert (Hbutton : hamburger (resume (toggle opened))
    = setAttribute "aria-label" "Open navigation menu"
        (setAttribute "aria-expanded" "false" (remove "active" (hamburger opened))))
    by reflexivity.
  repeat (split; [reflexivity|]).
  split.
  { split.
    - rewrite Hbutton. rewrite getAttribute_setAttribute_ne by done.
      apply getAttribute_setAttribute.
    - rewrite Hmenu. apply getAttribute_setAttribute. }
  split.
  { rewrite Hmenu. unfold getStyle. cbn [style setAttribute setStyle].
    rewrite !lookup_insert_ne by done. apply lookup_insert_eq. }
  split.
  { rewrite Hbutton. unfold contains. cbn [classList setAttribute].
    apply contains_remove. }
  change (dispatched (resume (toggle opened)))
    with ((dispatched w ++ [("mobileMenuOpened", true)]) ++ [("mobileMenuClosed", false)]).
  by rewrite <- app_assoc.
Qed.

End MobileMenuMoreFacts.

(** ** The page: one scroll lock for two modules *)

Section PageFacts.
Import Dom.

(** A step of the modal manager releases the scroll, or locks it for a
    modal that is then active, or leaves it alone, and then an active
    modal stays active. *)
Lemma modals_step_overflow ev m :
  Modals.bodyOverflow (Modals.step ev m) = "" ∨
  (Modals.bodyOverflow (Modals.step ev m) = "hidden" ∧
   is_Some (Modals.activeModal (Modals.step ev m))) ∨
  (Modals.bodyOverflow (Modals.step ev m) = Modals.bodyOverflow m ∧
   (is_Some (Modals.activeModal m) → is_Some (Modals.activeModal (Modals.step ev m)))).
Proof.
  assert (Hclose : ∀ w,
    Modals.bodyOverflow (Modals.close w) = Modals.bodyOverflow w ∧
    Modals.activeModal (Modals.close w) = Modals.activeModal w).
  { intros w. unfold Modals.close, Modals.closeThen, Modals.continue.
    destruct (Modals.activeModal w) eqn:Hw; [|done].
    by destruct (Modals.isAnimating w). }
  assert (Hkeep : ∀ w',
    Modals.bodyOverflow w' = Modals.bodyOverflow m ∧
    Modals.activeModal w' = Modals.activeModal m →
    Modals.bodyOverflow w' = "" ∨
    (Modals.bodyOverflow w' = "hidden" ∧ is_Some (Modals.activeModal w')) ∨
    (Modals.bodyOverflow w' = Modals.bodyOverflow m ∧
     (is_Some (Modals.activeModal m) → is_Some (Modals.activeModal w')))).
  { intros w' [Hbody Hactive]. right. right. by rewrite Hbody, Hactive. }
  destruct ev; cbn [Modals.step].
  - unfold Modals.open. destruct (Modals.isAnimating m) eqn:Hanim; [by apply Hkeep|].
    destruct (Modals.modals m !! modalId); [|by apply Hkeep].
    destruct (Modals.activeModal m) eqn:Hactive.
    + apply Hkeep. unfold Modals.closeThen. by rewrite Hactive, Hanim.
    + right. left. cbn. split; [reflexivity | by eexists].
  - apply Hkeep, Hclose.
  - unfold Modals.resume.
    destruct (Modals.suspended m) as [[modal [id|]|id|id]|]; [| | | |by apply Hkeep].
    + right. left. cbn. split; [reflexivity | by eexists].
    + left. reflexivity.
    + by apply Hkeep.
    + apply Hkeep. unfold Modals.finishOpen, Modals.focus, Modals.withModal. cbn.
      destruct (setupFocusTrap_state id m) as (-> & _).
      by destruct (setupFocusTrap_rest id m) as (-> & _).
  - unfold Modals.handleKeydown. destruct (Modals.activeModal m) eqn:Hactive;
      [|by apply Hkeep].
    destruct (_ && _); [|by apply Hkeep]. apply Hkeep.
    destruct (Hclose m) as [-> ->]. by rewrite Hactive.
  - unfold Modals.handleBackdropClick. destruct (Modals.activeModal m) eqn:Hactive;
      [|by apply Hkeep].
    destruct (_ || _); [|by apply Hkeep]. apply Hkeep.
    destruct (Hclose m) as [-> ->]. by rewrite Hactive.
  - unfold Modals.handleTabKey. destruct (Modals.modals m !! modalId) as [x|];
      [|by apply Hkeep].
    destruct (negb (Modals.focusTrapHandler x)); [by apply Hkeep|].
    destruct shiftKey; case_bool_decide; by apply Hkeep.
  - unfold Modals.focusTimer. destruct (Modals.focusTimers m); by apply Hkeep.
  - by apply Hkeep.
  - by apply Hkeep.
Qed.

(** The same of the mobile menu. *)
Lemma menu_step_overflow ev n :
  MobileMenu.bodyOverflow (MobileMenu.step ev n) = "" ∨
  (MobileMenu.bodyOverflow (MobileMenu.step ev n) = "hidden" ∧
   Page.menuHolds (MobileMenu.step ev n)) ∨
  (MobileMenu.bodyOverflow (MobileMenu.step ev n) = MobileMenu.bodyOverflow n ∧
   (Page.menuHolds n → Page.menuHolds (MobileMenu.step ev n))).
Proof.
  set (P := λ n n' : MobileMenu.World,
    MobileMenu.bodyOverflow n' = "" ∨
    (MobileMenu.bodyOverflow n' = "hidden" ∧ Page.menuHolds n') ∨
    (MobileMenu.bodyOverflow n' = MobileMenu.bodyOverflow n ∧
     (Page.menuHolds n → Page.menuHolds n'))).
  change (P n (MobileMenu.step ev n)).
  assert (Hsame : ∀ w w',
    MobileMenu.bodyOverflow w' = MobileMenu.bodyOverflow w →
    MobileMenu.isOpen (MobileMenu.state w') = MobileMenu.isOpen (MobileMenu.state w) →
    MobileMenu.suspended w' = MobileMenu.suspended w → P w w').
  { intros w w' Hbody Hopen Hsusp. right. right. split; [exact Hbody|].
    unfold Page.menuHolds. by rewrite Hopen, Hsusp. }
  assert (Hrefl : ∀ w, P w w) by (intros w; by apply Hsame).
  assert (Hvia : ∀ w w1 w2,
    MobileMenu.bodyOverflow w1 = MobileMenu.bodyOverflow w →
    MobileMenu.isOpen (MobileMenu.state w1) = MobileMenu.isOpen (MobileMenu.state w) →
    MobileMenu.suspended w1 = MobileMenu.suspended w → P w1 w2 → P w w2).
  { intros w w1 w2 Hbody Hopen Hsusp. unfold P, Page.menuHolds.
    by rewrite Hbody, Hopen, Hsusp. }
  assert (Hopen : ∀ w, P w (MobileMenu.open w)).
  { intros w. unfold MobileMenu.open. destruct (_ || _); [apply Hrefl|].
    right. left. split; [reflexivity|]. by left. }
  assert (Hclose : ∀ animate w, P w (MobileMenu.close animate w)).
  { intros animate w. unfold MobileMenu.close. destruct (_ || _); [apply Hrefl|].
    destruct animate; [|by left].
    right. right. split; [reflexivity|]. intros _. by right. }
  assert (Hcheck : ∀ width w, P w (MobileMenu.checkMobileState width w)).
  { intros width w. unfold MobileMenu.checkMobileState.
    match goal with
    | |- P _ (if _ then MobileMenu.close false ?w1 else _) =>
        destruct (_ && _); [apply (Hvia w w1); [done|done|done|apply Hclose]|
                            by apply Hsame]
    end. }
  destruct ev; cbn [MobileMenu.step].
  - unfold MobileMenu.toggle. destruct (MobileMenu.isOpen _); [apply Hclose | apply Hopen].
  - apply Hopen.
  - apply Hclose.
  - unfold MobileMenu.resume.
    destruct (MobileMenu.suspended n) as [[fresh| |]|] eqn:Hs; [| | |apply Hrefl].
    + right. right. split; [reflexivity|].
      intros [Hopen'|Hclosing]; [by left | congruence].
    + right. right. split; [reflexivity|].
      intros [Hopen'|Hclosing]; [by left | congruence].
    + by left.
  - apply Hcheck.
  - unfold MobileMenu.handleEscape. destruct (negb _); [apply Hrefl | apply Hclose].
  - unfold MobileMenu.handleOutsideClick. destruct (_ || _); [apply Hrefl|].
    destruct (negb inside); [apply Hclose | apply Hrefl].
  - unfold MobileMenu.handleNavLinkClick.
    destruct (_ && _); [apply Hclose | apply Hrefl].
  - by apply Hsame.
  - unfold MobileMenu.handleTouchMove. destruct (negb _); [apply Hrefl|].
    destruct (_ && _); [by apply Hsame | apply Hrefl].
  - unfold MobileMenu.handleTouchEnd. destruct (negb _); [apply Hrefl|].
    match goal with
    | |- P _ (if _ then MobileMenu.close true ?w1 else _) =>
        destruct (_ <? _)%Z; [apply (Hvia n w1); [done|done|done|apply Hclose]|
                              by apply Hsame]
    end.
  - unfold MobileMenu.removeOverlay. destruct (MobileMenu.removals n);
      [apply Hrefl | by apply Hsame].
  - by apply Hsame.
  - unfold MobileMenu.setBreakpoint.
    match goal with
    | |- P _ (MobileMenu.checkMobileState _ ?w1) =>
        apply (Hvia n w1); [done|done|done|apply Hcheck]
    end.
Qed.

Lemma scrollAccounted_step ev p :
  Page.scrollAccounted p → Page.scrollAccounted (Page.step ev p).
Proof.
  intros [Hsync Hp]. unfold Page.scrollAccounted, Page.overflow, Page.held in *.
  destruct ev as [ev|ev]; cbn [Page.step Page.modals Page.mobileMenu].
  - split; [reflexivity|].
    change (Page.menuHolds (Page.menuAt _ (Page.mobileMenu p)))
      with (Page.menuHolds (Page.mobileMenu p)).
    destruct (modals_step_overflow ev (Page.modals p)) as [Hrel|[[Hlock Hact]|[Hkeep Hact]]].
    + by left.
    + right. split; [exact Hlock | by left].
    + rewrite Hkeep. destruct Hp as [Hfree|[Hlock [Hmodal|Hmenu]]].
      * by left.
      * right. split; [exact Hlock|]. left. by apply Hact.
      * right. split; [exact Hlock|]. by right.
  - cbn [Page.modalsAt Modals.bodyOverflow Modals.activeModal].
    split; [reflexivity|].
    destruct (menu_step_overflow ev (Page.mobileMenu p)) as [Hrel|[[Hlock Hact]|[Hkeep Hact]]].
    + by left.
    + right. split; [exact Hlock | by right].
    + rewrite Hkeep, Hsync. destruct Hp as [Hfree|[Hlock [Hmodal|Hmenu]]].
      * by left.
      * right. split; [exact Hlock|]. by left.
      * right. split; [exact Hlock|]. right. by apply Hact.
Qed.

(** On the page, where the modal manager and the mobile menu write the
    same [document.body.style.overflow]: in every state the page can
    reach the property is empty or ["hidden"], and it is ["hidden"] only
    while a modal is active, the menu is open or the menu's closing
    animation runs.  So once every modal and the menu are closed and at
    rest, the page scrolls again. *)
Theorem reachable_scroll_held (p : Page.World) :
  Page.reachable p →
  (Page.overflow p = "" ∨ Page.overflow p = "hidden") ∧
  (Page.overflow p = "hidden" → Page.held p) ∧
  (Modals.activeModal (Page.modals p) = None →
   MobileMenu.isOpen (MobileMenu.state (Page.mobileMenu p)) = false →
   MobileMenu.suspended (Page.mobileMenu p) = None →
   Page.overflow p = "").
Proof.
  intros Hreach.
  assert (Hp : Page.scrollAccounted p).
  { induction Hreach as [page focused width menu button links|ev p _ IH];
      [|by apply scrollAccounted_step].
    split; [reflexivity|]. by left. }
  destruct Hp as [_ Hp]. split; [|split].
  - destruct Hp as [Hfree|[Hlock _]]; [by left | by right].
  - intros Hlock. destruct Hp as [Hfree|[_ Hheld]]; [congruence | exact Hheld].
  - intros Hnone Hclosed Hrest. destruct Hp as [Hfree|[_ [[x Hx]|[Hopen|Hclosing]]]];
      [exact Hfree| | |]; congruence.
Qed.

(** The converse fails: each module releases the scroll when it closes,
    whatever the other one shows.  With a modal active and the menu
    open, both at rest, closing the menu leaves the modal active over a
    page that scrolls, and closing the modal leaves the menu open over a
    page that scrolls. *)
Theorem scroll_released_under_the_other (p : Page.World) (id : string) :
  Modals.activeModal (Page.modals p) = Some id →
  Modals.isAnimating (Page.modals p) = false →
  MobileMenu.isOpen (MobileMenu.state (Page.mobileMenu p)) = true →
  MobileMenu.isAnimating (MobileMenu.state (Page.mobileMenu p)) = false →
  let p1 := Page.run [Page.OfMenu MobileMenu.Toggle; Page.OfMenu MobileMenu.Resume] p in
  let p2 := Page.run [Page.OfModals Modals.Close; Page.OfModals Modals.Resume] p in
  (Page.overflow p1 = "" ∧
   Modals.activeModal (Page.modals p1) = Some id ∧
   MobileMenu.isOpen (MobileMenu.state (Page.mobileMenu p1)) = false) ∧
  (Page.overflow p2 = "" ∧
   Modals.activeModal (Page.modals p2) = None ∧
   MobileMenu.isOpen (MobileMenu.state (Page.mobileMenu p2)) = true).
Proof.
  intros Hactive Hidle Hopen Hrest. cbn zeta.
  destruct p as [m n]. cbn [Page.modals Page.mobileMenu] in *.
  unfold Page.run, Page.overflow. cbn [foldl Page.step Page.modals Page.mobileMenu].
  split.
  - cbn [Page.modalsAt Modals.bodyOverflow Modals.activeModal MobileMenu.step].
    assert (Htoggle : MobileMenu.suspended (MobileMenu.toggle n) = Some MobileMenu.Closing ∧
                      MobileMenu.isOpen (MobileMenu.state (MobileMenu.toggle n)) = false).
    { unfold MobileMenu.toggle, MobileMenu.close. rewrite Hopen, Hrest. by cbn. }
    destruct Htoggle as [Hs Hclosed].
    unfold MobileMenu.resume. rewrite Hs.
    cbn [MobileMenu.finishClose MobileMenu.bodyOverflow MobileMenu.state MobileMenu.isOpen
         MobileMenu.withNavMenu].
    split; [reflexivity|]. split; [exact Hactive | exact Hclosed].
  - cbn [Page.menuAt MobileMenu.state Modals.step].
    assert (Hclose : Modals.suspended (Modals.close m) = Some (Modals.Closing id None)).
    { unfold Modals.close, Modals.closeThen. by rewrite Hactive, Hidle. }
    unfold Modals.resume. rewrite Hclose. cbn [Modals.continue].
    split; [reflexivity|]. split; [reflexivity | exact Hopen].
Qed.

End PageFacts.

(** ** Mail server: newsletter endpoint and transporter *)

Section ServerMoreFacts.
Import Server.

(** The newsletter handler answers 400 exactly when [email] is missing
    or fails the pattern ([test] returns [false]); it answers 200
    exactly when the e-mail matches, the transporter exists, the mail
    can be composed and is sent; every other answer is 500, the one of
    the [catch] among them.  Only the [email] and [name] fields decide
    the response.  For an e-mail given as a string, the request passes
    validation exactly when the string has the shape
    [local@domain.tail]. *)
Theorem newsletterSubscribe_validation (transporter delivered : bool) (body : Body) :
  let response := newsletterSubscribe transporter delivered body in
  (status response = 400%nat ↔ missing "email" body ∨ emailFails body) ∧
  (status response = 400%nat → success response = false) ∧
  (status response = 200%nat ↔
     ¬ missing "email" body ∧ emailMatches body ∧ transporter = true ∧
     is_Some (newsletterContent body) ∧ delivered = true) ∧
  (status response = 200%nat ∨ status response = 400%nat ∨ status response = 500%nat) ∧
  (∀ body',
     getField "email" body' = getField "email" body →
     getField "name" body' = getField "name" body →
     newsletterSubscribe transporter delivered body' = response) ∧
  (∀ s, getField "email" body = Some (JString s) →
     (status response ≠ 400%nat ↔ RegExp.emailShape s)).
Proof.
  cbn zeta.
  split; [|split; [|split; [|split; [|split]]]].
  - unfold newsletterSubscribe, missing, emailFails.
    destruct (truthy (getField "email" body));
      destruct (emailTest body) as [[|]|];
      destruct transporter, delivered;
      destruct (newsletterContent body); cbn; split;
        try (intros [?|?]); try done; try congruence; auto.
  - unfold newsletterSubscribe.
    destruct (truthy (getField "email" body));
      destruct (emailTest body) as [[|]|];
      destruct transporter, delivered;
      destruct (newsletterContent body); cbn; done.
  - unfold newsletterSubscribe, missing, emailMatches.
    destruct (truthy (getField "email" body));
      destruct (emailTest body) as [[|]|];
      destruct transporter, delivered;
      destruct (newsletterContent body); cbn; split;
        try done; try (intros (? & ? & ? & [? ?] & ?); done);
        try (intros (? & ? & ? & ? & ?); done);
        try (intros _; repeat split; try done; by eexists).
  - unfold newsletterSubscribe.
    destruct (truthy (getField "email" body));
      destruct (emailTest body) as [[|]|];
      destruct transporter, delivered;
      destruct (newsletterContent body); cbn; auto.
  - intros body' Hemail Hname.
    unfold newsletterSubscribe, emailTest, newsletterContent.
    by rewrite Hemail, Hname.
  - intros s Hs. unfold newsletterSubscribe, emailTest. rewrite Hs.
    cbn [truthy ToStringOpt ToString fmap option_fmap option_map].
    rewrite <- matches_emailRegex, <- test_matches.
    destruct s as [|c s]; [by vm_compute|]. cbn [JS.truthy negb].
    destruct (RegExp.test RegExp.emailRegex (String c s));
      destruct transporter, delivered;
      destruct (newsletterContent body); cbn; split; done.
Qed.

(** The transporter: Gmail when both Gmail variables are set, whatever
    the SMTP variables say; else SMTP when [SMTP_HOST] is set, on port
    587 unless [SMTP_PORT] is set, and secure only when [SMTP_SECURE]
    is exactly "true"; else none.  A Gmail user without an app password
    counts for nothing.  As long as there is no transporter, a request
    that passes validation is answered 500 and never 200. *)
Theorem createTransporter_choice (env : gmap string string) :
  (isSet env "GMAIL_USER" = true → isSet env "GMAIL_APP_PASSWORD" = true →
     ∃ user pass,
       createTransporter env = Some (Gmail user pass) ∧
       env !! "GMAIL_USER" = Some user ∧ env !! "GMAIL_APP_PASSWORD" = Some pass) ∧
  (isSet env "GMAIL_USER" && isSet env "GMAIL_APP_PASSWORD" = false →
     isSet env "SMTP_HOST" = true →
     ∃ host port,
       createTransporter env
         = Some (Smtp host port (bool_decide (env !! "SMTP_SECURE" = Some "true"))
                   (env !! "SMTP_USER") (env !! "SMTP_PASSWORD")) ∧
       env !! "SMTP_HOST" = Some host ∧
       (isSet env "SMTP_PORT" = false → port = PortNumber 587) ∧
       (∀ text, env !! "SMTP_PORT" = Some text → text ≠ "" → port = PortText text)) ∧
  (createTransporter env = None ↔
     isSet env "GMAIL_USER" && isSet env "GMAIL_APP_PASSWORD" = false ∧
     isSet env "SMTP_HOST" = false) ∧
  (createTransporter env = None →
     ∀ delivered body,
       status (communityJoin false delivered body) ≠ 200%nat ∧
       status (newsletterSubscribe false delivered body) ≠ 200%nat).
Proof.
  assert (Hset : ∀ name, isSet env name = true →
    ∃ value, env !! name = Some value ∧ default "" (env !! name) = value ∧ value ≠ "").
  { intros name. unfold isSet. destruct (env !! name) as [value|]; [|discriminate].
    intros Hv. exists value. repeat split. by destruct value. }
  unfold createTransporter. split; [|split; [|split]].
  - intros Huser Hpass. rewrite Huser, Hpass. cbn.
    destruct (Hset _ Huser) as (user & Hu & -> & _).
    destruct (Hset _ Hpass) as (pass & Hp & -> & _). eauto.
  - intros Hgmail Hhost. rewrite Hgmail, Hhost.
    destruct (Hset _ Hhost) as (host & Hh & -> & _).
    eexists _, _. split; [reflexivity|]. split; [exact Hh|]. split.
    + by intros ->.
    + intros text Htext Hne. unfold isSet. rewrite Htext.
      destruct text; [done|reflexivity].
  - destruct (isSet env "GMAIL_USER" && isSet env "GMAIL_APP_PASSWORD");
      [split; [discriminate|intros [[=] _]]|].
    destruct (isSet env "SMTP_HOST"); [split; [discriminate|intros [_ [=]]]|].
    done.
  - intros _ delivered body. unfold communityJoin, newsletterSubscribe. split.
    + destruct (_ || _); [discriminate|].
      destruct (emailTest body) as [[|]|]; discriminate.
    + destruct (negb _); [discriminate|].
      destruct (emailTest body) as [[|]|]; discriminate.
Qed.

End ServerMoreFacts.

(** * Further properties on the sample pages *)

Section FormsMoreExamples.
Import Dom Forms Samples.

Lemma validateForm_all_fields_witness :
  controls mistypedForm !! 0%nat = Some (emailInput "not-an-email") ∧
  fieldValid (validationRules formsMistyped) (emailInput "not-an-email") = false ∧
  ∃ c', controls (validateForm (validationRules formsMistyped) mistypedForm).2 !! 0%nat
          = Some c' ∧
        contains "error" (el c') = true ∧
        getAttribute "aria-invalid" (el c') = Some "true".
Proof.
  assert (H0 : controls mistypedForm !! 0%nat = Some (emailInput "not-an-email"))
    by reflexivity.
  assert (Hinvalid :
    fieldValid (validationRules formsMistyped) (emailInput "not-an-email") = false).
  { vm_compute. reflexivity. }
  split; [exact H0|]. split; [exact Hinvalid|].
  destruct (validateForm_all_fields (validationRules formsMistyped) mistypedForm)
    as (_ & Hmarked & _).
  exact (Hmarked 0%nat (emailInput "not-an-email") H0 eq_refl Hinvalid).
Defined.

Lemma handleFormSubmit_invalid_witness :
  forms formsMistyped !! 0%nat = Some mistypedForm ∧
  ("newsletter-form" ∉ submittingForms formsMistyped) ∧
  (validateForm (validationRules formsMistyped) mistypedForm).1 = false ∧
  calls (handleFormSubmit namedValues 0 formsMistyped) = [] ∧
  awaiting (handleFormSubmit namedValues 0 formsMistyped) = [] ∧
  ∃ form' banner,
    forms (handleFormSubmit namedValues 0 formsMistyped) !! 0%nat = Some form' ∧
    formMessage form' = Some banner ∧
    textContent banner = "Please correct the errors below" ∧
    map value (controls form') = ["not-an-email"; ""].
Proof.
  assert (H0 : forms formsMistyped !! 0%nat = Some mistypedForm) by reflexivity.
  assert (Hout : id mistypedForm ∉ submittingForms formsMistyped).
  { apply (bool_decide_unpack _). vm_compute. exact I. }
  assert (Hinvalid :
    (validateForm (validationRules formsMistyped) mistypedForm).1 = false).
  { vm_compute. reflexivity. }
  split; [exact H0|]. split; [exact Hout|]. split; [exact Hinvalid|].
  destruct (handleFormSubmit_invalid namedValues formsMistyped 0 mistypedForm
              H0 Hout Hinvalid)
    as (Hcalls & _ & Hawait & _ & form' & banner & Hform' & Hbanner & Htext & _ & _
        & Hvalues & _).
  split; [exact Hcalls|]. split; [exact Hawait|].
  exists form', banner. split; [exact Hform'|]. split; [exact Hbanner|].
  split; [exact Htext | exact Hvalues].
Defined.

Lemma settle_resolved_witness :
  (∃ form, forms formsBusy !! 0%nat = Some form ∧ inModal form = true) ∧
  0%nat ∈ awaiting formsBusy ∧
  showSuccessMessages (config formsBusy) = true ∧
  (∃ form' banner,
     forms (settle 0 (Resolved (submitResult Newsletter)) formsBusy) !! 0%nat
       = Some form' ∧
     formMessage form' = Some banner ∧
     textContent banner = "Thank you for subscribing to our newsletter!") ∧
  dispatched (settle 0 (Resolved (submitResult Newsletter)) formsBusy)
    = [("formSuccess", 0%nat)] ∧
  ("newsletter-form" ∉ submittingForms
     (settle 0 (Resolved (submitResult Newsletter)) formsBusy)).
Proof.
  assert (H1 : forms formsBusy !! 0%nat
    = Some (setFormSubmitting true (validateForm (validationRules formsIdle) newsletterForm).2)).
  { vm_compute. reflexivity. }
  assert (Hawait : 0%nat ∈ awaiting formsBusy).
  { apply (bool_decide_unpack _). vm_compute. exact I. }
  assert (Hshow : showSuccessMessages (config formsBusy) = true) by reflexivity.
  split; [eexists; split; [exact H1 | reflexivity]|].
  split; [exact Hawait|]. split; [exact Hshow|].
  destruct (settle_resolved formsBusy 0 _ (submitResult Newsletter) H1 Hawait Hshow)
    as ((form' & banner & Hform' & Hbanner & Htext & _) & Hevents & _ & Hout & _).
  split; [exists form', banner; split; [exact Hform'|]; split; [exact Hbanner | exact Htext]|].
  split; [exact Hevents | exact Hout].
Defined.


(** The selector finds a submit button whatever the case of its [type],
    so a button without [data-original-text] does not come back with
    its label. *)
Example capitalsButton_relabelled :
  isSubmitButton capitalsButton = true ∧
  (λ c, textContent (el c)) <$>
    controls (setFormSubmitting false (setFormSubmitting true capitalsForm)) !! 1%nat
  = Some "Submit".
Proof. vm_compute. split; reflexivity. Qed.

Lemma retry_after_rejection_witness :
  (∃ form, forms formsBusy !! 0%nat = Some form ∧ id form = "newsletter-form" ∧
     (validateForm (validationRules formsBusy) form).1 = true) ∧
  0%nat ∈ awaiting formsBusy ∧
  callsFor "newsletter-form" formsBusy = 1%nat ∧
  callsFor "newsletter-form"
    (handleFormSubmit namedValues 0
       (settle 0 (Rejected {| errorMessage := Some "Failed to fetch" |}) formsBusy))
    = 2%nat.
Proof.
  assert (H1 : forms formsBusy !! 0%nat
    = Some (setFormSubmitting true (validateForm (validationRules formsIdle) newsletterForm).2)).
  { vm_compute. reflexivity. }
  assert (Hawait : 0%nat ∈ awaiting formsBusy).
  { apply (bool_decide_unpack _). vm_compute. exact I. }
  assert (Hvalid :
    (validateForm (validationRules formsBusy)
       (setFormSubmitting true
          (validateForm (validationRules formsIdle) newsletterForm).2)).1 = true).
  { vm_compute. reflexivity. }
  assert (Hcount : callsFor "newsletter-form" formsBusy = 1%nat).
  { vm_compute. reflexivity. }
  split; [eexists; split; [exact H1|]; split; [reflexivity | exact Hvalid]|].
  split; [exact Hawait|]. split; [exact Hcount|].
  destruct (retry_after_rejection namedValues formsBusy 0 _
              {| errorMessage := Some "Failed to fetch" |} H1 Hawait Hvalid)
    as (_ & Hagain & _).
  change (callsFor "newsletter-form"
    (handleFormSubmit namedValues 0
       (settle 0 (Rejected {| errorMessage := Some "Failed to fetch" |}) formsBusy))
    = S (callsFor "newsletter-form" formsBusy)) in Hagain.
  rewrite Hagain, Hcount. reflexivity.
Defined.

Lemma reachable_formsBusy : reachable JS.digitsToNumber namedValues formsBusy.
Proof.
  exact (reachable_step JS.digitsToNumber namedValues (Submit 0) _
           (reachable_init JS.digitsToNumber namedValues [newsletterForm])).
Qed.

Lemma reachable_accounted_witness :
  reachable JS.digitsToNumber namedValues formsBusy ∧
  awaiting formsBusy = [0%nat] ∧
  accounted formsBusy.
Proof.
  split; [exact reachable_formsBusy|]. split; [reflexivity|].
  exact (reachable_accounted JS.digitsToNumber namedValues formsBusy reachable_formsBusy).
Defined.

(** The stand-in for the form data leaves out disabled controls, as the
    host's [FormData] does. *)
Lemma namedValues_disabled (form : Form) :
  (∀ c, c ∈ controls form → disabled c = true) → namedValues form = [].
Proof.
  unfold namedValues. induction (controls form) as [|c l IH]; intros Hall;
    [reflexivity|].
  cbn. rewrite (Hall c) by apply list_elem_of_here.
  rewrite IH by (intros c' Hc'; apply Hall; by apply list_elem_of_further).
  by destruct (tag c).
Qed.

Lemma calls_without_data_witness :
  (∀ form, (∀ c, c ∈ controls form → disabled c = true) → namedValues form = []) ∧
  reachable JS.digitsToNumber namedValues formsBusy ∧
  length (calls formsBusy) = 1%nat ∧
  ∀ call, call ∈ calls formsBusy → callData call = [].
Proof.
  split; [exact namedValues_disabled|]. split; [exact reachable_formsBusy|].
  split; [reflexivity|].
  exact (calls_without_data JS.digitsToNumber namedValues formsBusy
           namedValues_disabled reachable_formsBusy).
Defined.

End FormsMoreExamples.

Section ModalsMoreExamples.
Import Dom Modals Samples.

Lemma animation_completes_witness :
  reachable (open "community-modal" modalsNewsletterOpen) ∧
  suspended (open "community-modal" modalsNewsletterOpen)
    = Some (Closing "newsletter-modal" (Some "community-modal")) ∧
  isAnimating (open "community-modal" modalsNewsletterOpen) = true ∧
  suspended (resume (resume (resume (open "community-modal" modalsNewsletterOpen))))
    = None ∧
  isAnimating (resume (resume (resume (open "community-modal" modalsNewsletterOpen))))
    = false.
Proof.
  assert (Hreach : reachable (open "community-modal" modalsNewsletterOpen)).
  { exact (reachable_step (Open "community-modal") _ reachable_modalsNewsletterOpen). }
  split; [exact Hreach|]. split; [vm_compute; reflexivity|].
  split; [vm_compute; reflexivity|].
  exact (animation_completes _ Hreach).
Defined.

Lemma open_then_close_witness :
  reachable modalsIdle ∧
  activeModal modalsIdle = None ∧
  is_Some (modals modalsIdle !! "newsletter-modal") ∧
  ariaHidden "newsletter-modal"
    (run [Open "newsletter-modal"; Resume; Resume; Close; Resume] modalsIdle)
    = Some "true" ∧
  bodyOverflow
    (run [Open "newsletter-modal"; Resume; Resume; Close; Resume] modalsIdle) = "" ∧
  dispatched
    (run [Open "newsletter-modal"; Resume; Resume; Close; Resume] modalsIdle)
    = [("modalOpened", "newsletter-modal"); ("modalClosed", "newsletter-modal")].
Proof.
  assert (Hreach : reachable modalsIdle) by apply reachable_init.
  assert (Hnone : activeModal modalsIdle = None) by reflexivity.
  assert (Hpage : is_Some (modals modalsIdle !! "newsletter-modal")).
  { apply (bool_decide_unpack _). vm_compute. exact I. }
  split; [exact Hreach|]. split; [exact Hnone|]. split; [exact Hpage|].
  destruct (open_then_close modalsIdle "newsletter-modal" Hreach Hnone Hpage)
    as (_ & _ & _ & Haria & _ & Hscroll & _ & Hevents).
  split; [exact Haria|]. split; [exact Hscroll | exact Hevents].
Defined.

End ModalsMoreExamples.

Section NavigationMoreExamples.
Import Dom Navigation Samples.

Lemma navbar_follows_threshold_witness :
  isScrolled (state (navigationAt 100)) = false ∧
  (scrollThreshold (config (navigationAt 100)) <? scrollY (navigationAt 100))%Z = true ∧
  isScrolled (state (handleNavbarScroll (navigationAt 100))) = true ∧
  contains "scrolled" (navbar (handleNavbarScroll (navigationAt 100))) = true ∧
  handleNavbarScroll (navigationAt 0) = navigationAt 0.
Proof.
  destruct (navbar_follows_threshold (navigationAt 100)) as (Hflag & _ & Hcross & _).
  destruct (navbar_follows_threshold (navigationAt 0)) as (_ & Hsame & _).
  split; [reflexivity|]. split; [reflexivity|]. split; [exact Hflag|].
  split; [apply Hcross; discriminate | apply Hsame; reflexivity].
Defined.

Lemma setActiveNavLink_lock_step_witness :
  ∃ about home,
    navLinks (setActiveNavLink "#about" (navigationAt 0)) !! 1%nat = Some about ∧
    navLinks (setActiveNavLink "#about" (navigationAt 0)) !! 0%nat = Some home ∧
    getAttribute "href" about = Some "#about" ∧
    getAttribute "href" home ≠ Some "#about" ∧
    contains "active" about = true ∧
    getAttribute "aria-current" about = Some "page" ∧
    contains "active" home = false ∧
    getAttribute "aria-current" home = Some "false".
Proof.
  destruct (navLinks (setActiveNavLink "#about" (navigationAt 0)) !! 1%nat)
    as [about|] eqn:Habout; [|discriminate].
  destruct (navLinks (setActiveNavLink "#about" (navigationAt 0)) !! 0%nat)
    as [home|] eqn:Hhome; [|discriminate].
  assert (Hhref : getAttribute "href" about = Some "#about").
  { injection Habout as <-. vm_compute. reflexivity. }
  assert (Hother : getAttribute "href" home ≠ Some "#about").
  { injection Hhome as <-. vm_compute. discriminate. }
  destruct (setActiveNavLink_lock_step "#about" (navigationAt 0)) as (Hlinks & _).
  destruct (Hlinks about (proj2 (list_elem_of_lookup _ _) (ex_intro _ 1%nat Habout)))
    as (Hactive & _).
  destruct (Hlinks home (proj2 (list_elem_of_lookup _ _) (ex_intro _ 0%nat Hhome)))
    as (_ & Hpassive).
  exists about, home. split; [reflexivity|]. split; [reflexivity|].
  split; [exact Hhref|]. split; [exact Hother|].
  destruct (Hactive Hhref) as [Hclass Haria].
  destruct (Hpassive Hother) as [Hclass' Haria'].
  split; [exact Hclass|]. split; [exact Haria|]. split; [exact Hclass' | exact Haria'].
Defined.

Lemma navigate_then_arrive_witness :
  let about := {| offsetTop := 600; offsetHeight := 600; sectionId := "about" |} in
  (scrollToSection about "#about" (navigationAt 0)).1 = 520%Z ∧
  activeSection (state (scrollToSection about "#about" (navigationAt 0)).2) = "home" ∧
  activeSection
    (state (onScroll 520 (scrollToSection about "#about" (navigationAt 0)).2))
    = "about".
Proof.
  cbn zeta.
  set (about := {| offsetTop := 600; offsetHeight := 600; sectionId := "about" |}).
  assert (Hsections : sections (navigationAt 0)
    = [{| offsetTop := 0; offsetHeight := 600; sectionId := "home" |}]
      ++ about
      :: [{| offsetTop := 1200; offsetHeight := 600; sectionId := "services" |}])
    by reflexivity.
  assert (Hhigh : (50 < offsetHeight about)%Z) by reflexivity.
  assert (Hafter : ∀ later,
    later ∈ [{| offsetTop := 1200; offsetHeight := 600; sectionId := "services" |}] →
    inBand (offsetTop about + 50) later = false).
  { intros later Hlater. apply list_elem_of_singleton in Hlater as ->. reflexivity. }
  destruct (navigate_then_arrive (navigationAt 0) _ _ about Hsections Hhigh Hafter)
    as (Htop & Hstate & _ & Harrived & _).
  split; [exact Htop|]. split; [exact (f_equal activeSection Hstate)|]. exact Harrived.
Defined.

End NavigationMoreExamples.

Section MobileMenuMoreExamples.
Import Dom MobileMenu Samples.

Lemma reachable_menuOpen : reachable menuOpen.
Proof.
  exact (reachable_step Resume _
           (reachable_step Resume _
              (reachable_step Toggle _
                 (reachable_init 375 createElement createElement true)))).
Qed.

Lemma resize_to_desktop_witness :
  (breakpoint (config menuOpen) < 1024)%Z ∧
  isOpen (state menuOpen) = true ∧
  isAnimating (state menuOpen) = false ∧
  isMobile (state (checkMobileState 1024 menuOpen)) = false ∧
  isOpen (state (checkMobileState 1024 menuOpen)) = false ∧
  bodyOverflow (checkMobileState 1024 menuOpen) = "".
Proof.
  assert (Hwide : (breakpoint (config menuOpen) < 1024)%Z) by reflexivity.
  assert (Hopen : isOpen (state menuOpen) = true) by reflexivity.
  assert (Hidle : isAnimating (state menuOpen) = false) by reflexivity.
  split; [exact Hwide|]. split; [exact Hopen|]. split; [exact Hidle|].
  destruct (resize_to_desktop menuOpen 1024 Hwide Hopen) as (Hdesktop & Hrest & _).
  destruct (Hrest Hidle) as (Hclosed & _ & _ & _ & Hscroll & _).
  split; [exact Hdesktop|]. split; [exact Hclosed | exact Hscroll].
Defined.

Lemma overlay_lost_on_quick_reopen_witness :
  isOpen (state menuOpen) = true ∧
  isAnimating (state menuOpen) = false ∧
  isMobile (state menuOpen) = true ∧
  is_Some (overlay menuOpen) ∧
  removals menuOpen = [] ∧
  isOpen (state (resume (removeOverlay (resume (toggle (resume (toggle menuOpen)))))))
    = true ∧
  overlay (resume (removeOverlay (resume (toggle (resume (toggle menuOpen)))))) = None.
Proof.
  assert (Hopen : isOpen (state menuOpen) = true) by reflexivity.
  assert (Hidle : isAnimating (state menuOpen) = false) by reflexivity.
  assert (Hmobile : isMobile (state menuOpen) = true) by reflexivity.
  assert (Hremovals : removals menuOpen = []) by reflexivity.
  destruct (overlay menuOpen) as [o|] eqn:Hoverlay; [|discriminate].
  split; [exact Hopen|]. split; [exact Hidle|]. split; [exact Hmobile|].
  split; [by exists o|]. split; [exact Hremovals|].
  destruct (overlay_lost_on_quick_reopen menuOpen o Hopen Hidle Hmobile Hoverlay Hremovals)
    as (_ & _ & Hreopened & _ & _ & Hlost).
  split; [exact Hreopened | exact Hlost].
Defined.

Lemma swipe_threshold_witness :
  isOpen (state menuOpen) = true ∧
  isAnimating (state menuOpen) = false ∧
  suspended (handleTouchEnd 149 (handleTouchStart 200 300 menuOpen)) = Some Closing ∧
  isOpen (state (handleTouchEnd 150 (handleTouchStart 200 300 menuOpen))) = true ∧
  handleTouchEnd 0 (handleTouchStart 200 300 menuClosed)
    = handleTouchStart 200 300 menuClosed.
Proof.
  assert (Hopen : isOpen (state menuOpen) = true) by reflexivity.
  assert (Hidle : isAnimating (state menuOpen) = false) by reflexivity.
  split; [exact Hopen|]. split; [exact Hidle|].
  destruct (swipe_threshold menuOpen 200 300 149) as (_ & Hfar & _).
  destruct (swipe_threshold menuOpen 200 300 150) as (_ & _ & Hnear).
  destruct (swipe_threshold menuClosed 200 300 0) as (Hnothing & _).
  split; [exact (proj2 (Hfar Hopen Hidle eq_refl))|].
  split; [|exact (Hnothing eq_refl)].
  apply Hnear; [exact Hopen|]. discriminate.
Defined.

Lemma toggle_twice_witness :
  isOpen (state menuClosed) = false ∧
  isAnimating (state menuClosed) = false ∧
  isMobile (state menuClosed) = true ∧
  state (resume (toggle (resume (resume (toggle menuClosed))))) = state menuClosed ∧
  bodyOverflow (resume (toggle (resume (resume (toggle menuClosed))))) = "" ∧
  dispatched (resume (toggle (resume (resume (toggle menuClosed)))))
    = [("mobileMenuOpened", true); ("mobileMenuClosed", false)].
Proof.
  assert (Hclosed : isOpen (state menuClosed) = false) by reflexivity.
  assert (Hidle : isAnimating (state menuClosed) = false) by reflexivity.
  assert (Hmobile : isMobile (state menuClosed) = true) by reflexivity.
  split; [exact Hclosed|]. split; [exact Hidle|]. split; [exact Hmobile|].
  destruct (toggle_twice menuClosed Hclosed Hidle Hmobile)
    as (Hstate & _ & _ & Hscroll & _ & _ & _ & Hevents).
  split; [exact Hstate|]. split; [exact Hscroll | exact Hevents].
Defined.

End MobileMenuMoreExamples.

Section PageExamples.
Import Dom Samples.

Lemma page_reachable_run evs p : Page.reachable p → Page.reachable (Page.run evs p).
Proof.
  revert p. induction evs as [|ev evs IH]; intros p Hp; [exact Hp|].
  cbn. apply IH. by constructor.
Qed.

Lemma reachable_pageBothOpen : Page.reachable pageBothOpen.
Proof. apply page_reachable_run. constructor. Qed.

Lemma reachable_scroll_held_witness :
  Page.reachable pageBothOpen ∧
  Page.overflow pageBothOpen = "hidden" ∧
  Page.held pageBothOpen ∧
  Page.reachable pageIdle ∧
  Page.overflow pageIdle = "".
Proof.
  assert (Hidle : Page.reachable pageIdle) by constructor.
  destruct (reachable_scroll_held pageBothOpen reachable_pageBothOpen)
    as (_ & Hheld & _).
  destruct (reachable_scroll_held pageIdle Hidle) as (_ & _ & Hfree).
  assert (Hlock : Page.overflow pageBothOpen = "hidden") by (vm_compute; reflexivity).
  split; [exact reachable_pageBothOpen|]. split; [exact Hlock|].
  split; [exact (Hheld Hlock)|]. split; [exact Hidle|].
  apply Hfree; reflexivity.
Defined.

Lemma reachable_coherent_witness :
  Page.reachable pageBothOpen ∧
  MobileMenu.isOpen (MobileMenu.state (Page.mobileMenu pageBothOpen)) = true ∧
  MobileMenu.coherent (Page.mobileMenu pageBothOpen).
Proof.
  split; [exact reachable_pageBothOpen|]. split; [vm_compute; reflexivity|].
  exact (reachable_coherent pageBothOpen reachable_pageBothOpen).
Defined.

Lemma scroll_released_under_the_other_witness :
  Modals.activeModal (Page.modals pageBothOpen) = Some "newsletter-modal" ∧
  Modals.isAnimating (Page.modals pageBothOpen) = false ∧
  MobileMenu.isOpen (MobileMenu.state (Page.mobileMenu pageBothOpen)) = true ∧
  MobileMenu.isAnimating (MobileMenu.state (Page.mobileMenu pageBothOpen)) = false ∧
  Page.overflow pageBothOpen = "hidden" ∧
  Page.overflow
    (Page.run [Page.OfMenu MobileMenu.Toggle; Page.OfMenu MobileMenu.Resume] pageBothOpen)
    = "" ∧
  Page.overflow
    (Page.run [Page.OfModals Modals.Close; Page.OfModals Modals.Resume] pageBothOpen)
    = "".
Proof.
  assert (Hactive : Modals.activeModal (Page.modals pageBothOpen)
                    = Some "newsletter-modal") by (vm_compute; reflexivity).
  assert (Hidle : Modals.isAnimating (Page.modals pageBothOpen) = false)
    by (vm_compute; reflexivity).
  assert (Hopen : MobileMenu.isOpen (MobileMenu.state (Page.mobileMenu pageBothOpen))
                  = true) by (vm_compute; reflexivity).
  assert (Hrest : MobileMenu.isAnimating (MobileMenu.state (Page.mobileMenu pageBothOpen))
                  = false) by (vm_compute; reflexivity).
  split; [exact Hactive|]. split; [exact Hidle|]. split; [exact Hopen|].
  split; [exact Hrest|]. split; [vm_compute; reflexivity|].
  destruct (scroll_released_under_the_other pageBothOpen "newsletter-modal"
              Hactive Hidle Hopen Hrest) as ((Hmenu & _) & (Hmodal & _)).
  split; [exact Hmenu | exact Hmodal].
Defined.

End PageExamples.

Section ServerMoreExamples.
Import Server Samples.

Lemma newsletterSubscribe_validation_witness :
  getField "email" subscribeBody = Some (JString "test@example.com") ∧
  RegExp.emailShape "test@example.com" ∧
  status (newsletterSubscribe true true subscribeBody) = 200%nat ∧
  status (newsletterSubscribe false true subscribeBody) = 500%nat ∧
  status (newsletterSubscribe true true subscribeBodyWithUnprintableName) = 500%nat ∧
  newsletterSubscribe true true
    (BObject [("name", JString "Test User"); ("email", JString "test@example.com");
              ("company", JString "Example")])
    = newsletterSubscribe true true subscribeBody.
Proof.
  assert (Hemail : getField "email" subscribeBody = Some (JString "test@example.com"))
    by reflexivity.
  destruct (newsletterSubscribe_validation true true subscribeBody)
    as (_ & _ & Hsent & _ & Hfields & Hshape).
  destruct (newsletterSubscribe_validation false true subscribeBody)
    as (Hrejected & _ & Hnone & Hany & _).
  destruct (newsletterSubscribe_validation true true subscribeBodyWithUnprintableName)
    as (Hrejected' & _ & Hsent' & Hany' & _).
  assert (Hpass : status (newsletterSubscribe true true subscribeBody) ≠ 400%nat).
  { vm_compute. discriminate. }
  split; [exact Hemail|].
  split; [exact (proj1 (Hshape _ Hemail) Hpass)|].
  split.
  { apply Hsent. split; [vm_compute; discriminate|].
    split; [vm_compute; reflexivity|]. split; [reflexivity|].
    split; [vm_compute; by eexists | reflexivity]. }
  split.
  { destruct Hany as [H200|[H400|H500]]; [| |exact H500].
    - apply Hnone in H200 as (_ & _ & Hfalse & _). discriminate.
    - apply Hrejected in H400 as [Hmissing|Hfails];
        [vm_compute in Hmissing | vm_compute in Hfails]; discriminate. }
  split.
  { destruct Hany' as [H200|[H400|H500]]; [| |exact H500].
    - apply Hsent' in H200 as (_ & _ & _ & [content Hcontent] & _).
      vm_compute in Hcontent. discriminate.
    - apply Hrejected' in H400 as [Hmissing|Hfails];
        [vm_compute in Hmissing | vm_compute in Hfails]; discriminate. }
  apply Hfields; reflexivity.
Defined.

Lemma createTransporter_choice_witness :
  isSet gmailEnv "GMAIL_USER" = true ∧
  isSet gmailEnv "GMAIL_APP_PASSWORD" = true ∧
  isSet gmailEnv "SMTP_HOST" = true ∧
  createTransporter gmailEnv = Some (Gmail "site@gmail.com" "app-password") ∧
  isSet smtpEnv "GMAIL_USER" = true ∧
  isSet smtpEnv "GMAIL_APP_PASSWORD" = false ∧
  createTransporter smtpEnv
    = Some (Smtp "smtp.example.com" (PortNumber 587) false None None).
Proof.
  assert (Huser : isSet gmailEnv "GMAIL_USER" = true) by (vm_compute; reflexivity).
  assert (Hpass : isSet gmailEnv "GMAIL_APP_PASSWORD" = true) by (vm_compute; reflexivity).
  assert (Hhost : isSet gmailEnv "SMTP_HOST" = true) by (vm_compute; reflexivity).
  assert (Hgmail : isSet smtpEnv "GMAIL_USER" && isSet smtpEnv "GMAIL_APP_PASSWORD" = false)
    by (vm_compute; reflexivity).
  assert (Hsmtp : isSet smtpEnv "SMTP_HOST" = true) by (vm_compute; reflexivity).
  split; [exact Huser|]. split; [exact Hpass|]. split; [exact Hhost|].
  destruct (createTransporter_choice gmailEnv) as (Hfirst & _).
  destruct (Hfirst Huser Hpass) as (user & pass & Hchoice & Hu & Hp).
  split.
  { rewrite Hchoice. vm_compute in Hu, Hp. by injection Hu as <-; injection Hp as <-. }
  split; [vm_compute; reflexivity|]. split; [vm_compute; reflexivity|].
  destruct (createTransporter_choice smtpEnv) as (_ & Hsecond & _).
  destruct (Hsecond Hgmail Hsmtp) as (host & port & Hchoice' & Hh & Hdefault & _).
  rewrite Hchoice'. vm_compute in Hh. injection Hh as <-.
  rewrite (Hdefault ltac:(vm_compute; reflexivity)). vm_compute. reflexivity.
Defined.

End ServerMoreExamples.
